(** * kingdb: the write-throttling rate limiter (cache/rate_limiter.h)

    A shallow embedding of [kdb::RateLimiter] and the properties of its
    controller, its writing-rate estimator and its sleep gate.

    - [uint64_t] values are integers of [Z] with the wrap-around modulo
      2^64 written out ([U64]).
    - [double] values are IEEE 754 binary64 numbers, given by the
      standard library's executable specification [SpecFloat] at
      precision 53 and maximal exponent 1024 ([Double]).
    - The conversion of a [double] to [uint64_t] truncates toward zero
      and is undefined when the truncated value does not fit; operations
      that perform it return an [option], [None] standing for undefined
      behaviour.
    - The wall clock ([std::time], [std::chrono::system_clock]) is an
      input of each operation; the time a call sleeps is an output.

    The last part covers util/options.h: the path of the options file
    and the parameters that [DatabaseOptions] and [ServerOptions] hand
    to the configuration parser ([Options]). *)

From Stdlib Require Import ZArith List Bool Lia.
From Stdlib Require Import Floats.SpecFloat.
From Stdlib Require String.
Import ListNotations.
Local Open Scope Z_scope.

(** ** Unsigned 64-bit integers *)

Module U64.

Definition modulus : Z := 2 ^ 64.

Definition wrap (z : Z) : Z := z mod modulus.

Definition add (a b : Z) : Z := wrap (a + b).

Definition mul (a b : Z) : Z := wrap (a * b).

End U64.

(** ** IEEE 754 binary64 *)

Module Double.

Definition prec : Z := 53.
Definition emax : Z := 1024.

Definition t : Type := spec_float.

(** [(double)z] for an integer [z]: round to nearest, ties to even. *)
Definition of_Z (z : Z) : t := binary_normalize prec emax z 0 false.

Definition of_uint64 (z : Z) : t := of_Z z.

Definition mul : t -> t -> t := SFmul prec emax.
Definition div : t -> t -> t := SFdiv prec emax.
Definition sub : t -> t -> t := SFsub prec emax.

(** [x < y] and [x > y]; both are false when an operand is a NaN. *)
Definition ltb (x y : t) : bool := SFltb x y.
Definition gtb (x y : t) : bool := SFltb y x.
Definition leb (x y : t) : bool := SFleb x y.

(** The value of a decimal literal [n/d]: both integers are exact in
    binary64 and IEEE division rounds correctly, so the quotient is the
    binary64 number nearest to the literal. *)
Definition dec (n d : Z) : t := div (of_Z n) (of_Z d).

(** The integer part of [m * 2^e], for a positive mantissa. *)
Definition trunc (m : positive) (e : Z) : Z := Z.shiftl (Zpos m) e.

(** [(uint64_t)x]: the fractional part is discarded; the behaviour is
    undefined when the truncated value is not a [uint64_t]. *)
Definition to_uint64 (x : t) : option Z :=
  match x with
  | S754_zero _ => Some 0
  | S754_finite false m e =>
      if trunc m e <? U64.modulus then Some (trunc m e) else None
  | S754_finite true m e =>
      if trunc m e =? 0 then Some 0 else None
  | S754_infinity _ | S754_nan => None
  end.

End Double.

(** ** The limiter *)

Module RL.

(** The data members of the class.  [rate_writing_] is never read nor
    written and [mutex_throttling_] carries no data; both are left out. *)
Record RateLimiter : Type := mkRateLimiter {
  epoch_write_start_ : Z;
  epoch_write_end_ : Z;
  rate_limit_ : Z;
  rate_arriving_ : Z;
  rate_arriving_adjusted_ : Z;
  epoch_last_ : Z;
  epoch_current_ : Z;
  duration_slept_ : Z;
  bytes_per_microsecond_ : Z;
  rates_ : list Z
}.

(** The constructor.  It leaves [epoch_write_start_] and
    [epoch_write_end_] uninitialised: [ws] and [we] stand for whatever
    [uint64_t] values they hold. *)
Definition RateLimiter_new (rate_limit ws we : Z) : RateLimiter :=
  {| epoch_write_start_ := U64.wrap ws;
     epoch_write_end_ := U64.wrap we;
     rate_limit_ := U64.wrap rate_limit;
     rate_arriving_ := 250 * 1024 * 1024;
     rate_arriving_adjusted_ := 0;
     epoch_last_ := 0;
     epoch_current_ := 0;
     duration_slept_ := 0;
     bytes_per_microsecond_ := 5;
     rates_ := [] |}.

(** *** Writing-rate estimator *)

Definition StoreWritingRate (rate : Z) (rates : list Z) : list Z :=
  (if 10 <=? Z.of_nat (length rates) then tl rates else rates) ++ [rate].

Definition sum_rates (rates : list Z) : Z :=
  fold_left U64.add rates 0.

Definition GetWritingRate (s : RateLimiter) : Z :=
  match rates_ s with
  | [] => 1 * 1024 * 1024
  | _ =>
      let sum := sum_rates (rates_ s) in
      let rate_limit_current := sum / Z.of_nat (length (rates_ s)) in
      if (0 <? rate_limit_ s) && (rate_limit_ s <? rate_limit_current)
      then rate_limit_ s
      else rate_limit_current
  end.

Definition WriteStart (now_ms : Z) (s : RateLimiter) : RateLimiter :=
  {| epoch_write_start_ := U64.wrap now_ms;
     epoch_write_end_ := epoch_write_end_ s;
     rate_limit_ := rate_limit_ s;
     rate_arriving_ := rate_arriving_ s;
     rate_arriving_adjusted_ := rate_arriving_adjusted_ s;
     epoch_last_ := epoch_last_ s;
     epoch_current_ := epoch_current_ s;
     duration_slept_ := duration_slept_ s;
     bytes_per_microsecond_ := bytes_per_microsecond_ s;
     rates_ := rates_ s |}.

(** The sample [WriteEnd] computes from the two millisecond stamps. *)
Definition write_sample (start_ms end_ms num_bytes_written : Z) : option Z :=
  if start_ms =? end_ms then Some num_bytes_written
  else
    let duration :=
      Double.div (Double.sub (Double.of_uint64 end_ms)
                             (Double.of_uint64 start_ms))
                 (Double.of_Z 1000) in
    Double.to_uint64 (Double.div (Double.of_uint64 num_bytes_written) duration).

Definition WriteEnd (now_ms num_bytes_written : Z) (s : RateLimiter)
  : option RateLimiter :=
  let end_ms := U64.wrap now_ms in
  match write_sample (epoch_write_start_ s) end_ms
                     (U64.wrap num_bytes_written) with
  | None => None
  | Some rate_writing =>
      Some {| epoch_write_start_ := epoch_write_start_ s;
              epoch_write_end_ := end_ms;
              rate_limit_ := rate_limit_ s;
              rate_arriving_ := rate_arriving_ s;
              rate_arriving_adjusted_ := rate_arriving_adjusted_ s;
              epoch_last_ := epoch_last_ s;
              epoch_current_ := epoch_current_ s;
              duration_slept_ := duration_slept_ s;
              bytes_per_microsecond_ := bytes_per_microsecond_ s;
              rates_ := StoreWritingRate rate_writing (rates_ s) |}
  end.

(** *** Feedback controller *)

(** The factor of the [*=] chosen in the rollover branch of [Tick]. *)
Definition multiplier (rate_arriving_adjusted rate_writing : Z) : Double.t :=
  let ratio := Double.div (Double.of_uint64 rate_arriving_adjusted)
                          (Double.of_uint64 rate_writing) in
  if rate_arriving_adjusted >? rate_writing then
    if Double.gtb ratio (Double.dec 150 100) then Double.dec 75 100
    else if Double.gtb ratio (Double.dec 110 100) then Double.dec 95 100
    else if Double.gtb ratio (Double.dec 105 100) then Double.dec 99 100
    else Double.dec 995 1000
  else
    if Double.ltb ratio (Double.dec 5 10) then Double.dec 125 100
    else if Double.ltb ratio (Double.dec 90 100) then Double.dec 105 100
    else if Double.ltb ratio (Double.dec 95 100) then Double.dec 101 100
    else Double.dec 1005 1000.

(** [bytes_per_microsecond_ *= k]: the product is taken in binary64 and
    converted back. *)
Definition scale (bytes_per_microsecond : Z) (k : Double.t) : option Z :=
  Double.to_uint64 (Double.mul (Double.of_uint64 bytes_per_microsecond) k).

(** [if (bytes_per_microsecond_ <= 5) bytes_per_microsecond_ += 1;] *)
Definition bump (bytes_per_microsecond : Z) : Z :=
  if bytes_per_microsecond <=? 5 then U64.add bytes_per_microsecond 1
  else bytes_per_microsecond.

(** [rate_arriving_ + bytes_per_microsecond_ * duration_slept_] *)
Definition adjusted_arrival (s : RateLimiter) : Z :=
  U64.add (rate_arriving_ s)
          (U64.mul (bytes_per_microsecond_ s) (duration_slept_ s)).

(** The body of [if (epoch_current_ != epoch_last_)]. *)
Definition rollover (s : RateLimiter) : option RateLimiter :=
  let adjusted := adjusted_arrival s in
  let rate_writing := GetWritingRate s in
  match scale (bytes_per_microsecond_ s) (multiplier adjusted rate_writing) with
  | None => None
  | Some scaled =>
      Some {| epoch_write_start_ := epoch_write_start_ s;
              epoch_write_end_ := epoch_write_end_ s;
              rate_limit_ := rate_limit_ s;
              rate_arriving_ := 0;
              rate_arriving_adjusted_ := adjusted;
              epoch_last_ := epoch_current_ s;
              epoch_current_ := epoch_current_ s;
              duration_slept_ := 0;
              bytes_per_microsecond_ := bump scaled;
              rates_ := rates_ s |}
  end.

(** *** Accounting and sleep gate *)

Definition set_epoch_current (now : Z) (s : RateLimiter) : RateLimiter :=
  {| epoch_write_start_ := epoch_write_start_ s;
     epoch_write_end_ := epoch_write_end_ s;
     rate_limit_ := rate_limit_ s;
     rate_arriving_ := rate_arriving_ s;
     rate_arriving_adjusted_ := rate_arriving_adjusted_ s;
     epoch_last_ := epoch_last_ s;
     epoch_current_ := U64.wrap now;
     duration_slept_ := duration_slept_ s;
     bytes_per_microsecond_ := bytes_per_microsecond_ s;
     rates_ := rates_ s |}.

(** The number of microseconds [Tick] hands to [sleep_for]. *)
Definition sleep_microseconds (bytes_arriving bytes_per_microsecond : Z) : Z :=
  let sleep :=
    if bytes_per_microsecond >? 0 then bytes_arriving / bytes_per_microsecond
    else 0 in
  if sleep >? 50000 then 50000 else sleep.

(** The part of [Tick] after the rollover branch. *)
Definition account (bytes_arriving : Z) (s : RateLimiter) : RateLimiter * Z :=
  let sleep := sleep_microseconds bytes_arriving (bytes_per_microsecond_ s) in
  ({| epoch_write_start_ := epoch_write_start_ s;
      epoch_write_end_ := epoch_write_end_ s;
      rate_limit_ := rate_limit_ s;
      rate_arriving_ := U64.add (rate_arriving_ s) bytes_arriving;
      rate_arriving_adjusted_ := rate_arriving_adjusted_ s;
      epoch_last_ := epoch_last_ s;
      epoch_current_ := epoch_current_ s;
      duration_slept_ :=
        if sleep =? 0 then duration_slept_ s
        else U64.add (duration_slept_ s) sleep;
      bytes_per_microsecond_ := bytes_per_microsecond_ s;
      rates_ := rates_ s |}, sleep).

(** [Tick now bytes_arriving s]: [now] is the value of [std::time(0)];
    the result is the new state and the time slept, in microseconds. *)
Definition Tick (now bytes_arriving : Z) (s : RateLimiter)
  : option (RateLimiter * Z) :=
  let s1 := set_epoch_current now s in
  let bytes := U64.wrap bytes_arriving in
  if epoch_current_ s1 =? epoch_last_ s1 then Some (account bytes s1)
  else
    match rollover s1 with
    | None => None
    | Some s2 => Some (account bytes s2)
    end.

(** *** Call sequences *)

(** The calls a client can make, with the clock reading each one samples.
    [GetWritingRate] changes nothing and is left out. *)
Inductive call : Type :=
| CallTick (now bytes_arriving : Z)
| CallWriteStart (now_ms : Z)
| CallWriteEnd (now_ms num_bytes_written : Z)
| CallStoreWritingRate (rate : Z).

Definition exec (c : call) (s : RateLimiter) : option RateLimiter :=
  match c with
  | CallTick now bytes_arriving =>
      match Tick now bytes_arriving s with
      | Some (s', _) => Some s'
      | None => None
      end
  | CallWriteStart now_ms => Some (WriteStart now_ms s)
  | CallWriteEnd now_ms n => WriteEnd now_ms n s
  | CallStoreWritingRate rate =>
      Some {| epoch_write_start_ := epoch_write_start_ s;
              epoch_write_end_ := epoch_write_end_ s;
              rate_limit_ := rate_limit_ s;
              rate_arriving_ := rate_arriving_ s;
              rate_arriving_adjusted_ := rate_arriving_adjusted_ s;
              epoch_last_ := epoch_last_ s;
              epoch_current_ := epoch_current_ s;
              duration_slept_ := duration_slept_ s;
              bytes_per_microsecond_ := bytes_per_microsecond_ s;
              rates_ := StoreWritingRate (U64.wrap rate) (rates_ s) |}
  end.

Fixpoint run (cs : list call) (s : RateLimiter) : option RateLimiter :=
  match cs with
  | [] => Some s
  | c :: cs' =>
      match exec c s with
      | Some s' => run cs' s'
      | None => None
      end
  end.

(** A state is reachable when some sequence of calls, none of which has
    undefined behaviour, leads to it from a freshly constructed limiter. *)
Definition reachable (s : RateLimiter) : Prop :=
  exists rate_limit ws we cs,
    run cs (RateLimiter_new rate_limit ws we) = Some s.

(** Samples stored one after the other, oldest call first. *)
Definition store_all (samples history : list Z) : list Z :=
  fold_left (fun h x => StoreWritingRate x h) samples history.

End RL.

Import RL.

(** ** Options (util/options.h) *)

Module Options.

Import String.
Local Open Scope string_scope.

(** The data members of [DatabaseOptions]. *)
Inductive DatabaseField : Type :=
| internal__hstable_header_size
| hash
| compression
| storage__hstable_size
| storage__compression_algorithm
| storage__hashing_algorithm
| create_if_missing
| error_if_exists
| max_open_files
| write_buffer__size
| write_buffer__flush_timeout
| write_buffer__close_timeout
| storage__streaming_timeout
| storage__statistics_polling_interval
| storage__free_space_reject_orders
| storage__maximum_chunk_size
| compaction__check_interval
| compaction__num_index_iterations_per_lock
| compaction__filesystem__survival_mode_threshold
| compaction__filesystem__normal_batch_size
| compaction__filesystem__survival_batch_size
| compaction__filesystem__free_space_required.

(** The data members of [ServerOptions]. *)
Inductive ServerField : Type :=
| interface__memcached_port
| listen_backlog
| num_threads
| size_buffer_recv
| size_buffer_send.

(** The address of a data member: [&db_options.f] or
    [&server_options.f]. *)
Inductive Pointer : Type :=
| db_options (f : DatabaseField)
| server_options (f : ServerField).

(** A parameter as the constructors of [kdb::BooleanParameter],
    [kdb::UnsignedInt32Parameter], [kdb::UnsignedInt64Parameter] and
    [kdb::StringParameter] receive it: name, default value, the data
    member the parsed value is written to, and the mandatory flag.  The
    description, a help text, is left out. *)
Inductive ConfigParameter : Type :=
| BooleanParameter (name : string) (default_value : bool)
                   (is_present : Pointer) (mandatory : bool)
| UnsignedInt32Parameter (name default_value : string)
                         (ptr : Pointer) (mandatory : bool)
| UnsignedInt64Parameter (name default_value : string)
                         (ptr : Pointer) (mandatory : bool)
| StringParameter (name default_value : string)
                  (ptr : Pointer) (mandatory : bool).

Definition name (p : ConfigParameter) : string :=
  match p with
  | BooleanParameter n _ _ _ | UnsignedInt32Parameter n _ _ _
  | UnsignedInt64Parameter n _ _ _ | StringParameter n _ _ _ => n
  end.

Definition target (p : ConfigParameter) : Pointer :=
  match p with
  | BooleanParameter _ _ f _ | UnsignedInt32Parameter _ _ f _
  | UnsignedInt64Parameter _ _ f _ | StringParameter _ _ f _ => f
  end.

Definition mandatory (p : ConfigParameter) : bool :=
  match p with
  | BooleanParameter _ _ _ m | UnsignedInt32Parameter _ _ _ m
  | UnsignedInt64Parameter _ _ _ m | StringParameter _ _ _ m => m
  end.

Definition DatabaseField_eqb (a b : DatabaseField) : bool :=
  match a, b with
  | internal__hstable_header_size, internal__hstable_header_size
  | hash, hash
  | compression, compression
  | storage__hstable_size, storage__hstable_size
  | storage__compression_algorithm, storage__compression_algorithm
  | storage__hashing_algorithm, storage__hashing_algorithm
  | create_if_missing, create_if_missing
  | error_if_exists, error_if_exists
  | max_open_files, max_open_files
  | write_buffer__size, write_buffer__size
  | write_buffer__flush_timeout, write_buffer__flush_timeout
  | write_buffer__close_timeout, write_buffer__close_timeout
  | storage__streaming_timeout, storage__streaming_timeout
  | storage__statistics_polling_interval, storage__statistics_polling_interval
  | storage__free_space_reject_orders, storage__free_space_reject_orders
  | storage__maximum_chunk_size, storage__maximum_chunk_size
  | compaction__check_interval, compaction__check_interval
  | compaction__num_index_iterations_per_lock,
    compaction__num_index_iterations_per_lock
  | compaction__filesystem__survival_mode_threshold,
    compaction__filesystem__survival_mode_threshold
  | compaction__filesystem__normal_batch_size,
    compaction__filesystem__normal_batch_size
  | compaction__filesystem__survival_batch_size,
    compaction__filesystem__survival_batch_size
  | compaction__filesystem__free_space_required,
    compaction__filesystem__free_space_required => true
  | _, _ => false
  end.

Definition ServerField_eqb (a b : ServerField) : bool :=
  match a, b with
  | interface__memcached_port, interface__memcached_port
  | listen_backlog, listen_backlog
  | num_threads, num_threads
  | size_buffer_recv, size_buffer_recv
  | size_buffer_send, size_buffer_send => true
  | _, _ => false
  end.

(** [DatabaseOptions::GetPath] and [DatabaseOptions::GetFilename] *)
Definition GetPath (dirpath : string) : string :=
  dirpath ++ "/db_options".

Definition GetFilename : string := "db_options".

Section ConfigParser.

(** [ConfigParser] is declared in config_parser.h; the two functions
    below only call its [AddParameter]. *)
Variable Parser : Type.
Variable AddParameter : ConfigParameter -> Parser -> Parser.

(** [DatabaseOptions::AddParametersToConfigParser] *)
Definition DatabaseOptions_AddParametersToConfigParser (parser : Parser)
  : Parser :=
  let parser := AddParameter
    (BooleanParameter "db.create_if_missing" true
       (db_options create_if_missing) false) parser in
  let parser := AddParameter
    (BooleanParameter "db.error_if_exists" false
       (db_options error_if_exists) false) parser in
  let parser := AddParameter
    (UnsignedInt64Parameter "db.write_buffer.size" "32MB"
       (db_options write_buffer__size) false) parser in
  let parser := AddParameter
    (UnsignedInt64Parameter "db.write_buffer.flush_timeout" "500 milliseconds"
       (db_options write_buffer__flush_timeout) false) parser in
  let parser := AddParameter
    (UnsignedInt64Parameter "db.write_buffer.close_timeout" "5 seconds"
       (db_options write_buffer__close_timeout) false) parser in
  let parser := AddParameter
    (UnsignedInt64Parameter "db.storage.hstable_size" "32MB"
       (db_options storage__hstable_size) false) parser in
  let parser := AddParameter
    (StringParameter "db.storage.compression" "lz4"
       (db_options storage__compression_algorithm) false) parser in
  let parser := AddParameter
    (StringParameter "db.storage.hashing" "xxhash_64"
       (db_options storage__hashing_algorithm) false) parser in
  let parser := AddParameter
    (UnsignedInt64Parameter "db.storage.free_space_reject_orders" "192MB"
       (db_options storage__free_space_reject_orders) false) parser in
  let parser := AddParameter
    (UnsignedInt64Parameter "db.storage.maximum_chunk_size" "1MB"
       (db_options storage__maximum_chunk_size) false) parser in
  let parser := AddParameter
    (UnsignedInt64Parameter "db.storage.timeout_streaming" "60 seconds"
       (db_options storage__streaming_timeout) false) parser in
  let parser := AddParameter
    (UnsignedInt64Parameter
       "db.storage.statistics_polling_interval" "60 seconds"
       (db_options storage__statistics_polling_interval) false) parser in
  let parser := AddParameter
    (UnsignedInt64Parameter "db.compaction.check_interval" "30 seconds"
       (db_options compaction__check_interval) false) parser in
  let parser := AddParameter
    (UnsignedInt64Parameter "db.compaction.num_index_iterations_per_lock" "10"
       (db_options compaction__check_interval) false) parser in
  let parser := AddParameter
    (UnsignedInt64Parameter
       "db.compaction.filesystem.free_space_required" "128MB"
       (db_options compaction__filesystem__free_space_required) false) parser in
  let parser := AddParameter
    (UnsignedInt64Parameter
       "db.compaction.filesystem.survival_mode_threshold" "2GB"
       (db_options compaction__filesystem__survival_mode_threshold) false) parser in
  let parser := AddParameter
    (UnsignedInt64Parameter "db.compaction.filesystem.normal_batch_size" "1GB"
       (db_options compaction__filesystem__normal_batch_size) false) parser in
  let parser := AddParameter
    (UnsignedInt64Parameter
       "db.compaction.filesystem.survival_batch_size" "256MB"
       (db_options compaction__filesystem__survival_batch_size) false) parser in
  parser.

(** [ServerOptions::AddParametersToConfigParser] *)
Definition ServerOptions_AddParametersToConfigParser (parser : Parser)
  : Parser :=
  let parser := AddParameter
    (UnsignedInt64Parameter "server.size_buffer_recv" "65535"
       (server_options size_buffer_recv) false) parser in
  let parser := AddParameter
    (UnsignedInt64Parameter "server.size_buffer_send" "1024"
       (server_options size_buffer_send) false) parser in
  let parser := AddParameter
    (UnsignedInt32Parameter "server.listen_backlog" "150"
       (server_options listen_backlog) false) parser in
  let parser := AddParameter
    (UnsignedInt32Parameter "server.num_threads" "150"
       (server_options num_threads) false) parser in
  let parser := AddParameter
    (UnsignedInt32Parameter "server.interface.memcached_port" "3490"
       (server_options interface__memcached_port) false) parser in
  parser.

End ConfigParser.

Definition Pointer_eqb (a b : Pointer) : bool :=
  match a, b with
  | db_options f, db_options g => DatabaseField_eqb f g
  | server_options f, server_options g => ServerField_eqb f g
  | _, _ => false
  end.

(** The parameters each function hands to [AddParameter], in the order
    of the calls: the result for a parser that only records them. *)
Definition record (p : ConfigParameter) (parser : list ConfigParameter)
  : list ConfigParameter := (parser ++ [p])%list.

Definition database_parameters : list ConfigParameter :=
  DatabaseOptions_AddParametersToConfigParser (list ConfigParameter) record [].

Definition server_parameters : list ConfigParameter :=
  ServerOptions_AddParametersToConfigParser (list ConfigParameter) record [].

(** The parameters written to the data member [ptr]. *)
Definition written_to (ptr : Pointer) (ps : list ConfigParameter)
  : list ConfigParameter :=
  filter (fun p => Pointer_eqb (target p) ptr) ps.

End Options.

(** ** Definitions used by the statements *)

(** Well-formed states: the counters hold [uint64_t] values, the
    coefficient is at least 1 and the history has at most 10 samples. *)
Record wf (s : RateLimiter) : Prop := mk_wf {
  wf_coefficient : 1 <= bytes_per_microsecond_ s < U64.modulus;
  wf_arriving : 0 <= rate_arriving_ s < U64.modulus;
  wf_slept : 0 <= duration_slept_ s < U64.modulus;
  wf_history : (length (rates_ s) <= 10)%nat
}.

(** The sum of the samples as integers, without wrap-around. *)
Definition Zsum (l : list Z) : Z := fold_right Z.add 0 l.

(** The mean [GetWritingRate] computes for a non-empty history. *)
Definition mean_rate (rates : list Z) : Z :=
  sum_rates rates / Z.of_nat (length rates).

(** The mean and the estimate as the specification words them: the sum
    of the samples is the sum of the integers. *)
Definition mean_spec (rates : list Z) : Z :=
  Zsum rates / Z.of_nat (length rates).

Definition GetWritingRate_spec (s : RateLimiter) : Z :=
  match rates_ s with
  | [] => 1048576
  | _ =>
      if (0 <? rate_limit_ s) && (rate_limit_ s <? mean_spec (rates_ s))
      then rate_limit_ s else mean_spec (rates_ s)
  end.

(** The ratio the controller computes at a rollover. *)
Definition arrival_ratio (s : RateLimiter) : Double.t :=
  Double.div (Double.of_uint64 (adjusted_arrival s))
             (Double.of_uint64 (GetWritingRate s)).

(** The table of the specification, row by row: the band of the ratio
    and its factor. *)
Definition overload_rows : list ((Double.t -> bool) * Double.t) :=
  [ (fun ratio => Double.gtb ratio (Double.dec 150 100),
     Double.dec 75 100);
    (fun ratio => Double.gtb ratio (Double.dec 110 100)
                  && Double.leb ratio (Double.dec 150 100),
     Double.dec 95 100);
    (fun ratio => Double.gtb ratio (Double.dec 105 100)
                  && Double.leb ratio (Double.dec 110 100),
     Double.dec 99 100);
    (fun ratio => Double.gtb ratio (Double.dec 100 100)
                  && Double.leb ratio (Double.dec 105 100),
     Double.dec 995 1000) ].

Definition underload_rows : list ((Double.t -> bool) * Double.t) :=
  [ (fun ratio => Double.ltb ratio (Double.dec 50 100),
     Double.dec 125 100);
    (fun ratio => Double.leb (Double.dec 50 100) ratio
                  && Double.ltb ratio (Double.dec 90 100),
     Double.dec 105 100);
    (fun ratio => Double.leb (Double.dec 90 100) ratio
                  && Double.ltb ratio (Double.dec 95 100),
     Double.dec 101 100);
    (fun ratio => Double.leb (Double.dec 95 100) ratio
                  && Double.leb ratio (Double.dec 100 100),
     Double.dec 1005 1000) ].

(** The factor of the row the ratio falls in, [None] where no row
    applies.  [overload] is "arrival > target". *)
Definition band_factor_spec (overload : bool) (ratio : Double.t)
  : option Double.t :=
  option_map snd
    (find (fun row => fst row ratio)
          (if overload then overload_rows else underload_rows)).







(** The sample of the specification: [bytes_written] itself in the same
    millisecond, otherwise [bytes_written / ((end - start) / 1000)], the
    exact quotient [1000 * bytes_written / (end - start)], of which an
    integer variable keeps the integer part. *)
Definition sample_spec (start_ms end_ms bytes_written : Z) : Z :=
  if start_ms =? end_ms then bytes_written
  else 1000 * bytes_written / (end_ms - start_ms).


(** The calls that store a sample in the history. *)
Definition stores_sample (c : call) : bool :=
  match c with
  | CallWriteEnd _ _ | CallStoreWritingRate _ => true
  | CallTick _ _ | CallWriteStart _ => false
  end.

Definition is_Tick (c : call) : bool :=
  match c with
  | CallTick _ _ => true
  | _ => false
  end.

(** Case analysis on every comparison of exponents or mantissas in the
    goal or in a hypothesis. *)
Ltac compare_cases :=
  repeat match goal with
  | H : context [Z.compare ?a ?b] |- _ =>
      destruct (Z.compare_spec a b); cbn in H; try discriminate H
  | H : context [Pos.compare_cont Eq ?a ?b] |- _ =>
      change (Pos.compare_cont Eq a b) with (Pos.compare a b) in H;
      destruct (Pos.compare_spec a b); cbn in H; try discriminate H
  | |- context [Z.compare ?a ?b] =>
      destruct (Z.compare_spec a b); cbn; try reflexivity
  | |- context [Pos.compare_cont Eq ?a ?b] =>
      change (Pos.compare_cont Eq a b) with (Pos.compare a b);
      destruct (Pos.compare_spec a b); cbn; try reflexivity
  end.


(** * Properties *)

(** ** Machine integers *)

Lemma modulus_eq : U64.modulus = 18446744073709551616.
Proof. reflexivity. Qed.

Lemma wrap_range (z : Z) : 0 <= U64.wrap z < U64.modulus.
Proof. unfold U64.wrap. apply Z.mod_pos_bound. reflexivity. Qed.

Lemma wrap_small (z : Z) : 0 <= z < U64.modulus -> U64.wrap z = z.
Proof. intros H. unfold U64.wrap. now apply Z.mod_small. Qed.

Lemma add_range (a b : Z) : 0 <= U64.add a b < U64.modulus.
Proof. apply wrap_range. Qed.

(** ** Conversions *)

Lemma trunc_nonneg (m : positive) (e : Z) : 0 <= Double.trunc m e.
Proof. unfold Double.trunc. apply Z.shiftl_nonneg. lia. Qed.

Lemma to_uint64_range (x : Double.t) (v : Z) :
  Double.to_uint64 x = Some v -> 0 <= v < U64.modulus.
Proof.
  destruct x as [s | s | | [|] m e]; simpl; try discriminate.
  - intros [= <-]. rewrite modulus_eq. lia.
  - destruct (Double.trunc m e =? 0); [|discriminate].
    intros [= <-]. rewrite modulus_eq. lia.
  - destruct (Z.ltb_spec (Double.trunc m e) U64.modulus); [|discriminate].
    intros [= <-]. pose proof (trunc_nonneg m e). lia.
Qed.

Lemma scale_range (c : Z) (k : Double.t) (v : Z) :
  scale c k = Some v -> 0 <= v < U64.modulus.
Proof. apply to_uint64_range. Qed.

Lemma bump_ge_1 (v : Z) : 0 <= v < U64.modulus -> 1 <= bump v < U64.modulus.
Proof.
  intros H. unfold bump. destruct (Z.leb_spec v 5).
  - unfold U64.add. rewrite wrap_small; rewrite ?modulus_eq in *; lia.
  - lia.
Qed.

(** The decimal literals of the source are the binary64 numbers with
    these bit patterns (mantissa with its leading one, exponent). *)
Lemma literal_encodings :
  Double.dec 75 100 = S754_finite false 0x18000000000000 (-53) /\
  Double.dec 95 100 = S754_finite false 0x1e666666666666 (-53) /\
  Double.dec 99 100 = S754_finite false 0x1fae147ae147ae (-53) /\
  Double.dec 995 1000 = S754_finite false 0x1fd70a3d70a3d7 (-53) /\
  Double.dec 125 100 = S754_finite false 0x14000000000000 (-52) /\
  Double.dec 105 100 = S754_finite false 0x10cccccccccccd (-52) /\
  Double.dec 101 100 = S754_finite false 0x1028f5c28f5c29 (-52) /\
  Double.dec 1005 1000 = S754_finite false 0x10147ae147ae14 (-52) /\
  Double.dec 150 100 = S754_finite false 0x18000000000000 (-52) /\
  Double.dec 110 100 = S754_finite false 0x1199999999999a (-52) /\
  Double.dec 5 10 = S754_finite false 0x10000000000000 (-53) /\
  Double.dec 90 100 = S754_finite false 0x1ccccccccccccd (-53).
Proof. vm_compute. repeat split. Qed.

(** ** Binary64 arithmetic

    Facts about the operations of [SpecFloat] at precision 53: the number
    of digits of a mantissa, the right shift that rounding performs, the
    conversion of integers, products and differences. *)

(** A positive number of [d] digits lies in [2^(d-1), 2^d). *)
Lemma digits2_pos_bounds (p : positive) :
  2 ^ (Zpos (digits2_pos p) - 1) <= Zpos p < 2 ^ Zpos (digits2_pos p).
Proof.
  induction p as [p IH | p IH |]; cbn [digits2_pos].
  - rewrite Pos2Z.inj_succ, (Pos2Z.inj_xI p).
    replace (Z.succ (Zpos (digits2_pos p)) - 1) with (Z.succ (Zpos (digits2_pos p) - 1)) by lia.
    rewrite !Z.pow_succ_r by lia.
    generalize dependent (2 ^ (Zpos (digits2_pos p) - 1)).
    generalize (2 ^ Zpos (digits2_pos p)). intros; lia.
  - rewrite Pos2Z.inj_succ, (Pos2Z.inj_xO p).
    replace (Z.succ (Zpos (digits2_pos p)) - 1) with (Z.succ (Zpos (digits2_pos p) - 1)) by lia.
    rewrite !Z.pow_succ_r by lia.
    generalize dependent (2 ^ (Zpos (digits2_pos p) - 1)).
    generalize (2 ^ Zpos (digits2_pos p)). intros; lia.
  - simpl. lia.
Qed.

Lemma digits2_pos_unique (p : positive) (d : Z) :
  2 ^ (d - 1) <= Zpos p < 2 ^ d -> Zpos (digits2_pos p) = d.
Proof.
  intros [L U]. pose proof (digits2_pos_bounds p) as [L' U'].
  assert (0 < d).
  { destruct (Z.lt_ge_cases 0 d); [assumption|].
    destruct (Z.eq_dec d 0) as [->|]; [simpl in U; lia|].
    rewrite Z.pow_neg_r in U by lia. lia. }
  destruct (Z.lt_trichotomy (Zpos (digits2_pos p)) d) as [C|[C|C]]; [|exact C|].
  - assert (2 ^ Zpos (digits2_pos p) <= 2 ^ (d - 1)) by (apply Z.pow_le_mono_r; lia). lia.
  - assert (2 ^ d <= 2 ^ (Zpos (digits2_pos p) - 1)) by (apply Z.pow_le_mono_r; lia). lia.
Qed.

Lemma iter_xO (k m : positive) : Zpos (Pos.iter xO m k) = Zpos m * 2 ^ Zpos k.
Proof.
  revert m. induction k as [|k IH] using Pos.peano_ind; intros m.
  - simpl. lia.
  - rewrite Pos.iter_succ, Pos2Z.inj_xO, IH, Pos2Z.inj_succ, Z.pow_succ_r by lia. lia.
Qed.

Lemma fexp64_eq (x : Z) : fexp Double.prec Double.emax x = Z.max (x - 53) (-1074).
Proof. reflexivity. Qed.

Lemma shr_nonpos (r : shr_record) (e n : Z) : n <= 0 -> shr r e n = (r, e).
Proof. destruct n; [reflexivity | lia | reflexivity]. Qed.

Lemma round_aux_exact (s : bool) (m : positive) (e : Z) :
  fexp Double.prec Double.emax (Zpos (digits2_pos m) + e) <= e -> e <= 971 ->
  binary_round_aux Double.prec Double.emax s (Zpos m) e loc_Exact = S754_finite s m e.
Proof.
  intros Hn He. unfold binary_round_aux, shr_fexp.
  cbn [Zdigits2 shr_record_of_loc].
  rewrite shr_nonpos by lia.
  cbn [shr_m loc_of_shr_record round_nearest_even Zdigits2 shr_record_of_loc].
  rewrite shr_nonpos by lia.
  cbn [shr_m].
  change (Double.emax - Double.prec) with 971.
  destruct (Z.leb_spec e 971); [reflexivity | lia].
Qed.

(** the conversion of an integer below 2^53 is exact *)
Lemma of_Z_small (c : positive) :
  Zpos c < 2 ^ 53 ->
  exists m, Double.of_Z (Zpos c) = S754_finite false m (Zpos (digits2_pos c) - 53)
            /\ Zpos m = Zpos c * 2 ^ (53 - Zpos (digits2_pos c))
            /\ Zpos (digits2_pos m) = 53.
Proof.
  intros Hc. pose proof (digits2_pos_bounds c) as [L U].
  set (d := Zpos (digits2_pos c)) in *.
  assert (Hd : 1 <= d <= 53).
  { split; [unfold d; lia|].
    destruct (Z.le_gt_cases d 53); [assumption|].
    assert (2 ^ 53 <= 2 ^ (d - 1)) by (apply Z.pow_le_mono_r; lia). lia. }
  unfold Double.of_Z, binary_normalize, binary_round.
  rewrite fexp64_eq. fold d. rewrite Z.add_0_r, Z.max_l by lia.
  unfold shl_align. rewrite Z.sub_0_r.
  destruct (d - 53) as [|k|k] eqn:E; [|lia|].
  - exists c. rewrite round_aux_exact.
    + repeat split. * replace (53 - d) with 0 by lia. lia. * fold d; lia.
    + rewrite fexp64_eq. fold d. lia.
    + lia.
  - assert (Hm : Zpos (Pos.iter xO c k) = Zpos c * 2 ^ (53 - d)).
    { rewrite iter_xO. f_equal. f_equal. lia. }
    assert (Hdm : Zpos (digits2_pos (Pos.iter xO c k)) = 53).
    { apply digits2_pos_unique. rewrite Hm. 
      replace (2 ^ (53 - 1)) with (2 ^ (d - 1) * 2 ^ (53 - d))
        by (rewrite <- Z.pow_add_r by lia; f_equal; lia).
      replace (2 ^ 53) with (2 ^ d * 2 ^ (53 - d))
        by (rewrite <- Z.pow_add_r by lia; f_equal; lia).
      assert (0 < 2 ^ (53 - d)) by (apply Z.pow_pos_nonneg; lia).
      split; [apply Z.mul_le_mono_nonneg_r; lia | apply Z.mul_lt_mono_pos_r; lia]. }
    exists (Pos.iter xO c k). rewrite round_aux_exact.
    + repeat split; assumption.
    + rewrite fexp64_eq, Hdm. lia.
    + lia.
Qed.

Lemma shr_1_m (r : shr_record) :
  0 <= shr_m r -> shr_m (shr_1 r) = shr_m r / 2.
Proof.
  destruct r as [m rb sb]. cbn [shr_m]. intros Hm. unfold shr_1.
  destruct m as [|[p|p|]|p]; cbn [shr_m]; try reflexivity; try lia.
  - rewrite (Pos2Z.inj_xI p). apply Z.div_unique with (r := 1); lia.
  - rewrite (Pos2Z.inj_xO p). apply Z.div_unique with (r := 0); lia.
Qed.

Lemma iter_shr_m (p : positive) (r : shr_record) :
  0 <= shr_m r ->
  shr_m (iter_pos shr_1 p r) = shr_m r / 2 ^ Zpos p.
Proof.
  revert r. induction p as [p IH | p IH |]; intros r Hr; cbn [iter_pos].
  - assert (H1 : 0 <= shr_m (shr_1 r)) by (rewrite shr_1_m by lia; apply Z.div_pos; lia).
    assert (Hp : 0 < 2 ^ Zpos p) by (apply Z.pow_pos_nonneg; lia).
    assert (H2 : 0 <= shr_m (iter_pos shr_1 p (shr_1 r)))
      by (rewrite IH by lia; apply Z.div_pos; lia).
    rewrite IH, IH, shr_1_m by lia.
    rewrite !Z.div_div by lia. f_equal.
    rewrite (Pos2Z.inj_xI p), Z.pow_add_r, Z.pow_mul_r by lia.
    change (2 ^ 2) with 4. change (2 ^ 1) with 2.
    replace (4 ^ Zpos p) with (2 ^ Zpos p * 2 ^ Zpos p).
    + lia.
    + change 4 with (2 * 2). rewrite Z.pow_mul_l. reflexivity.
  - assert (Hp : 0 < 2 ^ Zpos p) by (apply Z.pow_pos_nonneg; lia).
    assert (H2 : 0 <= shr_m (iter_pos shr_1 p r))
      by (rewrite IH by lia; apply Z.div_pos; lia).
    rewrite IH, IH by lia.
    rewrite !Z.div_div by lia. f_equal.
    rewrite (Pos2Z.inj_xO p), Z.pow_mul_r by lia.
    change (2 ^ 2) with 4.
    change 4 with (2 * 2). rewrite Z.pow_mul_l. reflexivity.
  - rewrite shr_1_m by lia. reflexivity.
Qed.

Lemma round_nearest_even_bounds (m : Z) (l : location) :
  m <= round_nearest_even m l <= m + 1.
Proof.
  destruct l as [|[| |]]; cbn [round_nearest_even]; try lia.
  destruct (Z.even m); lia.
Qed.

(** quotient of a [D]-digit number by 2^(D-53) has 53 digits *)
Lemma div_pow2_bounds (x D : Z) :
  53 < D -> 2 ^ (D - 1) <= x < 2 ^ D ->
  2 ^ 52 <= x / 2 ^ (D - 53) < 2 ^ 53.
Proof.
  intros HD [L U].
  assert (Hp : 0 < 2 ^ (D - 53)) by (apply Z.pow_pos_nonneg; lia).
  split.
  - apply Z.div_le_lower_bound; [lia|].
    rewrite <- Z.pow_add_r by lia. replace (D - 53 + 52) with (D - 1) by lia. exact L.
  - apply Z.div_lt_upper_bound; [lia|].
    rewrite <- Z.pow_add_r by lia. replace (D - 53 + 53) with D by lia. exact U.
Qed.

Lemma round_aux_shift (s : bool) (mx : positive) (ex : Z) :
  let n := Zpos (digits2_pos mx) - 53 in
  0 < n -> -1074 <= ex + n ->
  exists (m' : positive) (a : Z),
    (a = 0 \/ a = 1) /\
    binary_round_aux Double.prec Double.emax s (Zpos mx) ex loc_Exact =
      (if ex + n + a <=? 971 then S754_finite s m' (ex + n + a)
       else S754_infinity s) /\
    Zpos mx / 2 ^ n <= Zpos m' * 2 ^ a <= Zpos mx / 2 ^ n + 1 /\
    2 ^ 52 <= Zpos m' < 2 ^ 53.
Proof.
  intros n Hn Hex. pose proof (digits2_pos_bounds mx) as HD.
  pose proof (div_pow2_bounds (Zpos mx) (Zpos (digits2_pos mx)) ltac:(lia) HD) as Hq.
  fold n in Hq.
  unfold binary_round_aux, shr_fexp. cbn [Zdigits2 shr_record_of_loc].
  rewrite fexp64_eq.
  replace (Z.max (Zpos (digits2_pos mx) + ex - 53) (-1074) - ex) with n by lia.
  destruct n as [|pn|pn] eqn:En; [lia| |lia].
  cbn [shr].
  set (r1 := iter_pos shr_1 pn _).
  assert (Hr1 : shr_m r1 = Zpos mx / 2 ^ Zpos pn)
    by (unfold r1; rewrite iter_shr_m; cbn [shr_m]; [reflexivity | lia]).
  pose proof (round_nearest_even_bounds (shr_m r1) (loc_of_shr_record r1)) as Hrne.
  set (m2 := round_nearest_even (shr_m r1) (loc_of_shr_record r1)) in *.
  rewrite Hr1 in Hrne.
  destruct m2 as [|p2|p2] eqn:Em2; [lia| |lia].
  cbn [Zdigits2 shr_record_of_loc]. rewrite fexp64_eq.
  change (Double.emax - Double.prec) with 971.
  destruct (Z.eq_dec (Zpos p2) (2 ^ 53)) as [Hp2|Hp2].
  - (* the rounding carried into the next binade *)
    assert (Hd2 : Zpos (digits2_pos p2) = 54)
      by (apply digits2_pos_unique; rewrite Hp2; simpl; lia).
    rewrite Hd2.
    replace (Z.max (54 + (ex + Zpos pn) - 53) (-1074) - (ex + Zpos pn)) with 1 by lia.
    cbn [shr iter_pos]. 
    injection Hp2 as ->. cbn [shr_1 shr_m orb].
    exists 4503599627370496%positive, 1.
    split; [now right|]. split; [reflexivity|].
    split; [|simpl; lia].
    change (Zpos 4503599627370496 * 2 ^ 1) with (2 ^ 53). 
    change (Zpos 9007199254740992) with (2 ^ 53) in Hrne. lia.
  - assert (Hd2 : Zpos (digits2_pos p2) = 53)
      by (apply digits2_pos_unique; lia).
    rewrite Hd2, shr_nonpos by lia. cbn [shr_m].
    exists p2, 0. split; [now left|].
    rewrite Z.add_0_r. split; [reflexivity|].
    rewrite Z.pow_0_r, Z.mul_1_r. lia.
Qed.

(** the conversion of a positive [uint64_t]: a 53-bit mantissa and a
    value within a factor [1 +- 2^-52] of the integer *)
Lemma of_Z_pos (c : positive) :
  Zpos c < 2 ^ 64 ->
  exists m e,
    Double.of_Z (Zpos c) = S754_finite false m e /\
    2 ^ 52 <= Zpos m < 2 ^ 53 /\ -52 <= e <= 12 /\
    Zpos c * (2 ^ 52 - 1) <= Zpos m * 2 ^ (e + 52) <= Zpos c * (2 ^ 52 + 1).
Proof.
  intros Hc. destruct (Z.lt_ge_cases (Zpos c) (2 ^ 53)) as [Hs|Hl].
  - destruct (of_Z_small c Hs) as (m & E & Hm & Hd).
    pose proof (digits2_pos_bounds m) as Hb. rewrite Hd in Hb.
    pose proof (digits2_pos_bounds c) as Hbc.
    set (d := Zpos (digits2_pos c)) in *.
    assert (Hd53 : 1 <= d <= 53).
    { split; [unfold d; lia|].
      destruct (Z.le_gt_cases d 53); [assumption|].
      assert (2 ^ 53 <= 2 ^ (d - 1)) by (apply Z.pow_le_mono_r; lia). lia. }
    exists m, (d - 53). split; [exact E|]. split; [exact Hb|]. split; [lia|].
    rewrite Hm, <- Z.mul_assoc, <- Z.pow_add_r by lia.
    replace (53 - d + (d - 53 + 52)) with 52 by lia. lia.
  - pose proof (digits2_pos_bounds c) as Hbc.
    set (d := Zpos (digits2_pos c)) in *.
    assert (Hd : 53 < d <= 64).
    { split.
      - destruct (Z.lt_ge_cases 53 d); [assumption|].
        assert (2 ^ d <= 2 ^ 53) by (apply Z.pow_le_mono_r; lia). lia.
      - destruct (Z.le_gt_cases d 64); [assumption|].
        assert (2 ^ 64 <= 2 ^ (d - 1)) by (apply Z.pow_le_mono_r; lia). lia. }
    unfold Double.of_Z, binary_normalize, binary_round.
    rewrite fexp64_eq. fold d. rewrite Z.add_0_r, Z.max_l by lia.
    unfold shl_align. rewrite Z.sub_0_r.
    destruct (d - 53) as [|k|k] eqn:Ek; [lia| |lia].
    destruct (round_aux_shift false c 0) as (m & a & Ha & E & Hq & Hm);
      fold d; try lia.
    fold d in E, Hq. rewrite Ek in E, Hq. rewrite Z.add_0_l in E.
    destruct (Z.leb_spec (Zpos k + a) 971) as [_|]; [|lia].
    exists m, (Zpos k + a). split; [exact E|]. split; [exact Hm|].
    split; [lia|].
    assert (Hk : 0 < 2 ^ Zpos k) by (apply Z.pow_pos_nonneg; lia).
    assert (Hck : 2 ^ Zpos k * 2 ^ 52 <= Zpos c).
    { rewrite <- Z.pow_add_r by lia. replace (Zpos k + 52) with (d - 1) by lia.
      apply Hbc. }
    pose proof (Z.mul_div_le (Zpos c) (2 ^ Zpos k) Hk) as Hdl.
    pose proof (Z.mul_succ_div_gt (Zpos c) (2 ^ Zpos k) Hk) as Hdu.
    replace (Zpos k + a + 52) with (a + Zpos k + 52) by lia.
    rewrite !Z.pow_add_r by lia.
    set (q := Zpos c / 2 ^ Zpos k) in *.
    set (P := 2 ^ Zpos k) in *. set (A := Zpos m * 2 ^ a) in *.
    replace (Zpos m * (2 ^ a * P * 2 ^ 52)) with (A * P * 2 ^ 52) by (unfold A; ring).
    change (2 ^ 52) with 4503599627370496 in *.
    nia.
Qed.

Lemma mul_finite (m1 mk : positive) (e1 ek : Z) :
  Double.mul (S754_finite false m1 e1) (S754_finite false mk ek) =
  binary_round_aux Double.prec Double.emax false (Zpos (m1 * mk)) (e1 + ek) loc_Exact.
Proof. reflexivity. Qed.

(** the product of two normal numbers: again a 53-bit mantissa, and a
    value within a factor [1 +- 2^-52] of the exact product *)
Lemma mul_bounds (m1 mk : positive) (e1 ek : Z) :
  2 ^ 52 <= Zpos m1 < 2 ^ 53 -> 2 ^ 52 <= Zpos mk < 2 ^ 53 ->
  -1126 <= e1 + ek <= 917 ->
  exists m2 j,
    Double.mul (S754_finite false m1 e1) (S754_finite false mk ek) =
      S754_finite false m2 (e1 + ek + j) /\
    52 <= j <= 54 /\
    Zpos m1 * Zpos mk * (2 ^ 52 - 1) <= Zpos m2 * 2 ^ j * 2 ^ 52
      <= Zpos m1 * Zpos mk * (2 ^ 52 + 1).
Proof.
  intros H1 Hk He. rewrite mul_finite.
  pose proof (digits2_pos_bounds (m1 * mk)) as HD.
  set (D := Zpos (digits2_pos (m1 * mk))) in *.
  rewrite Pos2Z.inj_mul in HD.
  assert (HX : 2 ^ 104 <= Zpos m1 * Zpos mk < 2 ^ 106).
  { change (2 ^ 104) with (2 ^ 52 * 2 ^ 52). change (2 ^ 106) with (2 ^ 53 * 2 ^ 53).
    split; [apply Z.mul_le_mono_nonneg; lia | apply Z.mul_lt_mono_nonneg; lia]. }
  assert (HDr : 105 <= D <= 106).
  { split.
    - destruct (Z.le_gt_cases 105 D); [assumption|].
      assert (2 ^ D <= 2 ^ 104) by (apply Z.pow_le_mono_r; lia). lia.
    - destruct (Z.le_gt_cases D 106); [assumption|].
      assert (2 ^ 106 <= 2 ^ (D - 1)) by (apply Z.pow_le_mono_r; lia). lia. }
  destruct (round_aux_shift false (m1 * mk) (e1 + ek)) as (m2 & a & Ha & E & Hq & Hm);
    fold D; try lia.
  fold D in E, Hq. rewrite Pos2Z.inj_mul in Hq.
  destruct (Z.leb_spec (e1 + ek + (D - 53) + a) 971) as [_|]; [|lia].
  exists m2, (D - 53 + a). split; [rewrite E; f_equal; lia|]. split; [lia|].
  set (n := D - 53) in *.
  assert (Hn : 0 < 2 ^ n) by (apply Z.pow_pos_nonneg; lia).
  assert (HXn : 2 ^ n * 2 ^ 52 <= Zpos m1 * Zpos mk).
  { rewrite <- Z.pow_add_r by lia. replace (n + 52) with (D - 1) by lia. apply HD. }
  set (X := Zpos m1 * Zpos mk) in *.
  pose proof (Z.mul_div_le X (2 ^ n) Hn) as Hdl.
  pose proof (Z.mul_succ_div_gt X (2 ^ n) Hn) as Hdu.
  replace (n + a) with (a + n) by lia.
  rewrite Z.pow_add_r by lia.
  set (q := X / 2 ^ n) in *. set (P := 2 ^ n) in *.
  set (A := Zpos m2 * 2 ^ a) in *.
  replace (Zpos m2 * (2 ^ a * P) * 2 ^ 52) with (A * P * 2 ^ 52) by (unfold A; ring).
  change (2 ^ 52) with 4503599627370496 in *.
  nia.
Qed.

Lemma trunc_lt (m : positive) (e L c : Z) :
  0 <= L -> 0 <= e + L ->
  Zpos m * 2 ^ (e + L) < c * 2 ^ L -> Double.trunc m e < c.
Proof.
  intros HL HeL H. unfold Double.trunc.
  assert (HP : 0 < 2 ^ L) by (apply Z.pow_pos_nonneg; lia).
  destruct (Z.le_gt_cases 0 e) as [He|He].
  - rewrite Z.shiftl_mul_pow2 by lia.
    rewrite Z.pow_add_r, Z.mul_assoc in H by lia.
    eapply Z.mul_lt_mono_pos_r; eauto.
  - rewrite Z.shiftl_div_pow2 by lia.
    assert (HP' : 0 < 2 ^ (- e)) by (apply Z.pow_pos_nonneg; lia).
    apply Z.div_lt_upper_bound; [lia|].
    replace L with ((e + L) + - e) in H at 2 by lia.
    rewrite (Z.pow_add_r 2 (e + L) (- e)) in H by lia.
    assert (HP'' : 0 < 2 ^ (e + L)) by (apply Z.pow_pos_nonneg; lia).
    nia.
Qed.

Lemma trunc_ge (m : positive) (e L c : Z) :
  0 <= L -> 0 <= e + L ->
  c * 2 ^ L <= Zpos m * 2 ^ (e + L) -> c <= Double.trunc m e.
Proof.
  intros HL HeL H. unfold Double.trunc.
  assert (HP : 0 < 2 ^ L) by (apply Z.pow_pos_nonneg; lia).
  destruct (Z.le_gt_cases 0 e) as [He|He].
  - rewrite Z.shiftl_mul_pow2 by lia.
    rewrite Z.pow_add_r, Z.mul_assoc in H by lia.
    eapply Z.mul_le_mono_pos_r; eauto.
  - rewrite Z.shiftl_div_pow2 by lia.
    assert (HP' : 0 < 2 ^ (- e)) by (apply Z.pow_pos_nonneg; lia).
    apply Z.div_le_lower_bound; [lia|].
    replace L with ((e + L) + - e) in H at 1 by lia.
    rewrite (Z.pow_add_r 2 (e + L) (- e)) in H by lia.
    assert (HP'' : 0 < 2 ^ (e + L)) by (apply Z.pow_pos_nonneg; lia).
    apply (Z.mul_le_mono_pos_r _ _ (2 ^ (e + L))); [exact HP''|].
    replace (2 ^ (- e) * c * 2 ^ (e + L)) with (c * (2 ^ (e + L) * 2 ^ (- e))) by ring.
    exact H.
Qed.

(** [c *= k] for a factor [k] with [k (1 + 2^-52)^2 < 1]: the result is
    defined and strictly below [c] *)
Lemma scale_below (c : Z) (mk : positive) (ek : Z) :
  0 < c < 2 ^ 64 ->
  2 ^ 52 <= Zpos mk < 2 ^ 53 -> -60 <= ek <= -52 ->
  Zpos mk * (2 ^ 52 + 1) * (2 ^ 52 + 1) < 2 ^ (104 - ek) ->
  exists v, scale c (S754_finite false mk ek) = Some v /\ 0 <= v < c.
Proof.
  intros Hc Hmk Hek Hk. destruct c as [|pc|pc]; try lia.
  destruct (of_Z_pos pc) as (m1 & e1 & E1 & Hm1 & He1 & B1); [lia|].
  destruct (mul_bounds m1 mk e1 ek Hm1 Hmk) as (m2 & j & E2 & Hj & B2); [lia|].
  unfold scale, Double.of_uint64. rewrite E1, E2. cbn [Double.to_uint64].
  assert (T : Double.trunc m2 (e1 + ek + j) < Zpos pc).
  { apply (trunc_lt _ _ (- (e1 + ek))); try lia.
    replace (e1 + ek + j + - (e1 + ek)) with j by lia.
    assert (HP : 0 < 2 ^ (e1 + 52)) by (apply Z.pow_pos_nonneg; lia).
    assert (HPe : 2 ^ (- (e1 + ek)) * 2 ^ (e1 + 52) = 2 ^ (52 - ek))
      by (rewrite <- Z.pow_add_r by lia; f_equal; lia).
    assert (HPk : 2 ^ (104 - ek) = 2 ^ 52 * 2 ^ (52 - ek))
      by (rewrite <- Z.pow_add_r by lia; f_equal; lia).
    rewrite HPk in Hk.
    set (E := 2 ^ (e1 + 52)) in *. set (Lp := 2 ^ (- (e1 + ek))) in *.
    set (K := 2 ^ (52 - ek)) in *. set (J := Zpos m2 * 2 ^ j) in *.
    change (2 ^ 52) with 4503599627370496 in *.
    change (4503599627370496 + 1) with 4503599627370497 in *.
    (* J * 2^52 <= m1 mk (2^52+1);  m1 E <= c (2^52+1) *)
    assert (S1 : J * 4503599627370496 * E <= Zpos mk * 4503599627370497 * (Zpos m1 * E)) by nia.
    assert (S2 : Zpos mk * 4503599627370497 * (Zpos m1 * E)
                 <= Zpos mk * 4503599627370497 * (Zpos pc * 4503599627370497)).
    { apply Z.mul_le_mono_nonneg_l; lia. }
    assert (S3 : Zpos mk * 4503599627370497 * (Zpos pc * 4503599627370497)
                 < Zpos pc * (4503599627370496 * K)) by nia.
    assert (S4 : J * 4503599627370496 * E < Zpos pc * Lp * 4503599627370496 * E).
    { replace (Zpos pc * Lp * 4503599627370496 * E)
        with (Zpos pc * (4503599627370496 * (Lp * E))) by ring.
      rewrite HPe. lia. }
    assert (0 < 4503599627370496 * E) by lia.
    nia. }
  destruct (Z.ltb_spec (Double.trunc m2 (e1 + ek + j)) U64.modulus) as [_|G].
  - eexists. split; [reflexivity|]. split; [apply trunc_nonneg | exact T].
  - rewrite modulus_eq in G. change (2 ^ 64) with 18446744073709551616 in *. lia.
Qed.

(** the integer part of [m * 2^e] for a negative exponent, between bounds *)
Lemma trunc_between (m : positive) (e lo hi : Z) :
  e < 0 ->
  lo * 2 ^ (- e) <= Zpos m < (hi + 1) * 2 ^ (- e) ->
  lo <= Double.trunc m e <= hi.
Proof.
  intros He [L U]. unfold Double.trunc.
  rewrite Z.shiftl_div_pow2 by lia.
  assert (HP : 0 < 2 ^ (- e)) by (apply Z.pow_pos_nonneg; lia).
  split.
  - apply Z.div_le_lower_bound; lia.
  - assert (Zpos m / 2 ^ (- e) < hi + 1); [|lia].
    apply Z.div_lt_upper_bound; lia.
Qed.

(** the two integer inequalities behind [scale_near] *)
Lemma near_upper (c n d mk E k : Z) :
  0 < c < 1099511627776 -> 0 < n < 2048 -> 0 < d <= 1000 ->
  4503599627370496 <= E ->
  2 * mk * d <= 2 * n * E + d ->
  c * n < (k + 1) * d ->
  c * mk * 4503599627370497 < (k + 1) * E * 4503599627370496.
Proof.
  intros Hc Hn Hd HE Hk Hkd.
  assert (HA : 2 * (d * (c * mk)) <= 2 * (c * n * E) + c * d).
  { replace (2 * (d * (c * mk))) with (c * (2 * mk * d)) by ring.
    replace (2 * (c * n * E) + c * d) with (c * (2 * n * E + d)) by ring.
    apply Z.mul_le_mono_nonneg_l; lia. }
  assert (HB : c * n * E + E <= d * ((k + 1) * E)).
  { replace (c * n * E + E) with ((c * n + 1) * E) by ring.
    replace (d * ((k + 1) * E)) with ((k + 1) * d * E) by ring.
    apply Z.mul_le_mono_nonneg_r; lia. }
  assert (Hx : c * n <= 1099511627775 * 2047)
    by (apply Z.mul_le_mono_nonneg; lia).
  assert (HC : c * n * E <= 1099511627775 * 2047 * E)
    by (apply Z.mul_le_mono_nonneg_r; lia).
  assert (HD : c * d <= 1099511627775 * 1000)
    by (apply Z.mul_le_mono_nonneg; lia).
  apply (Z.mul_lt_mono_pos_l d); [lia|].
  replace (d * (c * mk * 4503599627370497))
    with (d * (c * mk) * 4503599627370497) by ring.
  replace (d * ((k + 1) * E * 4503599627370496))
    with (d * ((k + 1) * E) * 4503599627370496) by ring.
  generalize dependent (d * (c * mk)). generalize dependent (d * ((k + 1) * E)).
  generalize dependent (c * n * E). generalize dependent (c * d).
  intros. lia.
Qed.

Lemma near_lower (c n d mk E k : Z) :
  0 < c < 1099511627776 -> 0 < n < 2048 -> 0 < d <= 1000 ->
  4503599627370496 <= E ->
  2 * n * E - d <= 2 * mk * d ->
  k * d <= c * n -> 0 <= k ->
  (k - 1) * E * 4503599627370496 <= c * mk * 4503599627370495.
Proof.
  intros Hc Hn Hd HE Hk Hkd Hk0.
  assert (HA : 2 * (c * n * E) - c * d <= 2 * (d * (c * mk))).
  { replace (2 * (d * (c * mk))) with (c * (2 * mk * d)) by ring.
    replace (2 * (c * n * E) - c * d) with (c * (2 * n * E - d)) by ring.
    apply Z.mul_le_mono_nonneg_l; lia. }
  assert (HB : d * (k * E) <= c * n * E).
  { replace (d * (k * E)) with (k * d * E) by ring.
    apply Z.mul_le_mono_nonneg_r; lia. }
  assert (Hx : c * n <= 1099511627775 * 2047)
    by (apply Z.mul_le_mono_nonneg; lia).
  assert (HC : c * n * E <= 1099511627775 * 2047 * E)
    by (apply Z.mul_le_mono_nonneg_r; lia).
  assert (HD : c * d <= 1099511627775 * 1000)
    by (apply Z.mul_le_mono_nonneg; lia).
  assert (HdE : E <= d * E).
  { replace E with (1 * E) at 1 by ring.
    apply Z.mul_le_mono_nonneg_r; lia. }
  apply (Z.mul_le_mono_pos_l _ _ d); [lia|].
  replace (d * ((k - 1) * E * 4503599627370496))
    with ((d * (k * E) - d * E) * 4503599627370496) by ring.
  replace (d * (c * mk * 4503599627370495))
    with (d * (c * mk) * 4503599627370495) by ring.
  generalize dependent (d * (c * mk)). generalize dependent (d * (k * E)).
  generalize dependent (c * n * E). generalize dependent (c * d).
  generalize dependent (d * E).
  intros. lia.
Qed.

(** [c *= n/d] for a coefficient below 2^40 and a factor [mk * 2^ek]
    within half a unit in the last place of [n/d]: the integer part of
    the exact product, or one less *)
Lemma scale_near (c n d : Z) (mk : positive) (ek : Z) :
  0 < c < 2 ^ 40 -> 0 < n < 2048 -> 0 < d <= 1000 ->
  2 ^ 52 <= Zpos mk < 2 ^ 53 -> -53 <= ek <= -52 ->
  2 * n * 2 ^ (- ek) - d <= 2 * Zpos mk * d <= 2 * n * 2 ^ (- ek) + d ->
  exists v, scale c (S754_finite false mk ek) = Some v /\
            c * n / d - 1 <= v <= c * n / d.
Proof.
  intros Hc Hn Hd Hmk Hek Hk. destruct c as [|pc|pc]; try lia.
  change (2 ^ 40) with 1099511627776 in Hc.
  assert (Hc53 : Zpos pc < 2 ^ 53)
    by (change (2 ^ 53) with 9007199254740992; lia).
  destruct (of_Z_small pc Hc53) as (m1 & E1 & Hm1 & Hd1).
  pose proof (digits2_pos_bounds m1) as HA. rewrite Hd1 in HA.
  change (2 ^ (53 - 1)) with (2 ^ 52) in HA.
  pose proof (digits2_pos_bounds pc) as Hbc.
  set (dc := Zpos (digits2_pos pc)) in *.
  assert (Hdc : 1 <= dc <= 40).
  { split; [unfold dc; lia|].
    destruct (Z.le_gt_cases dc 40); [assumption|].
    assert (2 ^ 40 <= 2 ^ (dc - 1)) by (apply Z.pow_le_mono_r; lia).
    change (2 ^ 40) with 1099511627776 in *. lia. }
  destruct (mul_bounds m1 mk (dc - 53) ek HA Hmk) as (m2 & j & E2 & Hj & B2);
    [lia|].
  unfold scale, Double.of_uint64. rewrite E1, E2. cbn [Double.to_uint64].
  clear E1 E2 Hbc Hd1 Hc53.
  set (k := Zpos pc * n / d).
  assert (Hkd : k * d <= Zpos pc * n < (k + 1) * d).
  { unfold k. pose proof (Z.mul_div_le (Zpos pc * n) d ltac:(lia)).
    pose proof (Z.mul_succ_div_gt (Zpos pc * n) d ltac:(lia)). lia. }
  assert (Hk0 : 0 <= k) by (unfold k; apply Z.div_pos; lia).
  assert (HE : 2 ^ 52 <= 2 ^ (- ek)) by (apply Z.pow_le_mono_r; lia).
  assert (Hneg : dc - 53 + ek + j < 0) by lia.
  assert (Hsplit : 2 ^ (- (dc - 53 + ek + j)) * 2 ^ j
                   = 2 ^ (53 - dc) * 2 ^ (- ek)).
  { rewrite <- !Z.pow_add_r by lia. f_equal. lia. }
  assert (HP : 0 < 2 ^ (53 - dc)) by (apply Z.pow_pos_nonneg; lia).
  assert (HS : 0 < 2 ^ (- (dc - 53 + ek + j))) by (apply Z.pow_pos_nonneg; lia).
  assert (HJ : 0 < 2 ^ j) by (apply Z.pow_pos_nonneg; lia).
  change (2 ^ 52) with 4503599627370496 in *.
  change (4503599627370496 + 1) with 4503599627370497 in *.
  change (4503599627370496 - 1) with 4503599627370495 in *.
  pose proof (near_upper (Zpos pc) n d (Zpos mk) (2 ^ (- ek)) k
                Hc Hn Hd HE (proj2 Hk) (proj2 Hkd)) as Hup.
  pose proof (near_lower (Zpos pc) n d (Zpos mk) (2 ^ (- ek)) k
                Hc Hn Hd HE (proj1 Hk) (proj1 Hkd) Hk0) as Hlo.
  rewrite Hm1 in B2.
  set (P := 2 ^ (53 - dc)) in *. set (E := 2 ^ (- ek)) in *.
  set (S := 2 ^ (- (dc - 53 + ek + j))) in *. set (J := 2 ^ j) in *.
  assert (T : k - 1 <= Double.trunc m2 (dc - 53 + ek + j) <= k).
  { apply trunc_between; [exact Hneg|]. fold S.
    destruct B2 as [BL BU]. split.
    - apply (Z.mul_le_mono_pos_r _ _ (J * 4503599627370496)); [lia|].
      replace ((k - 1) * S * (J * 4503599627370496))
        with (P * ((k - 1) * E * 4503599627370496))
        by (replace ((k - 1) * S * (J * 4503599627370496))
              with ((k - 1) * (S * J) * 4503599627370496) by ring;
            rewrite Hsplit; ring).
      replace (Zpos m2 * (J * 4503599627370496))
        with (Zpos m2 * J * 4503599627370496) by ring.
      etransitivity; [|exact BL].
      replace (Zpos pc * P * Zpos mk * 4503599627370495)
        with (P * (Zpos pc * Zpos mk * 4503599627370495)) by ring.
      apply Z.mul_le_mono_nonneg_l; lia.
    - apply (Z.mul_lt_mono_pos_r (J * 4503599627370496)); [lia|].
      replace ((k + 1) * S * (J * 4503599627370496))
        with (P * ((k + 1) * E * 4503599627370496))
        by (replace ((k + 1) * S * (J * 4503599627370496))
              with ((k + 1) * (S * J) * 4503599627370496) by ring;
            rewrite Hsplit; ring).
      replace (Zpos m2 * (J * 4503599627370496))
        with (Zpos m2 * J * 4503599627370496) by ring.
      eapply Z.le_lt_trans; [exact BU|].
      replace (Zpos pc * P * Zpos mk * 4503599627370497)
        with (P * (Zpos pc * Zpos mk * 4503599627370497)) by ring.
      apply Z.mul_lt_mono_pos_l; lia. }
  destruct (Z.ltb_spec (Double.trunc m2 (dc - 53 + ek + j)) U64.modulus) as [_|G].
  - eexists. split; [reflexivity | exact T].
  - exfalso. rewrite modulus_eq in G.
    assert (k <= Zpos pc * n) by (unfold k; apply Z.div_le_upper_bound; nia).
    assert (Zpos pc * n <= 1099511627775 * 2047)
      by (apply Z.mul_le_mono_nonneg; lia).
    lia.
Qed.

Lemma shl_align_fst (m : positive) (ex ex' : Z) :
  ex' <= ex -> Zpos (fst (shl_align m ex ex')) = Zpos m * 2 ^ (ex - ex').
Proof.
  intros H. unfold shl_align.
  destruct (ex' - ex) as [|k|k] eqn:E; cbn [fst].
  - replace (ex - ex') with 0 by lia. lia.
  - lia.
  - rewrite iter_xO. f_equal. f_equal. lia.
Qed.

Lemma digits2_pos_mono (p q : positive) :
  (p <= q)%positive -> Zpos (digits2_pos p) <= Zpos (digits2_pos q).
Proof.
  intros H. pose proof (digits2_pos_bounds p) as [Lp Up].
  pose proof (digits2_pos_bounds q) as [Lq Uq].
  destruct (Z.le_gt_cases (Zpos (digits2_pos p)) (Zpos (digits2_pos q))) as [|G];
    [assumption|].
  assert (2 ^ Zpos (digits2_pos q) <= 2 ^ (Zpos (digits2_pos p) - 1))
    by (apply Z.pow_le_mono_r; lia).
  lia.
Qed.

(** shifting out zeros is exact *)
Lemma shr_1_even (x : Z) :
  0 <= x ->
  shr_1 (Build_shr_record (x * 2) false false) = Build_shr_record x false false.
Proof.
  intros Hx. destruct x as [|q|q]; [reflexivity| |lia].
  rewrite Z.mul_comm. reflexivity.
Qed.

Lemma iter_shr_exact (p : positive) (x : Z) :
  0 <= x ->
  iter_pos shr_1 p (Build_shr_record (x * 2 ^ Zpos p) false false)
  = Build_shr_record x false false.
Proof.
  revert x. induction p as [p IH | p IH |]; intros x Hx; cbn [iter_pos].
  - assert (Hp : 0 < 2 ^ Zpos p) by (apply Z.pow_pos_nonneg; lia).
    replace (x * 2 ^ Zpos p~1) with (x * 2 ^ Zpos p * 2 ^ Zpos p * 2).
    + rewrite shr_1_even by nia. rewrite IH by nia. apply IH. exact Hx.
    + rewrite (Pos2Z.inj_xI p).
      replace (2 * Zpos p + 1) with (Zpos p + Zpos p + 1) by lia.
      rewrite !Z.pow_add_r by lia. change (2 ^ 1) with 2. ring.
  - assert (Hp : 0 < 2 ^ Zpos p) by (apply Z.pow_pos_nonneg; lia).
    replace (x * 2 ^ Zpos p~0) with (x * 2 ^ Zpos p * 2 ^ Zpos p).
    + rewrite IH by nia. apply IH. exact Hx.
    + rewrite (Pos2Z.inj_xO p).
      replace (2 * Zpos p) with (Zpos p + Zpos p) by lia.
      rewrite !Z.pow_add_r by lia. ring.
  - change (2 ^ 1) with 2. now apply shr_1_even.
Qed.

(** an integer below 2^53 scaled by a power of two, at the opposite
    exponent, normalises to the conversion of the integer *)
Lemma normalize_scaled (x : positive) (k : Z) :
  Zpos x < 2 ^ 53 -> 0 <= k <= 1000 ->
  binary_normalize Double.prec Double.emax (Zpos x * 2 ^ k) (- k) false
  = Double.of_Z (Zpos x).
Proof.
  intros Hx Hk.
  destruct (of_Z_small x Hx) as (m & E & Hm & Hdm). rewrite E.
  pose proof (digits2_pos_bounds x) as Hb.
  set (d := Zpos (digits2_pos x)) in *.
  assert (Hd : 1 <= d <= 53).
  { split; [unfold d; lia|].
    destruct (Z.le_gt_cases d 53); [assumption|].
    assert (2 ^ 53 <= 2 ^ (d - 1)) by (apply Z.pow_le_mono_r; lia). lia. }
  assert (Hpk : 0 < 2 ^ k) by (apply Z.pow_pos_nonneg; lia).
  destruct (Zpos x * 2 ^ k) as [|y|y] eqn:Ey; try lia.
  assert (Hdy : Zpos (digits2_pos y) = d + k).
  { apply digits2_pos_unique. rewrite <- Ey.
    replace (d + k - 1) with (d - 1 + k) by lia.
    rewrite !Z.pow_add_r by lia.
    split; [apply Z.mul_le_mono_nonneg_r; lia | apply Z.mul_lt_mono_pos_r; lia]. }
  unfold binary_normalize, binary_round. rewrite fexp64_eq, Hdy.
  replace (Z.max (d + k + - k - 53) (-1074)) with (d - 53) by lia.
  unfold shl_align.
  destruct (d - 53 - - k) as [|j|j] eqn:Ej.
  - (* already 53 digits *)
    rewrite round_aux_exact; [|rewrite fexp64_eq, Hdy; lia | lia].
    f_equal; [|lia]. apply Pos2Z.inj. rewrite <- Ey, Hm. f_equal. f_equal. lia.
  - (* more than 53 digits: the low ones are zero *)
    unfold binary_round_aux, shr_fexp. cbn [Zdigits2 shr_record_of_loc].
    rewrite fexp64_eq, Hdy.
    replace (Z.max (d + k + - k - 53) (-1074) - - k) with (Zpos j) by lia.
    cbn [shr].
    replace (Zpos y) with (Zpos m * 2 ^ Zpos j).
    2:{ rewrite <- Ey, Hm, <- Z.mul_assoc, <- Z.pow_add_r by lia.
        f_equal. f_equal. lia. }
    rewrite iter_shr_exact by lia.
    cbn [shr_m loc_of_shr_record round_nearest_even Zdigits2 shr_record_of_loc].
    rewrite fexp64_eq, Hdm.
    rewrite shr_nonpos by lia. cbn [shr_m].
    change (Double.emax - Double.prec) with 971.
    destruct (Z.leb_spec (- k + Zpos j) 971); [|lia].
    f_equal. lia.
  - (* fewer than 53 digits: shift left *)
    rewrite round_aux_exact.
    + f_equal. apply Pos2Z.inj. rewrite iter_xO, <- Ey, Hm.
      rewrite <- Z.mul_assoc, <- Z.pow_add_r by lia. f_equal. f_equal. lia.
    + rewrite fexp64_eq.
      replace (Zpos (digits2_pos (Pos.iter xO y j))) with 53; [lia|].
      symmetry. apply digits2_pos_unique.
      rewrite iter_xO, <- Ey, <- Z.mul_assoc, <- Z.pow_add_r by lia.
      replace (k + Zpos j) with (53 - d) by lia.
      replace (2 ^ (53 - 1)) with (2 ^ (d - 1) * 2 ^ (53 - d))
        by (rewrite <- Z.pow_add_r by lia; f_equal; lia).
      replace (2 ^ 53) with (2 ^ d * 2 ^ (53 - d))
        by (rewrite <- Z.pow_add_r by lia; f_equal; lia).
      assert (0 < 2 ^ (53 - d)) by (apply Z.pow_pos_nonneg; lia).
      split; [apply Z.mul_le_mono_nonneg_r; lia | apply Z.mul_lt_mono_pos_r; lia].
    + lia.
Qed.

(** the difference of two clock readings below 2^53 is computed exactly *)
Lemma sub_exact (a b : Z) :
  0 <= a -> a < b -> b < 2 ^ 53 ->
  Double.sub (Double.of_uint64 b) (Double.of_uint64 a) = Double.of_Z (b - a).
Proof.
  intros H0 Hab Hb. unfold Double.of_uint64.
  destruct b as [|pb|pb]; try lia.
  destruct a as [|pa|pa]; [|clear H0|lia].
  { destruct (of_Z_small pb Hb) as (m & E & _). rewrite E, Z.sub_0_r, E.
    reflexivity. }
  destruct (of_Z_small pa ltac:(lia)) as (m1 & E1 & Hm1 & _).
  destruct (of_Z_small pb ltac:(lia)) as (m2 & E2 & Hm2 & _).
  assert (Hd : Zpos (digits2_pos pa) <= Zpos (digits2_pos pb))
    by (apply digits2_pos_mono; lia).
  pose proof (digits2_pos_bounds pa) as Hba.
  pose proof (digits2_pos_bounds pb) as Hbb.
  set (d1 := Zpos (digits2_pos pa)) in *. set (d2 := Zpos (digits2_pos pb)) in *.
  assert (Hd1 : 1 <= d1) by (unfold d1; lia).
  assert (Hd2 : d2 <= 53).
  { destruct (Z.le_gt_cases d2 53); [assumption|].
    assert (2 ^ 53 <= 2 ^ (d2 - 1)) by (apply Z.pow_le_mono_r; lia). lia. }
  rewrite E1, E2. unfold Double.sub, SFsub. cbn [cond_Zopp].
  rewrite Z.min_r by lia.
  rewrite !shl_align_fst by lia.
  rewrite Hm1, Hm2, Z.sub_diag, Z.pow_0_r, Z.mul_1_r.
  rewrite <- Z.mul_assoc, <- Z.pow_add_r by lia.
  replace (53 - d2 + (d2 - 53 - (d1 - 53))) with (53 - d1) by lia.
  rewrite <- Z.mul_sub_distr_r.
  destruct (Zpos pb - Zpos pa) as [|x|x] eqn:Ex; try lia.
  replace (d1 - 53) with (- (53 - d1)) by lia.
  apply normalize_scaled; lia.
Qed.

Lemma le_lt_chain (p q r : spec_float) :
  SFleb p q = true -> SFltb q r = true -> SFltb r p = false.
Proof.
  unfold SFleb, SFltb.
  destruct p as [sp|sp| |sp mp ep], q as [sq|sq| |sq mq eq], r as [sr|sr| |sr mr er];
    try destruct sp; try destruct sq; try destruct sr; cbn;
    try discriminate; try reflexivity; intros H1 H2;
    compare_cases; try lia; try discriminate.
Qed.

Lemma lt_le_chain (p q r : spec_float) :
  SFltb p q = true -> SFleb q r = true -> SFltb r p = false.
Proof.
  unfold SFleb, SFltb.
  destruct p as [sp|sp| |sp mp ep], q as [sq|sq| |sq mq eq], r as [sr|sr| |sr mr er];
    try destruct sp; try destruct sq; try destruct sr; cbn;
    try discriminate; try reflexivity; intros H1 H2;
    compare_cases; try lia; try discriminate.
Qed.

Lemma le_not_gt (p q : spec_float) :
  SFleb p q = true -> SFltb q p = false.
Proof.
  unfold SFleb, SFltb.
  destruct p as [sp|sp| |sp mp ep], q as [sq|sq| |sq mq eq];
    try destruct sp; try destruct sq; cbn;
    try discriminate; try reflexivity; intros H1;
    compare_cases; try lia; try discriminate.
Qed.

(** The table read from its first row down. *)
Lemma band_factor_spec_unfold (overload : bool) (ratio : Double.t) :
  band_factor_spec overload ratio =
  if overload then
    if Double.gtb ratio (Double.dec 150 100) then Some (Double.dec 75 100)
    else if Double.gtb ratio (Double.dec 110 100)
            && Double.leb ratio (Double.dec 150 100)
    then Some (Double.dec 95 100)
    else if Double.gtb ratio (Double.dec 105 100)
            && Double.leb ratio (Double.dec 110 100)
    then Some (Double.dec 99 100)
    else if Double.gtb ratio (Double.dec 100 100)
            && Double.leb ratio (Double.dec 105 100)
    then Some (Double.dec 995 1000)
    else None
  else
    if Double.ltb ratio (Double.dec 50 100) then Some (Double.dec 125 100)
    else if Double.leb (Double.dec 50 100) ratio
            && Double.ltb ratio (Double.dec 90 100)
    then Some (Double.dec 105 100)
    else if Double.leb (Double.dec 90 100) ratio
            && Double.ltb ratio (Double.dec 95 100)
    then Some (Double.dec 101 100)
    else if Double.leb (Double.dec 95 100) ratio
            && Double.leb ratio (Double.dec 100 100)
    then Some (Double.dec 1005 1000)
    else None.
Proof.
  unfold band_factor_spec, overload_rows, underload_rows.
  destruct overload; cbn [find fst snd].
  - destruct (Double.gtb ratio (Double.dec 150 100)); [reflexivity|].
    destruct (_ && _); [reflexivity|].
    destruct (_ && _); [reflexivity|].
    destruct (_ && _); reflexivity.
  - destruct (Double.ltb ratio (Double.dec 50 100)); [reflexivity|].
    destruct (_ && _); [reflexivity|].
    destruct (_ && _); [reflexivity|].
    destruct (_ && _); reflexivity.
Qed.

Lemma thresholds_increase :
  SFltb (Double.dec 50 100) (Double.dec 90 100) = true /\
  SFltb (Double.dec 90 100) (Double.dec 95 100) = true /\
  SFltb (Double.dec 105 100) (Double.dec 110 100) = true /\
  SFltb (Double.dec 110 100) (Double.dec 150 100) = true /\
  SFltb (Double.dec 105 100) (Double.dec 150 100) = true /\
  SFltb (Double.dec 50 100) (Double.dec 95 100) = true.
Proof. vm_compute. repeat split. Qed.

Lemma multiplier_band (adjusted target : Z) (factor : Double.t) :
  band_factor_spec (adjusted >? target)
    (Double.div (Double.of_uint64 adjusted) (Double.of_uint64 target))
  = Some factor ->
  multiplier adjusted target = factor.
Proof.
  rewrite band_factor_spec_unfold.
  unfold multiplier, Double.gtb, Double.ltb, Double.leb.
  set (ratio := Double.div _ _).
  change (Double.dec 5 10) with (Double.dec 50 100).
  destruct thresholds_increase as (T1 & T2 & T3 & T4 & T5 & T6).
  destruct (adjusted >? target).
  - destruct (SFltb (Double.dec 150 100) ratio) eqn:A; [congruence|].
    destruct (SFltb (Double.dec 110 100) ratio) eqn:B; cbn [andb].
    { destruct (SFleb ratio (Double.dec 150 100)); [congruence|].
      destruct (SFltb (Double.dec 105 100) ratio); cbn [andb].
      - destruct (SFleb ratio (Double.dec 110 100)) eqn:C.
        + rewrite (le_not_gt _ _ C) in B. discriminate.
        + destruct (SFltb (Double.dec 100 100) ratio); cbn [andb]; [|discriminate].
          destruct (SFleb ratio (Double.dec 105 100)) eqn:D; [|discriminate].
          rewrite (le_lt_chain _ _ _ D T3) in B. discriminate.
      - destruct (SFltb (Double.dec 100 100) ratio); cbn [andb]; [|discriminate].
        destruct (SFleb ratio (Double.dec 105 100)) eqn:D; [|discriminate].
        rewrite (le_lt_chain _ _ _ D T3) in B. discriminate. }
    destruct (SFltb (Double.dec 105 100) ratio) eqn:C; cbn [andb].
    { destruct (SFleb ratio (Double.dec 110 100)); [congruence|].
      destruct (SFltb (Double.dec 100 100) ratio); cbn [andb]; [|discriminate].
      destruct (SFleb ratio (Double.dec 105 100)) eqn:D; [|discriminate].
      rewrite (le_not_gt _ _ D) in C. discriminate. }
    destruct (SFltb (Double.dec 100 100) ratio); cbn [andb]; [|discriminate].
    destruct (SFleb ratio (Double.dec 105 100)); congruence.
  - destruct (SFltb ratio (Double.dec 50 100)) eqn:A; [congruence|].
    destruct (SFltb ratio (Double.dec 90 100)) eqn:B.
    { destruct (SFleb (Double.dec 50 100) ratio); cbn [andb]; [congruence|].
      destruct (SFleb (Double.dec 90 100) ratio) eqn:C; cbn [andb].
      - rewrite (le_not_gt _ _ C) in B. discriminate.
      - destruct (SFleb (Double.dec 95 100) ratio) eqn:D; cbn [andb]; [|discriminate].
        rewrite (lt_le_chain _ _ _ T2 D) in B. discriminate. }
    rewrite andb_false_r.
    destruct (SFltb ratio (Double.dec 95 100)) eqn:C.
    { destruct (SFleb (Double.dec 90 100) ratio); cbn [andb]; [congruence|].
      destruct (SFleb (Double.dec 95 100) ratio) eqn:D; cbn [andb]; [|discriminate].
      rewrite (le_not_gt _ _ D) in C. discriminate. }
    rewrite andb_false_r.
    destruct (SFleb (Double.dec 95 100) ratio); cbn [andb]; [|discriminate].
    destruct (SFleb ratio (Double.dec 100 100)); congruence.
Qed.

Lemma not_lt_le (p q : spec_float) :
  p <> S754_nan -> q <> S754_nan -> SFltb p q = false -> SFleb q p = true.
Proof.
  unfold SFleb, SFltb.
  destruct p as [sp|sp| |sp mp ep], q as [sq|sq| |sq mq eq];
    try destruct sp; try destruct sq; cbn;
    try congruence; intros _ _ H1;
    compare_cases; try lia; try discriminate; try reflexivity.
Qed.

Lemma ltb_not_nan_r (p q : spec_float) : SFltb p q = true -> q <> S754_nan.
Proof. intros H ->. destruct p; discriminate. Qed.

Lemma leb_not_nan_l (p q : spec_float) : SFleb p q = true -> p <> S754_nan.
Proof. intros H ->. discriminate. Qed.

(** The table has a row for the ratio whenever the ratio lies on the side
    of 1.00 that the comparison of the two rates tells. *)
Lemma band_factor_total (overload : bool) (ratio : Double.t) :
  (if overload then Double.gtb ratio (Double.dec 100 100)
   else Double.leb ratio (Double.dec 100 100)) = true ->
  exists factor, band_factor_spec overload ratio = Some factor.
Proof.
  rewrite band_factor_spec_unfold.
  unfold Double.gtb, Double.ltb, Double.leb.
  destruct overload; intros H.
  - pose proof (ltb_not_nan_r _ _ H) as Hn. rewrite H.
    destruct (SFltb (Double.dec 150 100) ratio) eqn:A; [eexists; reflexivity|].
    rewrite (not_lt_le (Double.dec 150 100) ratio ltac:(vm_compute; discriminate) Hn A).
    destruct (SFltb (Double.dec 110 100) ratio) eqn:B; cbn [andb]; [eexists; reflexivity|].
    rewrite (not_lt_le (Double.dec 110 100) ratio ltac:(vm_compute; discriminate) Hn B).
    destruct (SFltb (Double.dec 105 100) ratio) eqn:C; cbn [andb]; [eexists; reflexivity|].
    rewrite (not_lt_le (Double.dec 105 100) ratio ltac:(vm_compute; discriminate) Hn C). cbn [andb]. eexists; reflexivity.
  - pose proof (leb_not_nan_l _ _ H) as Hn. rewrite H.
    destruct (SFltb ratio (Double.dec 50 100)) eqn:A; [eexists; reflexivity|].
    rewrite (not_lt_le ratio (Double.dec 50 100) Hn ltac:(vm_compute; discriminate) A).
    destruct (SFltb ratio (Double.dec 90 100)) eqn:B; cbn [andb]; [eexists; reflexivity|].
    rewrite (not_lt_le ratio (Double.dec 90 100) Hn ltac:(vm_compute; discriminate) B).
    destruct (SFltb ratio (Double.dec 95 100)) eqn:C; cbn [andb]; [eexists; reflexivity|].
    rewrite (not_lt_le ratio (Double.dec 95 100) Hn ltac:(vm_compute; discriminate) C). cbn [andb]. eexists; reflexivity.
Qed.

(** *** Division: the side of 1.00 *)

Lemma loc_record_roundtrip (m : Z) (l : location) :
  loc_of_shr_record (shr_record_of_loc m l) = l.
Proof. destruct l as [|[| |]]; reflexivity. Qed.

Lemma shr_m_record_of_loc (m : Z) (l : location) :
  shr_m (shr_record_of_loc m l) = m.
Proof. destruct l as [|[| |]]; reflexivity. Qed.

(** the second normalisation of [binary_round_aux], after the rounding *)
Lemma renormalize (s : bool) (m : Z) (e : Z) :
  2 ^ 52 <= m <= 2 ^ 53 -> -1074 <= e <= 970 ->
  (let '(mrs, e') := shr_fexp Double.prec Double.emax m e loc_Exact in
   match shr_m mrs with
   | 0 => S754_zero s
   | Zpos p => if e' <=? Double.emax - Double.prec then S754_finite s p e'
               else S754_infinity s
   | Zneg _ => S754_nan
   end) =
  if m <? 2 ^ 53 then S754_finite s (Z.to_pos m) e
  else S754_finite s 4503599627370496 (e + 1).
Proof.
  intros Hm He. unfold shr_fexp.
  destruct m as [|p|p]; try (simpl in Hm; lia).
  cbn [Zdigits2 shr_record_of_loc]. rewrite fexp64_eq.
  change (Double.emax - Double.prec) with 971.
  destruct (Z.ltb_spec (Zpos p) (2 ^ 53)) as [L|L].
  - assert (Hd : Zpos (digits2_pos p) = 53) by (apply digits2_pos_unique; lia).
    rewrite Hd, shr_nonpos by lia. cbn [shr_m Z.to_pos].
    destruct (Z.leb_spec e 971); [reflexivity | lia].
  - assert (Hp : Zpos p = 2 ^ 53) by lia.
    assert (Hd : Zpos (digits2_pos p) = 54)
      by (apply digits2_pos_unique; rewrite Hp; simpl; lia).
    rewrite Hd.
    replace (Z.max (54 + e - 53) (-1074) - e) with 1 by lia.
    injection Hp as ->. cbn [shr iter_pos shr_1 shr_m orb].
    destruct (Z.leb_spec (e + 1) 971); [reflexivity | lia].
Qed.

(** rounding a 53-digit mantissa with its location *)
Lemma round_aux_53 (s : bool) (q : positive) (e : Z) (l : location) :
  2 ^ 52 <= Zpos q < 2 ^ 53 -> -1074 <= e <= 970 ->
  binary_round_aux Double.prec Double.emax s (Zpos q) e l =
  if round_nearest_even (Zpos q) l <? 2 ^ 53
  then S754_finite s (Z.to_pos (round_nearest_even (Zpos q) l)) e
  else S754_finite s 4503599627370496 (e + 1).
Proof.
  intros Hq He.
  assert (Hd : Zpos (digits2_pos q) = 53) by (apply digits2_pos_unique; lia).
  unfold binary_round_aux. unfold shr_fexp at 1. cbn [Zdigits2].
  rewrite fexp64_eq, Hd, shr_nonpos by lia.
  rewrite loc_record_roundtrip, shr_m_record_of_loc.
  apply renormalize; [|exact He].
  pose proof (round_nearest_even_bounds (Zpos q) l). lia.
Qed.

(** rounding a 54-digit mantissa with its location *)
Lemma round_aux_54 (s : bool) (q : positive) (e : Z) (l : location) :
  2 ^ 53 <= Zpos q < 2 ^ 54 -> -1075 <= e <= 969 ->
  let r1 := shr_1 (shr_record_of_loc (Zpos q) l) in
  let m := round_nearest_even (shr_m r1) (loc_of_shr_record r1) in
  binary_round_aux Double.prec Double.emax s (Zpos q) e l =
  if m <? 2 ^ 53 then S754_finite s (Z.to_pos m) (e + 1)
  else S754_finite s 4503599627370496 (e + 2).
Proof.
  intros Hq He r1 m.
  assert (Hd : Zpos (digits2_pos q) = 54) by (apply digits2_pos_unique; lia).
  unfold binary_round_aux. unfold shr_fexp at 1. cbn [Zdigits2].
  rewrite fexp64_eq, Hd.
  replace (Z.max (54 + e - 53) (-1074) - e) with 1 by lia.
  cbn [shr iter_pos]. fold r1. fold m.
  replace (e + 2) with (e + 1 + 1) by lia.
  apply renormalize; [|lia].
  assert (Hr1 : shr_m r1 = Zpos q / 2).
  { unfold r1. rewrite shr_1_m; rewrite shr_m_record_of_loc; [reflexivity | lia]. }
  pose proof (round_nearest_even_bounds (shr_m r1) (loc_of_shr_record r1)) as B.
  fold m in B. rewrite Hr1 in B.
  change (2 ^ 53) with 9007199254740992 in *.
  change (2 ^ 54) with 18014398509481984 in *.
  change (2 ^ 52) with 4503599627370496 in *.
  assert (4503599627370496 <= Zpos q / 2 < 9007199254740992)
    by (split; [apply Z.div_le_lower_bound | apply Z.div_lt_upper_bound]; lia).
  lia.
Qed.

Lemma div_finite (m1 m2 : positive) (e1 e2 : Z) :
  Zpos (digits2_pos m1) = 53 -> Zpos (digits2_pos m2) = 53 ->
  -1021 <= e1 - e2 ->
  Double.div (S754_finite false m1 e1) (S754_finite false m2 e2) =
  binary_round_aux Double.prec Double.emax false
    (Zpos m1 * 2 ^ 53 / Zpos m2) (e1 - e2 - 53)
    (new_location (Zpos m2) ((Zpos m1 * 2 ^ 53) mod Zpos m2)).
Proof.
  intros H1 H2 He. unfold Double.div, SFdiv, SFdiv_core_binary.
  cbn [xorb Zdigits2]. rewrite H1, H2, fexp64_eq.
  replace (53 + e1 - (53 + e2)) with (e1 - e2) by lia.
  rewrite Z.max_l, Z.min_l by lia.
  replace (e1 - e2 - (e1 - e2 - 53)) with 53 by lia.
  rewrite Z.shiftl_mul_pow2 by lia.
  unfold Z.div, Z.modulo.
  destruct (Z.div_eucl (Zpos m1 * 2 ^ 53) (Zpos m2)) as [q r].
  reflexivity.
Qed.

Lemma new_location_zero (B : Z) : new_location B 0 = loc_Exact.
Proof.
  unfold new_location, new_location_even, new_location_odd.
  destruct (Z.even B); reflexivity.
Qed.

Lemma new_location_inexact (B r : Z) :
  r <> 0 -> exists c, new_location B r = loc_Inexact c.
Proof.
  intros H. unfold new_location, new_location_even, new_location_odd.
  destruct (Z.even B); cbv beta;
    (destruct (Z.eqb_spec r 0) as [E|_]; [contradiction|]);
    eexists; reflexivity.
Qed.

Lemma new_location_above_half (B r : Z) :
  0 <= B -> B < 2 * r -> new_location B r = loc_Inexact Gt.
Proof.
  intros H0 H. unfold new_location, new_location_even, new_location_odd.
  destruct (Z.even B) eqn:Ev; cbv beta;
    (destruct (Z.eqb_spec r 0) as [E|_]; [lia|]).
  - now rewrite (proj2 (Z.compare_gt_iff _ _)) by lia.
  - now rewrite (proj2 (Z.compare_gt_iff _ _)) by lia.
Qed.

(** an odd mantissa with an inexact location rounds up after one shift *)
Lemma shr_1_odd_inexact (q : positive) (c : comparison) :
  Z.odd (Zpos q) = true -> Zpos q <> 1 ->
  let r1 := shr_1 (shr_record_of_loc (Zpos q) (loc_Inexact c)) in
  round_nearest_even (shr_m r1) (loc_of_shr_record r1) = Zpos q / 2 + 1.
Proof.
  intros Ho H1.
  destruct q as [p|p|]; [|discriminate Ho|contradiction].
  assert (Hq : Zpos p~1 / 2 = Zpos p).
  { rewrite (Pos2Z.inj_xI p). symmetry. apply Z.div_unique with (r := 1); lia. }
  rewrite Hq. destruct c; reflexivity.
Qed.

Lemma finite_ltb (k m : positive) (ek e : Z) :
  ek < e \/ (e = ek /\ Zpos k < Zpos m) ->
  SFltb (S754_finite false k ek) (S754_finite false m e) = true.
Proof.
  intros H. unfold SFltb, SFcompare.
  destruct (Z.compare_spec ek e) as [E|L|G]; try reflexivity; try lia.
  change (Pos.compare_cont Eq k m) with (Pos.compare k m).
  destruct (Pos.compare_spec k m) as [E'|L'|G']; try reflexivity; lia.
Qed.

Lemma finite_leb (k m : positive) (ek e : Z) :
  e < ek \/ (e = ek /\ Zpos m <= Zpos k) ->
  SFleb (S754_finite false m e) (S754_finite false k ek) = true.
Proof.
  intros H. unfold SFleb, SFcompare.
  destruct (Z.compare_spec e ek) as [E|L|G]; try reflexivity; try lia.
  change (Pos.compare_cont Eq m k) with (Pos.compare m k).
  destruct (Pos.compare_spec m k) as [E'|L'|G']; try reflexivity; lia.
Qed.

(** two integers below 2^53 as 53-digit mantissas *)
Lemma of_Z_pair (pa pb : positive) :
  Zpos pa < 2 ^ 53 -> Zpos pb < 2 ^ 53 ->
  exists m1 m2 e1 e2,
    Double.of_Z (Zpos pa) = S754_finite false m1 e1 /\
    Double.of_Z (Zpos pb) = S754_finite false m2 e2 /\
    Zpos (digits2_pos m1) = 53 /\ Zpos (digits2_pos m2) = 53 /\
    -52 <= e1 <= 0 /\ -52 <= e2 <= 0 /\
    Zpos m1 = Zpos pa * 2 ^ (- e1) /\ Zpos m2 = Zpos pb * 2 ^ (- e2) /\
    (Zpos pb <= Zpos pa -> e2 <= e1).
Proof.
  intros Ha Hb.
  destruct (of_Z_small pa Ha) as (m1 & E1 & Hm1 & Hd1).
  destruct (of_Z_small pb Hb) as (m2 & E2 & Hm2 & Hd2).
  pose proof (digits2_pos_bounds pa) as Ba.
  pose proof (digits2_pos_bounds pb) as Bb.
  set (da := Zpos (digits2_pos pa)) in *. set (db := Zpos (digits2_pos pb)) in *.
  assert (Hda : 1 <= da <= 53).
  { split; [unfold da; lia|].
    destruct (Z.le_gt_cases da 53); [assumption|].
    assert (2 ^ 53 <= 2 ^ (da - 1)) by (apply Z.pow_le_mono_r; lia). lia. }
  assert (Hdb : 1 <= db <= 53).
  { split; [unfold db; lia|].
    destruct (Z.le_gt_cases db 53); [assumption|].
    assert (2 ^ 53 <= 2 ^ (db - 1)) by (apply Z.pow_le_mono_r; lia). lia. }
  exists m1, m2, (da - 53), (db - 53).
  repeat split; try assumption; try lia.
  - rewrite Hm1. f_equal. f_equal. lia.
  - rewrite Hm2. f_equal. f_equal. lia.
  - intros Hle. 
    assert (db <= da) by (apply digits2_pos_mono; lia). lia.
Qed.

Lemma round_shift_lower (q : Z) (l : location) :
  0 <= q ->
  let r1 := shr_1 (shr_record_of_loc q l) in
  q / 2 <= round_nearest_even (shr_m r1) (loc_of_shr_record r1) <= q / 2 + 1.
Proof.
  intros Hq r1.
  assert (Hr1 : shr_m r1 = q / 2).
  { unfold r1. rewrite shr_1_m; rewrite shr_m_record_of_loc; [reflexivity | lia]. }
  rewrite <- Hr1. apply round_nearest_even_bounds.
Qed.

(** the quotient of 53-digit mantissas [A] and [B] *)
Lemma quotient_bounds (A B : Z) :
  2 ^ 52 <= A < 2 ^ 53 -> 2 ^ 52 <= B < 2 ^ 53 ->
  2 ^ 52 <= A * 2 ^ 53 / B < 2 ^ 54 /\
  A * 2 ^ 53 = B * (A * 2 ^ 53 / B) + (A * 2 ^ 53) mod B /\
  0 <= (A * 2 ^ 53) mod B < B.
Proof.
  intros HA HB.
  change (2 ^ 52) with 4503599627370496 in *.
  change (2 ^ 53) with 9007199254740992 in *.
  change (2 ^ 54) with 18014398509481984.
  split; [|split].
  - split.
    + apply Z.div_le_lower_bound; nia.
    + apply Z.div_lt_upper_bound; nia.
  - apply Z.div_mod. lia.
  - apply Z.mod_pos_bound. lia.
Qed.

(** a larger integer over a smaller one: the quotient exceeds 1.0 *)
Lemma ratio_above_one (pa pb : positive) :
  Zpos pb < Zpos pa -> Zpos pa < 2 ^ 53 ->
  SFltb (S754_finite false 4503599627370496 (-52))
        (Double.div (Double.of_Z (Zpos pa)) (Double.of_Z (Zpos pb))) = true.
Proof.
  intros Hab Ha.
  destruct (of_Z_pair pa pb Ha ltac:(lia))
    as (m1 & m2 & e1 & e2 & E1 & E2 & D1 & D2 & He1 & He2 & Hm1 & Hm2 & Hee).
  specialize (Hee ltac:(lia)).
  rewrite E1, E2, div_finite by (try assumption; lia).
  pose proof (digits2_pos_bounds m1) as HA. rewrite D1 in HA.
  pose proof (digits2_pos_bounds m2) as HB. rewrite D2 in HB.
  change (2 ^ (53 - 1)) with (2 ^ 52) in *.
  assert (HAB : Zpos m2 < Zpos m1 * 2 ^ (e1 - e2)).
  { rewrite Hm1, Hm2, <- Z.mul_assoc, <- Z.pow_add_r by lia.
    replace (- e1 + (e1 - e2)) with (- e2) by lia.
    apply Z.mul_lt_mono_pos_r; [apply Z.pow_pos_nonneg; lia | exact Hab]. }
  destruct (quotient_bounds _ _ HA HB) as (Hq & Heu & Hr).
  set (A := Zpos m1) in *. set (B := Zpos m2) in *.
  set (r := (A * 2 ^ 53) mod B) in *.
  destruct (A * 2 ^ 53 / B) as [|q|q] eqn:Eq; try (simpl in Hq; lia).
  change (2 ^ 52) with 4503599627370496 in *.
  change (2 ^ 53) with 9007199254740992 in *.
  change (2 ^ 54) with 18014398509481984 in *.
  destruct (Z.lt_ge_cases (Zpos q) 9007199254740992) as [Hs|Hl].
  - (* a 53-digit quotient: the exponents differ *)
    assert (Hk : 1 <= e1 - e2).
    { destruct (Z.eq_dec e1 e2) as [->|]; [|lia].
      rewrite Z.sub_diag, Z.pow_0_r, Z.mul_1_r in HAB. nia. }
    rewrite round_aux_53
      by (change (2 ^ 52) with 4503599627370496;
          change (2 ^ 53) with 9007199254740992; lia).
    pose proof (round_nearest_even_bounds (Zpos q) (new_location B r)) as Hrne.
    change (2 ^ 53) with 9007199254740992.
    destruct (Z.ltb_spec (round_nearest_even (Zpos q) (new_location B r))
                         9007199254740992) as [Hlt|Hge].
    + apply finite_ltb. rewrite Z2Pos.id by lia.
      destruct (Z.eq_dec (e1 - e2) 1) as [K1|]; [|left; lia].
      right. split; [lia|].
      destruct (Z.eq_dec (Zpos q) 4503599627370496) as [Q|]; [|lia].
      rewrite K1 in HAB. change (2 ^ 1) with 2 in HAB.
      rewrite new_location_above_half by (unfold B; lia || nia).
      cbn [round_nearest_even]. lia.
    + apply finite_ltb. left. lia.
  - (* a 54-digit quotient *)
    rewrite round_aux_54
      by (change (2 ^ 53) with 9007199254740992;
          change (2 ^ 54) with 18014398509481984; lia).
    cbv zeta.
    pose proof (round_shift_lower (Zpos q) (new_location B r) ltac:(lia)) as Hm.
    cbv zeta in Hm.
    set (m := round_nearest_even _ _) in *.
    change (2 ^ 53) with 9007199254740992.
    assert (Hq2 : 4503599627370496 <= Zpos q / 2)
      by (apply Z.div_le_lower_bound; lia).
    destruct (Z.ltb_spec m 9007199254740992) as [Hlt|Hge].
    + apply finite_ltb. rewrite Z2Pos.id by lia.
      destruct (Z.eq_dec e1 e2) as [K0|]; [|left; lia].
      right. split; [lia|].
      rewrite K0, Z.sub_diag, Z.pow_0_r, Z.mul_1_r in HAB.
      assert (Hq1 : 9007199254740992 + 1 <= Zpos q) by nia.
      destruct (Z.eq_dec (Zpos q) (9007199254740992 + 1)) as [Q|Q].
      * (* the quotient is 2^53 + 1 and the remainder is not 0 *)
        assert (Hr0 : r <> 0) by (rewrite Q in Heu; nia).
        destruct (new_location_inexact B r Hr0) as (c & Hc).
        unfold m. rewrite Hc, shr_1_odd_inexact.
        -- lia.
        -- rewrite Q. reflexivity.
        -- lia.
      * assert (4503599627370496 + 1 <= Zpos q / 2)
          by (apply Z.div_le_lower_bound; lia).
        lia.
    + apply finite_ltb. left. lia.
Qed.

(** an integer over one at least as large: the quotient is at most 1.0 *)
Lemma ratio_at_most_one (pa pb : positive) :
  Zpos pa <= Zpos pb -> Zpos pb < 2 ^ 53 ->
  SFleb (Double.div (Double.of_Z (Zpos pa)) (Double.of_Z (Zpos pb)))
        (S754_finite false 4503599627370496 (-52)) = true.
Proof.
  intros Hab Hb.
  destruct (of_Z_pair pb pa Hb ltac:(lia))
    as (m2 & m1 & e2 & e1 & E2 & E1 & D2 & D1 & He2 & He1 & Hm2 & Hm1 & Hee).
  specialize (Hee Hab).
  rewrite E1, E2, div_finite by (try assumption; lia).
  pose proof (digits2_pos_bounds m1) as HA. rewrite D1 in HA.
  pose proof (digits2_pos_bounds m2) as HB. rewrite D2 in HB.
  change (2 ^ (53 - 1)) with (2 ^ 52) in *.
  assert (HAB : Zpos m1 <= Zpos m2 * 2 ^ (e2 - e1)).
  { rewrite Hm1, Hm2, <- Z.mul_assoc, <- Z.pow_add_r by lia.
    replace (- e2 + (e2 - e1)) with (- e1) by lia.
    apply Z.mul_le_mono_nonneg_r; [apply Z.pow_nonneg; lia | exact Hab]. }
  destruct (quotient_bounds _ _ HA HB) as (Hq & Heu & Hr).
  set (A := Zpos m1) in *. set (B := Zpos m2) in *.
  set (r := (A * 2 ^ 53) mod B) in *.
  destruct (A * 2 ^ 53 / B) as [|q|q] eqn:Eq; try (simpl in Hq; lia).
  change (2 ^ 52) with 4503599627370496 in *.
  change (2 ^ 53) with 9007199254740992 in *.
  change (2 ^ 54) with 18014398509481984 in *.
  destruct (Z.lt_ge_cases (Zpos q) 9007199254740992) as [Hs|Hl].
  - rewrite round_aux_53
      by (change (2 ^ 52) with 4503599627370496;
          change (2 ^ 53) with 9007199254740992; lia).
    pose proof (round_nearest_even_bounds (Zpos q) (new_location B r)) as Hrne.
    change (2 ^ 53) with 9007199254740992.
    destruct (Z.ltb_spec (round_nearest_even (Zpos q) (new_location B r))
                         9007199254740992) as [Hlt|Hge].
    + apply finite_leb. left. lia.
    + apply finite_leb.
      destruct (Z.eq_dec e1 e2) as [K0|]; [right; split; lia | left; lia].
  - rewrite round_aux_54
      by (change (2 ^ 53) with 9007199254740992;
          change (2 ^ 54) with 18014398509481984; lia).
    cbv zeta.
    pose proof (round_shift_lower (Zpos q) (new_location B r) ltac:(lia)) as Hm.
    cbv zeta in Hm.
    change (2 ^ 53) with 9007199254740992.
    destruct (Z.eq_dec e1 e2) as [K0|K].
    + (* equal exponents: the two mantissas are equal *)
      rewrite K0, Z.sub_diag, Z.pow_0_r, Z.mul_1_r in HAB.
      assert (HAeq : A = B) by nia.
      assert (Hq53 : Zpos q = 9007199254740992) by nia.
      assert (Hr0 : r = 0) by nia.
      injection Hq53 as ->. rewrite Hr0, new_location_zero.
      cbn [shr_record_of_loc shr_1 shr_m loc_of_shr_record orb
           round_nearest_even].
      cbn [Z.ltb Z.compare Pos.compare Pos.compare_cont Z.to_pos].
      apply finite_leb. right. split; lia.
    + set (m := round_nearest_even _ _) in *.
      destruct (Z.ltb_spec m 9007199254740992) as [Hlt|Hge].
      * apply finite_leb. left. lia.
      * apply finite_leb.
        destruct (Z.eq_dec (e2 - e1) 1); [right; split; lia | left; lia].
Qed.

(** For rates below 2^53 and a reported writing rate other than 0, the
    ratio the controller computes lies on the side of 1.00 that the
    comparison of the two rates tells. *)
Lemma ratio_side (adjusted target : Z) :
  0 <= adjusted < 2 ^ 53 -> 0 < target < 2 ^ 53 ->
  (if adjusted >? target
   then Double.gtb (Double.div (Double.of_uint64 adjusted)
                               (Double.of_uint64 target))
                   (Double.dec 100 100)
   else Double.leb (Double.div (Double.of_uint64 adjusted)
                               (Double.of_uint64 target))
                   (Double.dec 100 100)) = true.
Proof.
  intros Ha Ht. unfold Double.gtb, Double.leb, Double.of_uint64.
  change (Double.dec 100 100)
    with (S754_finite false 4503599627370496 (-52)).
  destruct target as [|pt|pt]; try lia.
  destruct (Z.gtb_spec adjusted (Zpos pt)) as [G|L].
  - destruct adjusted as [|pa|pa]; try lia.
    apply ratio_above_one; lia.
  - destruct adjusted as [|pa|pa]; try lia.
    + destruct (of_Z_small pt ltac:(lia)) as (m & E & _). rewrite E.
      reflexivity.
    + apply ratio_at_most_one; lia.
Qed.

(** ** Division: sign and size of the quotient *)

Lemma div_finite_signed (s1 s2 : bool) (m1 m2 : positive) (e1 e2 : Z) :
  Zpos (digits2_pos m1) = 53 -> Zpos (digits2_pos m2) = 53 ->
  -1021 <= e1 - e2 ->
  Double.div (S754_finite s1 m1 e1) (S754_finite s2 m2 e2) =
  binary_round_aux Double.prec Double.emax (xorb s1 s2)
    (Zpos m1 * 2 ^ 53 / Zpos m2) (e1 - e2 - 53)
    (new_location (Zpos m2) ((Zpos m1 * 2 ^ 53) mod Zpos m2)).
Proof.
  intros H1 H2 He. unfold Double.div, SFdiv, SFdiv_core_binary.
  cbn [Zdigits2]. rewrite H1, H2, fexp64_eq.
  replace (53 + e1 - (53 + e2)) with (e1 - e2) by lia.
  rewrite Z.max_l, Z.min_l by lia.
  replace (e1 - e2 - (e1 - e2 - 53)) with 53 by lia.
  rewrite Z.shiftl_mul_pow2 by lia.
  unfold Z.div, Z.modulo.
  destruct (Z.div_eucl (Zpos m1 * 2 ^ 53) (Zpos m2)) as [q r].
  reflexivity.
Qed.

(** the quotient of two 53-digit mantissas: a 53-digit mantissa within
    one part in 2^52 of the exact quotient *)
Lemma div_bounds (s1 s2 : bool) (m1 m2 : positive) (e1 e2 : Z) :
  2 ^ 52 <= Zpos m1 < 2 ^ 53 -> 2 ^ 52 <= Zpos m2 < 2 ^ 53 ->
  -1021 <= e1 - e2 <= 1022 ->
  exists m3 j,
    Double.div (S754_finite s1 m1 e1) (S754_finite s2 m2 e2) =
      S754_finite (xorb s1 s2) m3 (e1 - e2 - 53 + j) /\
    0 <= j <= 2 /\
    2 ^ 52 <= Zpos m3 < 2 ^ 53 /\
    Zpos m1 * 2 ^ 53 * (2 ^ 52 - 1) <= Zpos m3 * 2 ^ j * Zpos m2 * 2 ^ 52
      <= Zpos m1 * 2 ^ 53 * (2 ^ 52 + 1).
Proof.
  intros HA HB He.
  assert (D1 : Zpos (digits2_pos m1) = 53) by (apply digits2_pos_unique; exact HA).
  assert (D2 : Zpos (digits2_pos m2) = 53) by (apply digits2_pos_unique; exact HB).
  rewrite div_finite_signed by (try assumption; lia).
  destruct (quotient_bounds _ _ HA HB) as (Hq & Heu & Hr).
  set (A := Zpos m1) in *. set (B := Zpos m2) in *.
  set (r := (A * 2 ^ 53) mod B) in *.
  set (s := xorb s1 s2).
  destruct (A * 2 ^ 53 / B) as [|q|q] eqn:Eq; try (simpl in Hq; lia).
  change (2 ^ 52) with 4503599627370496 in *.
  change (2 ^ 53) with 9007199254740992 in *.
  change (2 ^ 54) with 18014398509481984 in *.
  change (4503599627370496 + 1) with 4503599627370497.
  change (4503599627370496 - 1) with 4503599627370495.
  assert (HBW : B * 4503599627370496 <= A * 9007199254740992).
  { transitivity (9007199254740992 * 4503599627370496); [lia|]. lia. }
  destruct (Z.lt_ge_cases (Zpos q) 9007199254740992) as [Hs|Hl].
  - rewrite round_aux_53
      by (change (2 ^ 52) with 4503599627370496;
          change (2 ^ 53) with 9007199254740992; lia).
    pose proof (round_nearest_even_bounds (Zpos q) (new_location B r)) as Hrne.
    change (2 ^ 53) with 9007199254740992.
    set (m := round_nearest_even (Zpos q) (new_location B r)) in *.
    assert (Hm : m = Zpos q \/ m = Zpos q + 1) by lia.
    destruct (Z.ltb_spec m 9007199254740992) as [Hlt|Hge].
    + exists (Z.to_pos m), 0. rewrite Z.add_0_r, Z2Pos.id by lia.
      split; [reflexivity|]. split; [lia|]. split; [lia|].
      change (2 ^ 0) with 1. rewrite Z.mul_1_r.
      destruct Hm as [-> | ->]; lia.
    + exists 4503599627370496%positive, 1.
      split; [reflexivity|]. split; [lia|]. split; [lia|].
      change (2 ^ 1) with 2.
      assert (Hq' : Zpos q = 9007199254740991) by lia.
      rewrite Hq' in Heu. lia.
  - assert (HBW2 : 2 * (B * 4503599627370496) <= A * 9007199254740992).
    { rewrite Heu.
      assert (B * 9007199254740992 <= B * Zpos q)
        by (apply Z.mul_le_mono_nonneg_l; lia).
      lia. }
    rewrite round_aux_54
      by (change (2 ^ 53) with 9007199254740992;
          change (2 ^ 54) with 18014398509481984; lia).
    cbv zeta.
    pose proof (round_shift_lower (Zpos q) (new_location B r) ltac:(lia)) as Hm.
    cbv zeta in Hm.
    set (m := round_nearest_even _ _) in *.
    change (2 ^ 53) with 9007199254740992.
    pose proof (Z.div_mod (Zpos q) 2 ltac:(lia)) as Hh.
    pose proof (Z.mod_pos_bound (Zpos q) 2 ltac:(lia)) as Hh2.
    set (h := Zpos q / 2) in *.
    assert (Hm' : m = h \/ m = h + 1) by lia.
    assert (Hqh : Zpos q = 2 * h \/ Zpos q = 2 * h + 1) by lia.
    destruct (Z.ltb_spec m 9007199254740992) as [Hlt|Hge].
    + exists (Z.to_pos m), 1. rewrite Z2Pos.id by lia.
      split; [reflexivity|]. split; [lia|]. split; [lia|].
      change (2 ^ 1) with 2.
      destruct Hm' as [-> | ->]; destruct Hqh as [Q | Q]; rewrite Q in Heu; lia.
    + exists 4503599627370496%positive, 2.
      split; [f_equal; lia|]. split; [lia|]. split; [lia|].
      change (2 ^ 2) with 4.
      assert (Hh' : h = 9007199254740991) by lia.
      destruct Hqh as [Q | Q]; rewrite Q, Hh' in Heu; lia.
Qed.

(** ** The sample of [WriteEnd]: two divisions *)

Lemma round_aux_opp (m e : Z) (l : location) :
  binary_round_aux Double.prec Double.emax true m e l =
  SFopp (binary_round_aux Double.prec Double.emax false m e l).
Proof.
  unfold binary_round_aux.
  destruct (shr_fexp _ _ m e l) as [r1 e1].
  destruct (shr_fexp _ _ _ e1 loc_Exact) as [r2 e2].
  destruct (shr_m r2); try reflexivity.
  destruct (e2 <=? _); reflexivity.
Qed.

Lemma normalize_opp (x : positive) (e : Z) :
  binary_normalize Double.prec Double.emax (Zneg x) e false =
  SFopp (binary_normalize Double.prec Double.emax (Zpos x) e false).
Proof.
  unfold binary_normalize, binary_round.
  destruct (shl_align _ _ _) as [mz ez]. apply round_aux_opp.
Qed.

Lemma opp_involutive (x : spec_float) : SFopp (SFopp x) = x.
Proof. destruct x as [[]|[]| |[] m e]; reflexivity. Qed.

(** the difference of two stamps, taken the wrong way round *)
Lemma sub_swap (m1 m2 : positive) (e1 e2 : Z) (m : positive) (e : Z) :
  Double.sub (S754_finite false m1 e1) (S754_finite false m2 e2)
    = S754_finite false m e ->
  Double.sub (S754_finite false m2 e2) (S754_finite false m1 e1)
    = S754_finite true m e.
Proof.
  unfold Double.sub, SFsub. cbn [cond_Zopp].
  rewrite (Z.min_comm e2 e1).
  set (X := Zpos (fst (shl_align m1 e1 (Z.min e1 e2)))).
  set (Y := Zpos (fst (shl_align m2 e2 (Z.min e1 e2)))).
  replace (Y - X) with (- (X - Y)) by ring.
  destruct (X - Y) as [|p|p]; [discriminate| |].
  - intros E. change (- Zpos p) with (Zneg p). rewrite normalize_opp, E.
    reflexivity.
  - intros E. change (- Zneg p) with (Zpos p).
    rewrite normalize_opp in E.
    apply (f_equal SFopp) in E. rewrite opp_involutive in E. exact E.
Qed.

Lemma sub_exact_neg (a b : Z) :
  0 <= a -> a < b -> b < 2 ^ 53 ->
  exists m e,
    -52 <= e <= 0 /\
    Zpos m = (b - a) * 2 ^ (- e) /\
    2 ^ 52 <= Zpos m < 2 ^ 53 /\
    Double.sub (Double.of_uint64 b) (Double.of_uint64 a) =
      S754_finite false m e /\
    Double.sub (Double.of_uint64 a) (Double.of_uint64 b) =
      S754_finite true m e.
Proof.
  intros H0 Hab Hb.
  pose proof (sub_exact a b H0 Hab Hb) as S.
  destruct (b - a) as [|d|d] eqn:Ed; try lia.
  destruct (of_Z_small d ltac:(lia)) as (m & E & Hm & Hd).
  pose proof (digits2_pos_bounds m) as Bm. rewrite Hd in Bm.
  change (2 ^ (53 - 1)) with (2 ^ 52) in Bm.
  pose proof (digits2_pos_bounds d) as Bd.
  set (dd := Zpos (digits2_pos d)) in *.
  assert (Hdd : 1 <= dd <= 53).
  { split; [unfold dd; lia|].
    destruct (Z.le_gt_cases dd 53); [assumption|].
    assert (2 ^ 53 <= 2 ^ (dd - 1)) by (apply Z.pow_le_mono_r; lia). lia. }
  exists m, (dd - 53). split; [lia|].
  split; [rewrite Hm; f_equal; f_equal; lia|]. split; [exact Bm|].
  rewrite E in S. split; [exact S|].
  set (e0 := dd - 53) in *. clearbody e0. clear E Hm.
  unfold Double.of_uint64 in *.
  destruct b as [|pb|pb]; try lia.
  destruct (of_Z_small pb Hb) as (mb & Eb & _).
  set (eb := Zpos (digits2_pos pb) - 53) in *. clearbody eb.
  destruct a as [|pa|pa]; [|clear H0|lia].
  - rewrite Eb in *. change (Double.of_Z 0) with (S754_zero false) in *.
    cbn [Double.sub SFsub negb] in *. injection S as -> ->. reflexivity.
  - destruct (of_Z_small pa ltac:(lia)) as (ma & Ea & _).
    rewrite Ea, Eb in *. apply sub_swap. exact S.
Qed.

Lemma chain_upper (P mD J M A N S W : Z) :
  0 < S -> 1 < W -> 0 <= P -> 0 < J -> 0 <= M ->
  A * S * (W - 1) <= mD * J * M * W ->
  P * mD * W <= N * S * (W + 1) ->
  P * A * (W - 1) <= N * J * (W + 1) * M.
Proof.
  intros HS HW HP HJ HM Ha Hb.
  apply (Z.mul_le_mono_pos_r _ _ (S * W)); [lia|].
  transitivity (P * W * (mD * J * M * W)).
  - replace (P * A * (W - 1) * (S * W)) with (P * W * (A * S * (W - 1))) by ring.
    apply Z.mul_le_mono_nonneg_l; [lia | exact Ha].
  - replace (P * W * (mD * J * M * W)) with (P * mD * W * (J * M * W)) by ring.
    replace (N * J * (W + 1) * M * (S * W))
      with (N * S * (W + 1) * (J * M * W)) by ring.
    apply Z.mul_le_mono_nonneg_r; [|exact Hb].
    apply Z.mul_nonneg_nonneg; [apply Z.mul_nonneg_nonneg|]; lia.
Qed.

Lemma chain_lower (P mD J M A N S W : Z) :
  0 < S -> 1 < W -> 0 <= P -> 0 < J -> 0 <= M ->
  mD * J * M * W <= A * S * (W + 1) ->
  N * S * (W - 1) <= P * mD * W ->
  N * (W - 1) * J * M <= P * A * (W + 1).
Proof.
  intros HS HW HP HJ HM Ha Hb.
  apply (Z.mul_le_mono_pos_r _ _ (S * W)); [lia|].
  transitivity (P * mD * W * (J * M * W)).
  - replace (N * (W - 1) * J * M * (S * W))
      with (N * S * (W - 1) * (J * M * W)) by ring.
    apply Z.mul_le_mono_nonneg_r; [|exact Hb].
    apply Z.mul_nonneg_nonneg; [apply Z.mul_nonneg_nonneg|]; lia.
  - replace (P * mD * W * (J * M * W)) with (P * W * (mD * J * M * W)) by ring.
    replace (P * A * (W + 1) * (S * W)) with (P * W * (A * S * (W + 1))) by ring.
    apply Z.mul_le_mono_nonneg_l; [lia | exact Ha].
Qed.

Lemma of_Z_1000 :
  Double.of_Z 1000 = S754_finite false 8796093022208000 (-43).
Proof. vm_compute. reflexivity. Qed.

(** [n / (d / 1000)] for a byte count [n] and a time [d] below 2^53, of
    either sign: the sign of the time, and a size within two parts in
    2^52 of [1000 * n / d] *)
Lemma sample_bounds (s : bool) (n d : positive) (md : positive) (ed : Z) :
  Zpos n < 2 ^ 53 -> Zpos d < 2 ^ 53 ->
  -52 <= ed <= 0 ->
  Zpos md = Zpos d * 2 ^ (- ed) ->
  2 ^ 52 <= Zpos md < 2 ^ 53 ->
  exists mR eR,
    Double.div (Double.of_uint64 (Zpos n))
               (Double.div (S754_finite s md ed) (Double.of_Z 1000))
      = S754_finite s mR eR /\
    (forall c, 1000 * Zpos n * (2 ^ 52 + 1) < c * Zpos d * (2 ^ 52 - 1) ->
               Double.trunc mR eR < c) /\
    (forall c, c * Zpos d * (2 ^ 52 + 1) <= 1000 * Zpos n * (2 ^ 52 - 1) ->
               c <= Double.trunc mR eR).
Proof.
  intros Hn Hd Hed Hmd Bmd.
  destruct (of_Z_small n Hn) as (mn & En & Hmn & Dn).
  pose proof (digits2_pos_bounds mn) as Bmn. rewrite Dn in Bmn.
  change (2 ^ (53 - 1)) with (2 ^ 52) in Bmn.
  pose proof (digits2_pos_bounds n) as Bn.
  set (dn := Zpos (digits2_pos n)) in *.
  assert (Hdn : 1 <= dn <= 53).
  { split; [unfold dn; lia|].
    destruct (Z.le_gt_cases dn 53); [assumption|].
    assert (2 ^ 53 <= 2 ^ (dn - 1)) by (apply Z.pow_le_mono_r; lia). lia. }
  rewrite of_Z_1000.
  destruct (div_bounds s false md 8796093022208000 ed (-43) Bmd
              ltac:(vm_compute; split; [discriminate | reflexivity])
              ltac:(lia))
    as (mD & jD & ED & HjD & BmD & [BDl BDu]).
  rewrite ED. unfold Double.of_uint64. rewrite En.
  destruct (div_bounds false (xorb s false) mn mD (dn - 53)
              (ed - -43 - 53 + jD) Bmn BmD ltac:(lia))
    as (mR & jR & ER & HjR & BmR & [BRl BRu]).
  rewrite ER. replace (xorb false (xorb s false)) with s by (destruct s; reflexivity).
  exists mR, (dn - 53 - (ed - -43 - 53 + jD) - 53 + jR).
  split; [reflexivity|].
  set (eR := dn - 53 - (ed - -43 - 53 + jD) - 53 + jR).
  set (L := 43 + jD + (53 - dn)).
  assert (HL : 0 <= L) by (unfold L; lia).
  assert (HeL : eR + L = jR + - ed) by (unfold eR, L; lia).
  assert (HT : 2 ^ L = 2 ^ 43 * 2 ^ jD * 2 ^ (53 - dn))
    by (unfold L; rewrite !Z.pow_add_r by lia; reflexivity).
  assert (HPE : Zpos mR * 2 ^ (eR + L) = Zpos mR * 2 ^ jR * 2 ^ (- ed))
    by (rewrite HeL, Z.pow_add_r by lia; ring).
  assert (P43 : 8796093022208000 = 1000 * 2 ^ 43) by reflexivity.
  assert (HJ : 0 < 2 ^ jD) by (apply Z.pow_pos_nonneg; lia).
  assert (HEd : 0 < 2 ^ (- ed)) by (apply Z.pow_pos_nonneg; lia).
  assert (HEn : 0 < 2 ^ (53 - dn)) by (apply Z.pow_pos_nonneg; lia).
  assert (HTp : 0 < 2 ^ L) by (apply Z.pow_pos_nonneg; lia).
  assert (HP : 0 <= Zpos mR * 2 ^ jR)
    by (apply Z.mul_nonneg_nonneg; [lia | apply Z.pow_nonneg; lia]).
  pose proof (chain_upper (Zpos mR * 2 ^ jR) (Zpos mD) (2 ^ jD)
                8796093022208000 (Zpos md) (Zpos mn) (2 ^ 53) (2 ^ 52)
                ltac:(reflexivity) ltac:(reflexivity) HP HJ ltac:(lia)
                BDl BRu) as CU.
  pose proof (chain_lower (Zpos mR * 2 ^ jR) (Zpos mD) (2 ^ jD)
                8796093022208000 (Zpos md) (Zpos mn) (2 ^ 53) (2 ^ 52)
                ltac:(reflexivity) ltac:(reflexivity) HP HJ ltac:(lia)
                BDu BRl) as CL.
  rewrite Hmd, Hmn, P43 in CU, CL.
  set (PE := Zpos mR * 2 ^ jR * 2 ^ (- ed)) in *.
  assert (CU' : PE * Zpos d * (2 ^ 52 - 1)
                <= 1000 * Zpos n * (2 ^ 52 + 1) * 2 ^ L).
  { rewrite HT. unfold PE.
    replace (Zpos mR * 2 ^ jR * 2 ^ (- ed) * Zpos d * (2 ^ 52 - 1))
      with (Zpos mR * 2 ^ jR * (Zpos d * 2 ^ (- ed)) * (2 ^ 52 - 1)) by ring.
    replace (1000 * Zpos n * (2 ^ 52 + 1) * (2 ^ 43 * 2 ^ jD * 2 ^ (53 - dn)))
      with (Zpos n * 2 ^ (53 - dn) * 2 ^ jD * (2 ^ 52 + 1) * (1000 * 2 ^ 43))
      by ring.
    exact CU. }
  assert (CL' : 1000 * Zpos n * (2 ^ 52 - 1) * 2 ^ L
                <= PE * Zpos d * (2 ^ 52 + 1)).
  { rewrite HT. unfold PE.
    replace (Zpos mR * 2 ^ jR * 2 ^ (- ed) * Zpos d * (2 ^ 52 + 1))
      with (Zpos mR * 2 ^ jR * (Zpos d * 2 ^ (- ed)) * (2 ^ 52 + 1)) by ring.
    replace (1000 * Zpos n * (2 ^ 52 - 1) * (2 ^ 43 * 2 ^ jD * 2 ^ (53 - dn)))
      with (Zpos n * 2 ^ (53 - dn) * (2 ^ 52 - 1) * 2 ^ jD * (1000 * 2 ^ 43))
      by ring.
    exact CL. }
  clearbody PE. clear CU CL.
  split.
  - intros c Hc. apply (trunc_lt _ _ L); [exact HL | lia|].
    rewrite HPE.
    apply (Z.mul_lt_mono_pos_r (Zpos d * (2 ^ 52 - 1))); [lia|].
    apply Z.le_lt_trans with (1000 * Zpos n * (2 ^ 52 + 1) * 2 ^ L).
    + replace (PE * (Zpos d * (2 ^ 52 - 1))) with (PE * Zpos d * (2 ^ 52 - 1))
        by ring.
      exact CU'.
    + replace (c * 2 ^ L * (Zpos d * (2 ^ 52 - 1)))
        with (c * Zpos d * (2 ^ 52 - 1) * 2 ^ L) by ring.
      apply Z.mul_lt_mono_pos_r; [exact HTp | exact Hc].
  - intros c Hc. apply (trunc_ge _ _ L); [exact HL | lia|].
    rewrite HPE.
    apply (Z.mul_le_mono_pos_r _ _ (Zpos d * (2 ^ 52 + 1))); [lia|].
    transitivity (1000 * Zpos n * (2 ^ 52 - 1) * 2 ^ L).
    + replace (c * 2 ^ L * (Zpos d * (2 ^ 52 + 1)))
        with (c * Zpos d * (2 ^ 52 + 1) * 2 ^ L) by ring.
      apply Z.mul_le_mono_nonneg_r; [lia | exact Hc].
    + replace (PE * (Zpos d * (2 ^ 52 + 1))) with (PE * Zpos d * (2 ^ 52 + 1))
        by ring.
      exact CL'.
Qed.

(** the elapsed time in seconds is a finite number other than 0 *)
Lemma duration_finite (s : bool) (m : positive) (e : Z) :
  2 ^ 52 <= Zpos m < 2 ^ 53 -> -52 <= e <= 0 ->
  exists mD eD,
    Double.div (S754_finite s m e) (Double.of_Z 1000) = S754_finite s mD eD.
Proof.
  intros Bm He. rewrite of_Z_1000.
  destruct (div_bounds s false m 8796093022208000 e (-43) Bm
              ltac:(vm_compute; split; [discriminate | reflexivity])
              ltac:(lia))
    as (mD & jD & ED & _).
  rewrite ED. replace (xorb s false) with s by (destruct s; reflexivity).
  now do 2 eexists.
Qed.

Lemma write_sample_forward (start_ms end_ms n : Z) :
  0 <= start_ms -> start_ms < end_ms -> end_ms < 2 ^ 53 ->
  0 <= n -> 1000 * n + (end_ms - start_ms) < 2 ^ 51 ->
  exists v,
    write_sample start_ms end_ms n = Some v /\
    1000 * n / (end_ms - start_ms) - 1 <= v <= 1000 * n / (end_ms - start_ms) /\
    0 <= v.
Proof.
  intros H0 Hse He Hn Hsmall.
  destruct (sub_exact_neg start_ms end_ms H0 Hse He)
    as (m & e & Hee & Hm & Bm & S & _).
  unfold write_sample.
  destruct (Z.eqb_spec start_ms end_ms) as [|_]; [lia|].
  rewrite S.
  set (d := end_ms - start_ms) in *.
  assert (Hd : 0 < d < 2 ^ 53) by (unfold d; lia).
  pose proof (Z.mul_div_le (1000 * n) d ltac:(lia)) as K1.
  pose proof (Z.mul_succ_div_gt (1000 * n) d ltac:(lia)) as K2.
  assert (K0 : 0 <= 1000 * n / d) by (apply Z.div_pos; lia).
  set (k := 1000 * n / d) in *.
  destruct n as [|pn|pn]; [| |lia].
  - (* no bytes *)
    destruct (duration_finite false m e Bm Hee) as (mD & eD & ->).
    exists 0. split; [reflexivity|].
    assert (k = 0) by (unfold k; apply Z.div_0_l; lia). lia.
  - destruct d as [|pd|pd] eqn:Ed; try lia.
    change (2 ^ 51) with 2251799813685248 in Hsmall.
    destruct (sample_bounds false pn pd m e
                ltac:(change (2 ^ 53) with 9007199254740992; lia)
                ltac:(lia) Hee Hm Bm)
      as (mR & eR & ER & Up & Lo).
    rewrite ER. cbn [Double.to_uint64].
    change (2 ^ 52 + 1) with 4503599627370497 in *.
    change (2 ^ 52 - 1) with 4503599627370495 in *.
    assert (T1 : Double.trunc mR eR < k + 1).
    { apply Up. clear Up Lo. unfold Z.succ in K2.
      replace ((k + 1) * Zpos pd) with (Zpos pd * (k + 1)) by ring. lia. }
    assert (T2 : k - 1 <= Double.trunc mR eR).
    { apply Lo. clear Up Lo.
      replace ((k - 1) * Zpos pd) with (Zpos pd * k - Zpos pd) by ring. lia. }
    pose proof (trunc_nonneg mR eR) as T0.
    assert (Kb : k < 2251799813685248).
    { unfold k. apply Z.div_lt_upper_bound; [lia|]. nia. }
    destruct (Z.ltb_spec (Double.trunc mR eR) U64.modulus) as [_|G].
    + eexists. split; [reflexivity|]. lia.
    + rewrite modulus_eq in G. lia.
Qed.

Lemma write_sample_backward (start_ms end_ms : Z) (n : positive) :
  0 <= end_ms -> end_ms < start_ms -> start_ms < 2 ^ 53 ->
  Zpos n < 2 ^ 53 ->
  (write_sample start_ms end_ms (Zpos n) = None \/
   write_sample start_ms end_ms (Zpos n) = Some 0) /\
  (start_ms - end_ms <= 500 * Zpos n ->
   write_sample start_ms end_ms (Zpos n) = None).
Proof.
  intros H0 Hes Hs Hn.
  destruct (sub_exact_neg end_ms start_ms H0 Hes Hs)
    as (m & e & Hee & Hm & Bm & _ & S).
  unfold write_sample.
  destruct (Z.eqb_spec start_ms end_ms) as [|_]; [lia|].
  rewrite S.
  destruct (start_ms - end_ms) as [|pd|pd] eqn:Ed; try lia.
  destruct (sample_bounds true n pd m e Hn ltac:(lia) Hee Hm Bm)
    as (mR & eR & ER & _ & Lo).
  rewrite ER. cbn [Double.to_uint64].
  split.
  - destruct (Double.trunc mR eR =? 0); [now right | now left].
  - intros Hgap.
    assert (T : 1 <= Double.trunc mR eR).
    { apply Lo.
      change (2 ^ 52 + 1) with 4503599627370497.
      change (2 ^ 52 - 1) with 4503599627370495. lia. }
    destruct (Z.eqb_spec (Double.trunc mR eR) 0); [lia | reflexivity].
Qed.

Lemma write_sample_no_bytes (start_ms end_ms : Z) :
  0 <= start_ms < 2 ^ 53 -> 0 <= end_ms < 2 ^ 53 ->
  write_sample start_ms end_ms 0 = Some 0.
Proof.
  intros Hs He. unfold write_sample.
  destruct (Z.eqb_spec start_ms end_ms) as [|Hne]; [reflexivity|].
  change (Double.of_uint64 0) with (S754_zero false).
  destruct (Z.lt_ge_cases start_ms end_ms) as [L|G].
  - destruct (sub_exact_neg start_ms end_ms ltac:(lia) L ltac:(lia))
      as (m & e & Hee & _ & Bm & S & _).
    rewrite S. destruct (duration_finite false m e Bm Hee) as (mD & eD & ->).
    reflexivity.
  - destruct (sub_exact_neg end_ms start_ms ltac:(lia) ltac:(lia) ltac:(lia))
      as (m & e & Hee & _ & Bm & _ & S).
    rewrite S. destruct (duration_finite true m e Bm Hee) as (mD & eD & ->).
    reflexivity.
Qed.

(** ** The factor chosen by the controller *)

Lemma multiplier_overload (adjusted target : Z) :
  target < adjusted ->
  multiplier adjusted target = Double.dec 75 100 \/
  multiplier adjusted target = Double.dec 95 100 \/
  multiplier adjusted target = Double.dec 99 100 \/
  multiplier adjusted target = Double.dec 995 1000.
Proof.
  intros H. unfold multiplier.
  destruct (Z.gtb_spec adjusted target) as [_|]; [|lia].
  destruct (Double.gtb _ _); [now left|].
  destruct (Double.gtb _ _); [now right; left|].
  destruct (Double.gtb _ _); [now right; right; left|].
  now right; right; right.
Qed.

Lemma multiplier_underload (adjusted target : Z) :
  adjusted <= target ->
  multiplier adjusted target = Double.dec 125 100 \/
  multiplier adjusted target = Double.dec 105 100 \/
  multiplier adjusted target = Double.dec 101 100 \/
  multiplier adjusted target = Double.dec 1005 1000.
Proof.
  intros H. unfold multiplier.
  destruct (Z.gtb_spec adjusted target) as [|_]; [lia|].
  destruct (Double.ltb _ _); [now left|].
  destruct (Double.ltb _ _); [now right; left|].
  destruct (Double.ltb _ _); [now right; right; left|].
  now right; right; right.
Qed.

Lemma multiplier_in_table (adjusted target : Z) :
  exists n d,
    In (n, d) [(75, 100); (95, 100); (99, 100); (995, 1000);
               (125, 100); (105, 100); (101, 100); (1005, 1000)] /\
    multiplier adjusted target = Double.dec n d.
Proof.
  destruct (Z.lt_ge_cases target adjusted) as [H|H].
  - destruct (multiplier_overload adjusted target H) as [E|[E|[E|E]]];
      rewrite E; do 2 eexists; (split; [|reflexivity]); cbn; tauto.
  - destruct (multiplier_underload adjusted target H) as [E|[E|[E|E]]];
      rewrite E; do 2 eexists; (split; [|reflexivity]); cbn; tauto.
Qed.

(** ** The ratio against a threshold *)










(** ** The band table in exact arithmetic *)





(** ** Invariants of the reachable states *)

Lemma run_invariant (P : RateLimiter -> Prop) :
  (forall c s s', P s -> exec c s = Some s' -> P s') ->
  forall cs s s', P s -> run cs s = Some s' -> P s'.
Proof.
  intros Hstep. induction cs as [|c cs IH]; simpl; intros s s' Hs Hrun.
  - now injection Hrun as <-.
  - destruct (exec c s) as [s1|] eqn:E; [|discriminate].
    eapply IH; [|exact Hrun]. eapply Hstep; eauto.
Qed.

Lemma reachable_invariant (P : RateLimiter -> Prop) :
  (forall rate_limit ws we, P (RateLimiter_new rate_limit ws we)) ->
  (forall c s s', P s -> exec c s = Some s' -> P s') ->
  forall s, reachable s -> P s.
Proof.
  intros Hnew Hstep s (l & ws & we & cs & Hrun).
  eapply run_invariant; eauto.
Qed.

Lemma reachable_exec (c : call) (s s' : RateLimiter) :
  reachable s -> exec c s = Some s' -> reachable s'.
Proof.
  intros (l & ws & we & cs & Hrun) Hc.
  exists l, ws, we, (cs ++ [c]).
  revert Hrun. generalize (RateLimiter_new l ws we).
  induction cs as [|c0 cs IH]; simpl; intros s0 Hrun.
  - injection Hrun as ->. now rewrite Hc.
  - destruct (exec c0 s0); [now apply IH | discriminate].
Qed.

(** The fields an invariant speaks about, after each kind of call. *)

Lemma rollover_coefficient (s s' : RateLimiter) :
  rollover s = Some s' ->
  exists v, scale (bytes_per_microsecond_ s)
                  (multiplier (adjusted_arrival s) (GetWritingRate s)) = Some v
            /\ bytes_per_microsecond_ s' = bump v
            /\ rate_arriving_adjusted_ s' = adjusted_arrival s.
Proof.
  unfold rollover. intros H.
  destruct (scale _ _) as [v|]; [|discriminate].
  injection H as <-. exists v. repeat split.
Qed.

Lemma rollover_coefficient_ge_1 (s s' : RateLimiter) :
  rollover s = Some s' -> 1 <= bytes_per_microsecond_ s' < U64.modulus.
Proof.
  intros H. destruct (rollover_coefficient _ _ H) as (v & Hv & -> & _).
  apply bump_ge_1. eapply scale_range; eauto.
Qed.

Lemma Tick_cases (now bytes : Z) (s s' : RateLimiter) (slept : Z) :
  Tick now bytes s = Some (s', slept) ->
  (U64.wrap now = epoch_last_ s /\
   (s', slept) = account (U64.wrap bytes) (set_epoch_current now s)) \/
  (U64.wrap now <> epoch_last_ s /\
   exists s2, rollover (set_epoch_current now s) = Some s2 /\
              (s', slept) = account (U64.wrap bytes) s2).
Proof.
  unfold Tick. cbn [set_epoch_current epoch_current_ epoch_last_].
  destruct (Z.eqb_spec (U64.wrap now) (epoch_last_ s)) as [E|E].
  - intros [= <- <-]. now left.
  - destruct (rollover _) as [s2|] eqn:R; [|discriminate].
    intros [= <- <-]. right. split; [exact E|]. now exists s2.
Qed.

Lemma StoreWritingRate_length (x : Z) (h : list Z) :
  (length h <= 10)%nat -> (length (StoreWritingRate x h) <= 10)%nat.
Proof.
  intros H. unfold StoreWritingRate.
  destruct (Z.leb_spec 10 (Z.of_nat (length h))).
  - rewrite length_app. destruct h; simpl in *; lia.
  - rewrite length_app. simpl. lia.
Qed.

Lemma wf_new (rate_limit ws we : Z) : wf (RateLimiter_new rate_limit ws we).
Proof. split; simpl; rewrite ?modulus_eq; lia. Qed.

Lemma wf_account (bytes : Z) (s : RateLimiter) :
  wf s -> wf (fst (account bytes s)).
Proof.
  intros [Hc Ha Hs Hh]. split; simpl; auto using add_range.
  destruct (_ =? 0); auto using add_range.
Qed.

Lemma wf_rollover (s s' : RateLimiter) :
  wf s -> rollover s = Some s' -> wf s'.
Proof.
  intros [Hc Ha Hs Hh] H.
  pose proof (rollover_coefficient_ge_1 _ _ H) as Hc'.
  unfold rollover in H. destruct (scale _ _); [|discriminate].
  injection H as <-. split; simpl in *; rewrite ?modulus_eq; auto; lia.
Qed.

Lemma wf_exec (c : call) (s s' : RateLimiter) :
  wf s -> exec c s = Some s' -> wf s'.
Proof.
  intros Hwf. destruct c as [now bytes | now_ms | now_ms n | rate]; simpl.
  - destruct (Tick now bytes s) as [[s1 slept]|] eqn:T; [|discriminate].
    intros [= <-].
    destruct (Tick_cases _ _ _ _ _ T) as [[_ E] | [_ (s2 & R & E)]].
    + replace s1 with (fst (account (U64.wrap bytes) (set_epoch_current now s)))
        by now rewrite <- E.
      apply wf_account. destruct Hwf. now split.
    + replace s1 with (fst (account (U64.wrap bytes) s2)) by now rewrite <- E.
      apply wf_account. eapply wf_rollover; [|exact R].
      destruct Hwf. now split.
  - intros [= <-]. destruct Hwf. now split.
  - unfold WriteEnd. destruct (write_sample _ _ _); [|discriminate].
    intros [= <-]. destruct Hwf. split; simpl; auto.
    now apply StoreWritingRate_length.
  - intros [= <-]. destruct Hwf. split; simpl; auto.
    now apply StoreWritingRate_length.
Qed.

Lemma reachable_wf (s : RateLimiter) : reachable s -> wf s.
Proof.
  apply reachable_invariant; [apply wf_new | apply wf_exec].
Qed.

(** ** C1: the coefficient never drops below 1 *)

(** C1.  In every reachable state of the limiter, that is after the
    construction and after any sequence of [Tick], [WriteStart],
    [WriteEnd] and [StoreWritingRate] calls at any clock readings and
    with any arguments,
    [bytes_per_microsecond_] is at least 1; so it is after a further
    [Tick], and right after the adjustment of a rollover branch, which
    leaves a coefficient of at least 1 whatever it started from. *)
Theorem coefficient_at_least_1
  (now bytes : Z) (s s' s2 : RateLimiter) (slept : Z) :
  reachable s ->
  1 <= bytes_per_microsecond_ s /\
  (Tick now bytes s = Some (s', slept) -> 1 <= bytes_per_microsecond_ s') /\
  (rollover (set_epoch_current now s) = Some s2 ->
   1 <= bytes_per_microsecond_ s2).
Proof.
  intros R. split; [|split].
  - apply reachable_wf in R. destruct R as [Hc _ _ _]. lia.
  - intros T.
    assert (R' : reachable s')
      by (apply (reachable_exec (CallTick now bytes) s); [exact R|];
          simpl; now rewrite T).
    apply reachable_wf in R'. destruct R' as [Hc _ _ _]. lia.
  - intros Ro. apply rollover_coefficient_ge_1 in Ro. lia.
Qed.

Lemma coefficient_at_least_1_witness :
  let s := {| epoch_write_start_ := 0; epoch_write_end_ := 0;
              rate_limit_ := 0; rate_arriving_ := 100;
              rate_arriving_adjusted_ := 262144000;
              epoch_last_ := 1; epoch_current_ := 1;
              duration_slept_ := 25; bytes_per_microsecond_ := 4;
              rates_ := [] |} in
  reachable s /\ 1 <= bytes_per_microsecond_ s.
Proof.
  intros s.
  assert (R : reachable s)
    by (exists 0, 0, 0, [CallTick 1 100]; vm_compute; reflexivity).
  split; [exact R|].
  exact (proj1 (coefficient_at_least_1 2 0 s s s 0 R)).
Defined.

(** ** C2 and C5: what [GetWritingRate] returns *)

Lemma fold_add_wrap (l : list Z) (a : Z) :
  0 <= a < U64.modulus ->
  fold_left U64.add l a = U64.wrap (a + Zsum l).
Proof.
  revert a. induction l as [|x l IH]; intros a Ha; simpl.
  - rewrite Z.add_0_r. symmetry. now apply wrap_small.
  - rewrite IH by apply add_range.
    unfold U64.add, U64.wrap. rewrite Zplus_mod_idemp_l.
    f_equal. lia.
Qed.

Lemma sum_rates_wrap (l : list Z) : sum_rates l = U64.wrap (Zsum l).
Proof.
  unfold sum_rates. rewrite fold_add_wrap by (rewrite modulus_eq; lia).
  reflexivity.
Qed.

Lemma sum_rates_range (l : list Z) : 0 <= sum_rates l < U64.modulus.
Proof. rewrite sum_rates_wrap. apply wrap_range. Qed.

Lemma GetWritingRate_nonempty (s : RateLimiter) :
  rates_ s <> [] ->
  GetWritingRate s =
    if (0 <? rate_limit_ s) && (rate_limit_ s <? mean_rate (rates_ s))
    then rate_limit_ s else mean_rate (rates_ s).
Proof.
  unfold GetWritingRate, mean_rate. destruct (rates_ s); [congruence|].
  reflexivity.
Qed.

Lemma mean_rate_pos (rates : list Z) :
  rates <> [] ->
  (0 < mean_rate rates <-> Z.of_nat (length rates) <= sum_rates rates).
Proof.
  intros Hne. unfold mean_rate.
  assert (Hn : 0 < Z.of_nat (length rates))
    by (destruct rates; [congruence | simpl length; lia]).
  pose proof (sum_rates_range rates) as Hs.
  split; intros H.
  - destruct (Z.le_gt_cases (Z.of_nat (length rates)) (sum_rates rates))
      as [L|L]; [exact L|].
    rewrite Z.div_small in H by lia. lia.
  - apply Z.div_str_pos. lia.
Qed.

(** C2, the claim as it is written: [GetWritingRate] is positive in every
    reachable state.  It fails after [WriteStart()] and, half a second
    later, [WriteEnd(0)]: the one sample of the history is 0, and so is
    the mean. *)
Lemma GetWritingRate_can_be_zero :
  ~ (forall s : RateLimiter, reachable s -> 0 < GetWritingRate s).
Proof.
  intros H.
  specialize (H {| epoch_write_start_ := 1000; epoch_write_end_ := 1500;
                   rate_limit_ := 0; rate_arriving_ := 262144000;
                   rate_arriving_adjusted_ := 0;
                   epoch_last_ := 0; epoch_current_ := 0;
                   duration_slept_ := 0; bytes_per_microsecond_ := 5;
                   rates_ := [0] |}).
  assert (0 < 0); [|lia].
  apply H.
  exists 0, 0, 0, [CallWriteStart 1000; CallWriteEnd 1500 0].
  vm_compute. reflexivity.
Qed.

(** C2, amended.  [GetWritingRate] returns a positive value exactly when
    the history is empty or the samples, summed as [uint64_t], add up to
    at least their number; otherwise it returns 0. *)
Theorem GetWritingRate_positive_iff (s : RateLimiter) :
  (0 < GetWritingRate s <->
   rates_ s = [] \/ Z.of_nat (length (rates_ s)) <= sum_rates (rates_ s)) /\
  0 <= GetWritingRate s.
Proof.
  destruct (rates_ s) as [|x l] eqn:E.
  - unfold GetWritingRate. rewrite E. simpl. split; [|lia].
    split; [now left | lia].
  - assert (Hne : rates_ s <> []) by (rewrite E; discriminate).
    rewrite (GetWritingRate_nonempty s Hne), E.
    pose proof (mean_rate_pos (x :: l) ltac:(discriminate)) as Hm.
    assert (Hm0 : 0 <= mean_rate (x :: l)).
    { unfold mean_rate. pose proof (sum_rates_range (x :: l)).
      apply Z.div_pos; [lia | simpl length; lia]. }
    destruct (Z.ltb_spec 0 (rate_limit_ s)) as [L|L]; simpl;
      [destruct (Z.ltb_spec (rate_limit_ s) (mean_rate (x :: l))) as [L'|L']|].
    + split; [|lia]. split; [intros _; right; apply Hm; lia | lia].
    + split; [|lia]. split; [intros H; right; now apply Hm|].
      intros [H|H]; [discriminate | now apply Hm].
    + split; [|lia]. split; [intros H; right; now apply Hm|].
      intros [H|H]; [discriminate | now apply Hm].
Qed.

(** C5, the claim as it is written.  It fails once the samples add up to
    2^64 or more: after two calls [WriteEnd(2^63)], each in the
    millisecond of its [WriteStart()], the mean of the two samples is
    2^63 and [GetWritingRate] returns 0. *)
Lemma GetWritingRate_is_not_the_mean :
  ~ (forall s : RateLimiter, reachable s ->
       GetWritingRate s = GetWritingRate_spec s).
Proof.
  intros H.
  specialize (H {| epoch_write_start_ := 8; epoch_write_end_ := 8;
                   rate_limit_ := 0; rate_arriving_ := 262144000;
                   rate_arriving_adjusted_ := 0;
                   epoch_last_ := 0; epoch_current_ := 0;
                   duration_slept_ := 0; bytes_per_microsecond_ := 5;
                   rates_ := [2 ^ 63; 2 ^ 63] |}).
  assert (E : 0 = 2 ^ 63); [|discriminate E].
  apply H.
  exists 0, 0, 0, [CallWriteStart 7; CallWriteEnd 7 (2 ^ 63);
                   CallWriteStart 8; CallWriteEnd 8 (2 ^ 63)].
  vm_compute. reflexivity.
Qed.

(** C5, amended.  [GetWritingRate] returns 1,048,576 on an empty history.
    On a non-empty one it returns the sum of the samples modulo 2^64
    divided by their number, rounded down, or the ceiling when that is
    not 0 and below this quotient; the quotient is the mean of the
    samples, rounded down, whenever their sum is below 2^64. *)
Theorem GetWritingRate_wrapped_mean (s : RateLimiter) :
  GetWritingRate s =
    match rates_ s with
    | [] => 1048576
    | _ =>
        let mean := (Zsum (rates_ s) mod 2 ^ 64) / Z.of_nat (length (rates_ s)) in
        if (0 <? rate_limit_ s) && (rate_limit_ s <? mean)
        then rate_limit_ s else mean
    end /\
  (0 <= Zsum (rates_ s) < 2 ^ 64 -> GetWritingRate s = GetWritingRate_spec s).
Proof.
  assert (G : GetWritingRate s =
    match rates_ s with
    | [] => 1048576
    | _ =>
        let mean := (Zsum (rates_ s) mod 2 ^ 64) / Z.of_nat (length (rates_ s)) in
        if (0 <? rate_limit_ s) && (rate_limit_ s <? mean)
        then rate_limit_ s else mean
    end).
  { unfold GetWritingRate. destruct (rates_ s) as [|x l]; [reflexivity|].
    cbv zeta. rewrite sum_rates_wrap. reflexivity. }
  split; [exact G|].
  intros Hs. rewrite G. unfold GetWritingRate_spec, mean_spec.
  destruct (rates_ s) as [|x l]; [reflexivity|].
  cbv zeta. rewrite (Z.mod_small _ _ Hs). reflexivity.
Qed.

(** ** C3: one call sleeps at most 50 ms *)

Lemma sleep_microseconds_spec (bytes c : Z) :
  0 <= bytes -> 1 <= c ->
  sleep_microseconds bytes c = Z.min (bytes / c) 50000.
Proof.
  intros Hb Hc. unfold sleep_microseconds.
  destruct (Z.gtb_spec c 0); [|lia].
  destruct (Z.gtb_spec (bytes / c) 50000); lia.
Qed.

Lemma account_result (bytes : Z) (s s' : RateLimiter) (slept : Z) :
  (s', slept) = account bytes s ->
  slept = sleep_microseconds bytes (bytes_per_microsecond_ s) /\
  bytes_per_microsecond_ s' = bytes_per_microsecond_ s.
Proof. unfold account. intros [= -> ->]. now split. Qed.

(** The state in which [Tick] computes the sleep: the one it was called
    in or the one the rollover branch leaves. *)
Lemma Tick_sleep (now bytes : Z) (s s' : RateLimiter) (slept : Z) :
  Tick now bytes s = Some (s', slept) ->
  slept = sleep_microseconds (U64.wrap bytes) (bytes_per_microsecond_ s').
Proof.
  intros T.
  destruct (Tick_cases _ _ _ _ _ T) as [[_ E] | [_ (s2 & _ & E)]];
    apply account_result in E; destruct E as [-> ->]; reflexivity.
Qed.

(** C3.  In a reachable state, a call [Tick(bytes_arriving)] whose
    argument is a [uint64_t] sleeps [bytes_arriving / coefficient]
    microseconds clamped to 50,000, the coefficient being the one in
    force after the rollover branch: never more than 50,000. *)
Theorem Tick_sleeps_at_most_50ms
  (now bytes_arriving : Z) (s s' : RateLimiter) (slept : Z) :
  reachable s ->
  0 <= bytes_arriving < U64.modulus ->
  Tick now bytes_arriving s = Some (s', slept) ->
  slept = Z.min (bytes_arriving / bytes_per_microsecond_ s') 50000 /\
  0 <= slept <= 50000.
Proof.
  intros R Hb T.
  assert (R' : reachable s')
    by (apply (reachable_exec (CallTick now bytes_arriving) s); [exact R|];
        simpl; now rewrite T).
  apply reachable_wf in R'. destruct R' as [Hc _ _ _].
  rewrite (Tick_sleep _ _ _ _ _ T), (wrap_small _ Hb).
  rewrite sleep_microseconds_spec by lia.
  split; [reflexivity|].
  assert (0 <= bytes_arriving / bytes_per_microsecond_ s')
    by (apply Z.div_pos; lia).
  lia.
Qed.

Lemma Tick_sleeps_at_most_50ms_witness :
  let s := RateLimiter_new 0 0 0 in
  let s' := {| epoch_write_start_ := 0; epoch_write_end_ := 0;
               rate_limit_ := 0; rate_arriving_ := 1000000;
               rate_arriving_adjusted_ := 262144000;
               epoch_last_ := 1; epoch_current_ := 1;
               duration_slept_ := 50000; bytes_per_microsecond_ := 4;
               rates_ := [] |} in
  reachable s /\ 0 <= 1000000 < U64.modulus /\
  Tick 1 1000000 s = Some (s', 50000) /\
  50000 = Z.min (1000000 / bytes_per_microsecond_ s') 50000 /\
  0 <= 50000 <= 50000.
Proof.
  intros s s'.
  assert (R : reachable s) by (exists 0, 0, 0, []; reflexivity).
  assert (B : 0 <= 1000000 < U64.modulus) by (rewrite modulus_eq; lia).
  assert (T : Tick 1 1000000 s = Some (s', 50000)) by (vm_compute; reflexivity).
  repeat split; try assumption;
    apply (Tick_sleeps_at_most_50ms 1 1000000 s s' 50000 R B T).
Defined.

(** ** C4: the controller step *)

Lemma Tick_rollover_coefficient (now bytes : Z) (s : RateLimiter) :
  U64.wrap now <> epoch_last_ s ->
  option_map (fun r => bytes_per_microsecond_ (fst r)) (Tick now bytes s) =
  option_map bump
    (scale (bytes_per_microsecond_ s)
           (multiplier (adjusted_arrival s) (GetWritingRate s))).
Proof.
  intros Hne. unfold Tick.
  cbn [set_epoch_current epoch_current_ epoch_last_].
  destruct (Z.eqb_spec (U64.wrap now) (epoch_last_ s)) as [E|_];
    [contradiction|].
  unfold rollover.
  change (adjusted_arrival (set_epoch_current now s))
    with (adjusted_arrival s).
  change (GetWritingRate (set_epoch_current now s)) with (GetWritingRate s).
  change (bytes_per_microsecond_ (set_epoch_current now s))
    with (bytes_per_microsecond_ s).
  destruct (scale _ _) as [v|]; reflexivity.
Qed.



(** The product is the binary64 one.  The literal 1.005 is the binary64
    number 1.00499999999999989...; 200 times it rounds to
    200.99999999999997..., and the conversion leaves 200. *)
Lemma scale_200_by_1005 : scale 200 (Double.dec 1005 1000) = Some 200.
Proof. vm_compute. reflexivity. Qed.

(** each factor of the controller's table, applied to a coefficient
    below 2^40: the integer part of the exact product, or one less *)
Lemma scale_by_table_factor (c n d : Z) :
  In (n, d) [(75, 100); (95, 100); (99, 100); (995, 1000);
             (125, 100); (105, 100); (101, 100); (1005, 1000)] ->
  0 < c < 2 ^ 40 ->
  exists v, scale c (Double.dec n d) = Some v /\
            c * n / d - 1 <= v <= c * n / d.
Proof.
  intros Hin Hc. simpl in Hin.
  repeat (destruct Hin as [Hin|Hin];
          [injection Hin as <- <-;
           match goal with
           | |- context [Double.dec ?a ?b] =>
               let x := eval vm_compute in (Double.dec a b) in
               change (Double.dec a b) with x
           end;
           apply scale_near; try assumption; vm_compute;
           repeat split; discriminate|]).
  contradiction.
Qed.





(** ** C6: the history is a FIFO of at most 10 samples *)

Lemma store_all_snoc (xs : list Z) (x : Z) (h : list Z) :
  store_all (xs ++ [x]) h = StoreWritingRate x (store_all xs h).
Proof. unfold store_all. now rewrite fold_left_app. Qed.

Lemma store_all_length (xs h : list Z) :
  (length h <= 10)%nat -> (length (store_all xs h) <= 10)%nat.
Proof.
  revert h. induction xs as [|x xs IH]; intros h H; simpl; [exact H|].
  apply IH. now apply StoreWritingRate_length.
Qed.

Lemma tl_skipn {A : Type} (k : nat) (l : list A) :
  tl (skipn k l) = skipn (S k) l.
Proof.
  revert l. induction k as [|k IH]; intros [|a l]; simpl; auto.
Qed.

(** Storing [xs] into an empty history leaves its last 10 elements. *)
Lemma store_all_last_10 (xs : list Z) :
  store_all xs [] = skipn (length xs - 10) xs.
Proof.
  induction xs as [|x xs IH] using rev_ind; [reflexivity|].
  rewrite store_all_snoc, IH, length_app. simpl length.
  unfold StoreWritingRate. rewrite length_skipn.
  destruct (Z.leb_spec 10 (Z.of_nat (length xs - (length xs - 10)))) as [H|H].
  - rewrite tl_skipn.
    replace (length xs + 1 - 10)%nat with (S (length xs - 10)) by lia.
    rewrite skipn_app.
    replace (S (length xs - 10) - length xs)%nat with 0%nat by lia.
    reflexivity.
  - replace (length xs + 1 - 10)%nat with 0%nat by lia.
    replace (length xs - 10)%nat with 0%nat by lia.
    reflexivity.
Qed.

(** C6.  The history of a reachable state has at most 10 samples and
    keeps that bound however many samples are stored next; samples
    stored into an empty history leave the last 10 of them in the order
    of arrival, so that the 11th one evicts the 1st one and no other. *)
Theorem history_is_bounded_fifo
  (s : RateLimiter) (samples : list Z)
  (x1 x2 x3 x4 x5 x6 x7 x8 x9 x10 x11 : Z) :
  reachable s ->
  (length (rates_ s) <= 10)%nat /\
  (length (store_all samples (rates_ s)) <= 10)%nat /\
  store_all samples [] = skipn (length samples - 10) samples /\
  store_all [x1; x2; x3; x4; x5; x6; x7; x8; x9; x10] [] =
    [x1; x2; x3; x4; x5; x6; x7; x8; x9; x10] /\
  StoreWritingRate x11 [x1; x2; x3; x4; x5; x6; x7; x8; x9; x10] =
    [x2; x3; x4; x5; x6; x7; x8; x9; x10; x11].
Proof.
  intros R. apply reachable_wf in R. destruct R as [_ _ _ Hh].
  split; [exact Hh|].
  split; [now apply store_all_length|].
  split; [apply store_all_last_10|].
  split; reflexivity.
Qed.

Lemma history_is_bounded_fifo_witness :
  reachable (RateLimiter_new 0 0 0) /\
  store_all [1; 2; 3; 4; 5; 6; 7; 8; 9; 10; 11; 12] [] =
    [3; 4; 5; 6; 7; 8; 9; 10; 11; 12].
Proof.
  assert (R : reachable (RateLimiter_new 0 0 0))
    by (exists 0, 0, 0, []; reflexivity).
  split; [exact R|].
  exact (proj1 (proj2 (proj2
    (history_is_bounded_fifo (RateLimiter_new 0 0 0)
       [1; 2; 3; 4; 5; 6; 7; 8; 9; 10; 11; 12]
       0 0 0 0 0 0 0 0 0 0 0 R)))).
Defined.

(** ** C7: the sample [WriteEnd] stores *)

Lemma WriteEnd_rates (now_ms n : Z) (s : RateLimiter) :
  option_map rates_ (WriteEnd now_ms n s) =
  option_map (fun x => StoreWritingRate x (rates_ s))
             (write_sample (epoch_write_start_ s) (U64.wrap now_ms) (U64.wrap n)).
Proof.
  unfold WriteEnd. destruct (write_sample _ _ _); reflexivity.
Qed.

Lemma sample_500ms :
  Double.to_uint64
    (Double.div (Double.of_uint64 1000000)
                (Double.div (Double.of_Z 500) (Double.of_Z 1000)))
  = Some 2000000.
Proof. vm_compute. reflexivity. Qed.

(** The quotient is the binary64 one.  17 / 1000 rounds to
    0.017000000000000001..., and 17 divided by it rounds to
    999.99999999999988...: 17 bytes written in 17 ms are stored as 999. *)
Lemma sample_17_bytes_in_17_ms : write_sample 1000 1017 17 = Some 999.
Proof. vm_compute. reflexivity. Qed.

(** C7, as stated, fails.  [WriteStart()] at 1000 ms and [WriteEnd(17)]
    at 1017 ms: 17 bytes divided by 0.017 seconds are 1000 bytes per
    second exactly, and the sample stored is 999. *)
Lemma WriteEnd_sample_is_not_the_quotient :
  ~ (forall (now_ms n : Z) (s s' : RateLimiter),
       reachable s -> WriteEnd now_ms n s = Some s' ->
       rates_ s' =
       StoreWritingRate
         (sample_spec (epoch_write_start_ s) (U64.wrap now_ms) (U64.wrap n))
         (rates_ s)).
Proof.
  intros H.
  assert (R : reachable (WriteStart 1000 (RateLimiter_new 0 0 0)))
    by (exists 0, 0, 0, [CallWriteStart 1000]; reflexivity).
  destruct (WriteEnd 1017 17 (WriteStart 1000 (RateLimiter_new 0 0 0)))
    as [s'|] eqn:E; [|vm_compute in E; discriminate E].
  specialize (H 1017 17 _ s' R E).
  vm_compute in E. injection E as <-.
  vm_compute in H. discriminate H.
Qed.

(** C7.  [WriteEnd] stores the byte count itself when it reads the
    millisecond of [WriteStart].  After a positive elapsed time, with
    clock readings below 2^53 ms and 1000 x bytes + elapsed below 2^51,
    it stores the byte count divided by the elapsed seconds,
    (end - start) / 1000, up to the rounding of the two binary64
    divisions: the integer part of the exact quotient, or one less.
    [WriteStart()] at a clock reading t with t + 500 below 2^53,
    followed 500 ms later by [WriteEnd(1000000)], stores 2,000,000,
    whatever the state before. *)
Theorem WriteEnd_stores_bytes_per_second
  (now_ms n t : Z) (s : RateLimiter) :
  (epoch_write_start_ s = U64.wrap now_ms ->
   option_map rates_ (WriteEnd now_ms n s) =
   Some (StoreWritingRate (U64.wrap n) (rates_ s))) /\
  (0 <= epoch_write_start_ s < now_ms -> now_ms < 2 ^ 53 ->
   0 <= n -> 1000 * n + (now_ms - epoch_write_start_ s) < 2 ^ 51 ->
   exists v,
     option_map rates_ (WriteEnd now_ms n s) =
       Some (StoreWritingRate v (rates_ s)) /\
     sample_spec (epoch_write_start_ s) now_ms n - 1 <= v
       <= sample_spec (epoch_write_start_ s) now_ms n) /\
  (0 <= t -> t + 500 < 2 ^ 53 ->
   option_map rates_ (WriteEnd (t + 500) 1000000 (WriteStart t s)) =
   Some (StoreWritingRate 2000000 (rates_ s))).
Proof.
  split; [|split].
  - intros E. rewrite WriteEnd_rates. unfold write_sample.
    rewrite (proj2 (Z.eqb_eq _ _) E). reflexivity.
  - intros [H0 Hlt] Hnow Hn Hsmall.
    destruct (write_sample_forward _ _ n H0 Hlt Hnow Hn Hsmall)
      as (v & Hv & Hb & _).
    exists v. split.
    + change (2 ^ 53) with 9007199254740992 in Hnow.
      change (2 ^ 51) with 2251799813685248 in Hsmall.
      rewrite WriteEnd_rates, !wrap_small by (rewrite modulus_eq; lia).
      rewrite Hv. reflexivity.
    + unfold sample_spec.
      destruct (Z.eqb_spec (epoch_write_start_ s) now_ms) as [E|_]; [lia|].
      exact Hb.
  - intros Ht0 Ht.
    rewrite WriteEnd_rates. cbn [WriteStart epoch_write_start_ rates_].
    change (2 ^ 53) with 9007199254740992 in Ht.
    rewrite !wrap_small by (rewrite modulus_eq; lia).
    unfold write_sample.
    destruct (Z.eqb_spec t (t + 500)) as [E|_]; [lia|].
    rewrite sub_exact by (change (2 ^ 53) with 9007199254740992; lia).
    replace (t + 500 - t) with 500 by lia.
    rewrite sample_500ms. reflexivity.
Qed.

Lemma WriteEnd_stores_bytes_per_second_witness :
  let s := WriteStart 1700000000000 (RateLimiter_new 0 0 0) in
  option_map rates_ (WriteEnd 1700000000000 4096 s) = Some [4096] /\
  (exists v, option_map rates_ (WriteEnd 1700000000017 17 s) = Some [v] /\
             1000 - 1 <= v <= 1000) /\
  option_map rates_ (WriteEnd 1700000000500 1000000 s) = Some [2000000].
Proof.
  intros s. split; [|split].
  - apply (proj1 (WriteEnd_stores_bytes_per_second
                    1700000000000 4096 0 s)).
    vm_compute. reflexivity.
  - apply (proj1 (proj2 (WriteEnd_stores_bytes_per_second
                           1700000000017 17 0 s))).
    + vm_compute. split; [discriminate | reflexivity].
    + vm_compute. reflexivity.
    + vm_compute. discriminate.
    + vm_compute. reflexivity.
  - apply (proj2 (proj2 (WriteEnd_stores_bytes_per_second
                           0 0 1700000000000 (RateLimiter_new 0 0 0)))).
    + vm_compute. discriminate.
    + vm_compute. reflexivity.
Defined.

(** ** C8: overload lowers the coefficient *)

Lemma multiplier_above_150 (adjusted target : Z) :
  target < adjusted ->
  Double.gtb (Double.div (Double.of_uint64 adjusted) (Double.of_uint64 target))
             (Double.dec 150 100) = true ->
  multiplier adjusted target = Double.dec 75 100.
Proof.
  intros H G. unfold multiplier.
  destruct (Z.gtb_spec adjusted target) as [_|]; [|lia].
  now rewrite G.
Qed.

(** Each factor of the overload branch lowers a positive coefficient. *)
Lemma scale_overload_below (c adjusted target : Z) :
  0 < c < 2 ^ 64 -> target < adjusted ->
  exists v, scale c (multiplier adjusted target) = Some v /\ 0 <= v < c.
Proof.
  intros Hc H.
  destruct (multiplier_overload adjusted target H) as [E|[E|[E|E]]]; rewrite E.
  - change (Double.dec 75 100) with (S754_finite false 6755399441055744 (-53)).
    apply scale_below; [exact Hc | simpl; lia | lia | vm_compute; reflexivity].
  - change (Double.dec 95 100) with (S754_finite false 8556839292003942 (-53)).
    apply scale_below; [exact Hc | simpl; lia | lia | vm_compute; reflexivity].
  - change (Double.dec 99 100) with (S754_finite false 8917127262193582 (-53)).
    apply scale_below; [exact Hc | simpl; lia | lia | vm_compute; reflexivity].
  - change (Double.dec 995 1000) with (S754_finite false 8962163258467287 (-53)).
    apply scale_below; [exact Hc | simpl; lia | lia | vm_compute; reflexivity].
Qed.

Lemma GetWritingRate_nonneg (s : RateLimiter) : 0 <= GetWritingRate s.
Proof.
  unfold GetWritingRate. destruct (rates_ s) as [|x l] eqn:E; [simpl; lia|].
  cbv zeta.
  assert (Hm : 0 <= sum_rates (x :: l) / Z.of_nat (length (x :: l))).
  { pose proof (sum_rates_range (x :: l)).
    apply Z.div_pos; [lia | simpl length; lia]. }
  destruct (Z.ltb_spec 0 (rate_limit_ s)); cbn [andb]; [|exact Hm].
  destruct (_ <? _); [lia | exact Hm].
Qed.

(** C8.  In a reachable state, at an epoch rollover where the adjusted
    arrival rate exceeds 1.5 times the reported writing rate, the call is
    defined and the controller step gives a product strictly below the
    coefficient; unless the bump engages (the product is at most 5 and 1
    is added), the coefficient after the rollover is that product, so
    strictly smaller than before.  When the ratio the controller
    computes exceeds 1.50 the step is the one by 0.75. *)
Theorem overload_lowers_coefficient (now bytes : Z) (s : RateLimiter) :
  reachable s ->
  U64.wrap now <> epoch_last_ s ->
  3 * GetWritingRate s < 2 * adjusted_arrival s ->
  exists s' slept product,
    Tick now bytes s = Some (s', slept) /\
    scale (bytes_per_microsecond_ s)
          (multiplier (adjusted_arrival s) (GetWritingRate s)) = Some product /\
    product < bytes_per_microsecond_ s /\
    (Double.gtb (arrival_ratio s) (Double.dec 150 100) = true ->
     scale (bytes_per_microsecond_ s) (Double.dec 75 100) = Some product) /\
    (5 < product ->
     bytes_per_microsecond_ s' = product /\
     bytes_per_microsecond_ s' < bytes_per_microsecond_ s) /\
    (product <= 5 -> bytes_per_microsecond_ s' = product + 1) /\
    bytes_per_microsecond_ s' <= bytes_per_microsecond_ s.
Proof.
  intros R Hne Hover. apply reachable_wf in R. destruct R as [Hc _ _ _].
  pose proof (GetWritingRate_nonneg s) as Hw.
  assert (Hlt : GetWritingRate s < adjusted_arrival s) by lia.
  destruct (scale_overload_below (bytes_per_microsecond_ s) _ _
              ltac:(rewrite modulus_eq in Hc;
                    change (2 ^ 64) with 18446744073709551616; lia) Hlt)
    as (v & Hv & Hv0 & Hvc).
  pose proof (Tick_rollover_coefficient now bytes s Hne) as HT.
  rewrite Hv in HT. cbn [option_map] in HT.
  destruct (Tick now bytes s) as [[s' slept]|]; [|discriminate HT].
  cbn [option_map fst] in HT. injection HT as HT.
  exists s', slept, v. split; [reflexivity|]. split; [exact Hv|].
  split; [exact Hvc|]. split.
  { intros G. rewrite <- (multiplier_above_150 _ _ Hlt G). exact Hv. }
  rewrite HT. unfold bump.
  destruct (Z.leb_spec v 5) as [L|L].
  - unfold U64.add. rewrite wrap_small by (rewrite modulus_eq; lia).
    split; [lia|]. split; [reflexivity | lia].
  - split; [lia|]. split; lia.
Qed.

Lemma overload_lowers_coefficient_witness :
  let s := {| epoch_write_start_ := 0; epoch_write_end_ := 0;
              rate_limit_ := 0; rate_arriving_ := 1000000000;
              rate_arriving_adjusted_ := 0;
              epoch_last_ := 6; epoch_current_ := 6;
              duration_slept_ := 50000; bytes_per_microsecond_ := 12;
              rates_ := [] |} in
  reachable s /\ U64.wrap 7 <> epoch_last_ s /\
  3 * GetWritingRate s < 2 * adjusted_arrival s /\
  exists s' slept product,
    Tick 7 0 s = Some (s', slept) /\
    scale (bytes_per_microsecond_ s)
          (multiplier (adjusted_arrival s) (GetWritingRate s)) = Some product /\
    product < bytes_per_microsecond_ s.
Proof.
  intros s.
  assert (R : reachable s).
  { exists 0, 0, 0,
      [CallTick 1 0; CallTick 2 0; CallTick 3 0; CallTick 4 0; CallTick 5 0;
       CallTick 6 0; CallTick 6 1000000000].
    vm_compute. reflexivity. }
  assert (H1 : U64.wrap 7 <> epoch_last_ s) by (vm_compute; discriminate).
  assert (H2 : 3 * GetWritingRate s < 2 * adjusted_arrival s)
    by (vm_compute; reflexivity).
  split; [exact R|]. split; [exact H1|]. split; [exact H2|].
  destruct (overload_lowers_coefficient 7 0 s R H1 H2)
    as (s' & slept & product & T & S & L & _).
  exists s', slept, product. repeat split; assumption.
Defined.

(** ** C9: [Tick(0)] *)

Lemma sleep_microseconds_0 (c : Z) : sleep_microseconds 0 c = 0.
Proof.
  unfold sleep_microseconds. destruct (c >? 0); reflexivity.
Qed.

Lemma account_0 (s : RateLimiter) :
  0 <= rate_arriving_ s < U64.modulus -> account 0 s = (s, 0).
Proof.
  intros H. unfold account. rewrite sleep_microseconds_0.
  cbn [Z.eqb]. unfold U64.add. rewrite Z.add_0_r, (wrap_small _ H).
  destruct s; reflexivity.
Qed.

Lemma fresh_limiter_first_tick :
  Tick 1 0 (RateLimiter_new 0 0 0) =
  Some ({| epoch_write_start_ := 0; epoch_write_end_ := 0;
           rate_limit_ := 0; rate_arriving_ := 0;
           rate_arriving_adjusted_ := 262144000;
           epoch_last_ := 1; epoch_current_ := 1;
           duration_slept_ := 0; bytes_per_microsecond_ := 4;
           rates_ := [] |}, 0).
Proof. vm_compute. reflexivity. Qed.

(** C9, the claim as it is written: [Tick(0)] leaves the coefficient as
    it is.  It fails at the first call on a fresh limiter when the clock
    reads 1: the rollover branch runs the controller, which takes the
    coefficient from 5 to 4. *)
Lemma Tick_0_can_change_coefficient :
  ~ (forall (now : Z) (s s' : RateLimiter) (slept : Z),
       reachable s -> Tick now 0 s = Some (s', slept) ->
       bytes_per_microsecond_ s' = bytes_per_microsecond_ s).
Proof.
  intros H.
  assert (R : reachable (RateLimiter_new 0 0 0))
    by (exists 0, 0, 0, []; reflexivity).
  specialize (H 1 (RateLimiter_new 0 0 0) _ _ R
                (fresh_limiter_first_tick)).
  discriminate H.
Qed.

(** C9, amended.  In a reachable state [Tick(0)] never sleeps.  When the
    clock reads [epoch_last_] it changes no field but [epoch_current_],
    which it sets to that same reading: the coefficient, the counters
    and [epoch_last_] stay as they are.  When the clock reads another
    second, the call does what the rollover branch does, controller
    included, and nothing more. *)
Theorem Tick_0_effect (now : Z) (s s' : RateLimiter) (slept : Z) :
  reachable s ->
  Tick now 0 s = Some (s', slept) ->
  slept = 0 /\
  (U64.wrap now = epoch_last_ s ->
     s' = set_epoch_current now s /\
     bytes_per_microsecond_ s' = bytes_per_microsecond_ s /\
     duration_slept_ s' = duration_slept_ s /\
     rate_arriving_ s' = rate_arriving_ s /\
     epoch_last_ s' = epoch_last_ s) /\
  (U64.wrap now <> epoch_last_ s ->
     rollover (set_epoch_current now s) = Some s' /\
     epoch_last_ s' = U64.wrap now /\
     duration_slept_ s' = 0 /\
     rate_arriving_ s' = 0).
Proof.
  intros R T. apply reachable_wf in R.
  assert (W : wf (set_epoch_current now s)) by (destruct R; now split).
  change (U64.wrap 0) with 0 in *.
  destruct (Tick_cases _ _ _ _ _ T) as [[E A] | [E (s2 & Ro & A)]];
    change (U64.wrap 0) with 0 in A.
  - rewrite account_0 in A by apply W. injection A as -> ->.
    split; [reflexivity|]. split; [|congruence].
    intros _. repeat split.
  - assert (W2 : wf s2) by (eapply wf_rollover; eauto).
    rewrite account_0 in A by apply W2. injection A as -> ->.
    split; [reflexivity|]. split; [congruence|].
    intros _. split; [exact Ro|].
    unfold rollover in Ro. destruct (scale _ _); [|discriminate].
    injection Ro as <-. repeat split.
Qed.

Lemma Tick_0_effect_witness :
  let s := {| epoch_write_start_ := 0; epoch_write_end_ := 0;
              rate_limit_ := 0; rate_arriving_ := 100;
              rate_arriving_adjusted_ := 262144000;
              epoch_last_ := 1; epoch_current_ := 1;
              duration_slept_ := 25; bytes_per_microsecond_ := 4;
              rates_ := [] |} in
  reachable s /\ Tick 1 0 s = Some (s, 0) /\ 0 = 0.
Proof.
  intros s.
  assert (R : reachable s)
    by (exists 0, 0, 0, [CallTick 1 100]; vm_compute; reflexivity).
  assert (T : Tick 1 0 s = Some (s, 0)) by (vm_compute; reflexivity).
  split; [exact R|]. split; [exact T|].
  exact (proj1 (Tick_0_effect 1 s s 0 R T)).
Defined.

(** ** C10: the state after construction and the first rollover *)

Lemma rollover_of_new (rate_limit ws we now : Z) :
  rollover (set_epoch_current now (RateLimiter_new rate_limit ws we)) =
  Some {| epoch_write_start_ := U64.wrap ws;
          epoch_write_end_ := U64.wrap we;
          rate_limit_ := U64.wrap rate_limit;
          rate_arriving_ := 0;
          rate_arriving_adjusted_ := 262144000;
          epoch_last_ := U64.wrap now;
          epoch_current_ := U64.wrap now;
          duration_slept_ := 0;
          bytes_per_microsecond_ := 4;
          rates_ := [] |}.
Proof.
  unfold rollover, adjusted_arrival.
  cbn [set_epoch_current RateLimiter_new rate_arriving_ duration_slept_
       bytes_per_microsecond_ epoch_write_start_ epoch_write_end_
       rate_limit_ epoch_current_ rates_].
  change (GetWritingRate _) with 1048576.
  change (U64.add (250 * 1024 * 1024) (U64.mul 5 0)) with 262144000.
  replace (scale 5 (multiplier 262144000 1048576)) with (Some 3)
    by (vm_compute; reflexivity).
  reflexivity.
Qed.

(** C10.  A freshly constructed limiter has [rate_arriving_] =
    262,144,000, [duration_slept_] = 0 and the coefficient 5, whatever its
    ceiling; its first [Tick], when the clock does not read 0, takes the
    rollover branch and computes the adjusted arrival rate 262,144,000
    although no byte has been accounted yet. *)
Theorem fresh_limiter_is_preloaded (rate_limit ws we now bytes_arriving : Z) :
  U64.wrap now <> 0 ->
  let s := RateLimiter_new rate_limit ws we in
  rate_arriving_ s = 250 * 1024 * 1024 /\
  rate_arriving_ s = 262144000 /\
  duration_slept_ s = 0 /\
  bytes_per_microsecond_ s = 5 /\
  exists s' slept,
    Tick now bytes_arriving s = Some (s', slept) /\
    rate_arriving_adjusted_ s' = 262144000 /\
    rate_arriving_ s' = U64.wrap bytes_arriving.
Proof.
  intros Hnow s. repeat (split; [reflexivity|]).
  unfold Tick.
  destruct (Z.eqb_spec (epoch_current_ (set_epoch_current now s))
                       (epoch_last_ (set_epoch_current now s))) as [E|_].
  - simpl in E. contradiction.
  - unfold s. rewrite rollover_of_new.
    eexists _, _. split; [reflexivity|]. split; [reflexivity|].
    cbn [account fst rate_arriving_]. unfold U64.add. rewrite Z.add_0_l.
    unfold U64.wrap. apply Z.mod_mod. discriminate.
Qed.

Lemma fresh_limiter_is_preloaded_witness :
  U64.wrap 1700000000 <> 0 /\
  exists s' slept,
    Tick 1700000000 0 (RateLimiter_new 0 0 0) = Some (s', slept) /\
    rate_arriving_adjusted_ s' = 262144000 /\
    rate_arriving_ s' = U64.wrap 0.
Proof.
  assert (H : U64.wrap 1700000000 <> 0) by (vm_compute; discriminate).
  split; [exact H|].
  exact (proj2 (proj2 (proj2 (proj2
    (fresh_limiter_is_preloaded 0 0 0 1700000000 0 H))))).
Defined.

(** * Further properties *)

(** ** Further properties of [Tick] *)

Lemma sleep_microseconds_range (bytes c : Z) :
  0 <= bytes -> 0 <= sleep_microseconds bytes c <= 50000.
Proof.
  intros Hb. unfold sleep_microseconds.
  destruct (Z.gtb_spec c 0).
  - pose proof (Z.div_pos bytes c Hb ltac:(lia)).
    destruct (Z.gtb_spec (bytes / c) 50000); lia.
  - cbn. lia.
Qed.

Lemma wrap_add_l (a b : Z) : U64.wrap (U64.wrap a + b) = U64.wrap (a + b).
Proof. unfold U64.wrap. apply Zplus_mod_idemp_l. Qed.

Lemma Tick_same_second (now bytes : Z) (s : RateLimiter) :
  U64.wrap now = epoch_last_ s ->
  Tick now bytes s = Some (account (U64.wrap bytes) (set_epoch_current now s)).
Proof.
  intros E. unfold Tick. cbn [set_epoch_current epoch_current_ epoch_last_].
  rewrite E, Z.eqb_refl. reflexivity.
Qed.

Lemma run_ticks_same_second (now : Z) (bs : list Z) (s : RateLimiter) :
  U64.wrap now = epoch_last_ s ->
  0 <= rate_arriving_ s < U64.modulus ->
  0 <= duration_slept_ s < U64.modulus ->
  exists s',
    run (map (CallTick now) bs) s = Some s' /\
    bytes_per_microsecond_ s' = bytes_per_microsecond_ s /\
    rate_arriving_adjusted_ s' = rate_arriving_adjusted_ s /\
    rate_arriving_ s' = U64.wrap (rate_arriving_ s + Zsum (map U64.wrap bs)) /\
    duration_slept_ s' =
      U64.wrap (duration_slept_ s +
                Zsum (map (fun b => sleep_microseconds
                                      (U64.wrap b) (bytes_per_microsecond_ s))
                          bs)) /\
    epoch_last_ s' = epoch_last_ s /\
    rates_ s' = rates_ s.
Proof.
  revert s. induction bs as [|b bs IH]; intros s E R D.
  - exists s. cbn. rewrite !Z.add_0_r, !wrap_small by assumption. tauto.
  - cbn [map run exec]. rewrite (Tick_same_second now b s E).
    destruct (account (U64.wrap b) (set_epoch_current now s)) as [s1 slept] eqn:A.
    unfold account in A. injection A as <- _.
    match goal with |- context [run _ ?x] => set (s1 := x) end.
    assert (D1 : duration_slept_ s1 =
                 U64.wrap (duration_slept_ s +
                           sleep_microseconds (U64.wrap b)
                                              (bytes_per_microsecond_ s))).
    { subst s1. cbn [duration_slept_ set_epoch_current bytes_per_microsecond_].
      destruct (Z.eqb_spec (sleep_microseconds (U64.wrap b)
                              (bytes_per_microsecond_ s)) 0) as [Z0|_].
      - rewrite Z0, Z.add_0_r, wrap_small by exact D. reflexivity.
      - reflexivity. }
    destruct (IH s1 E (add_range _ _)
                ltac:(rewrite D1; apply wrap_range))
      as (s' & Hr & Hc & Ha & Hs & Hd & He & Hh).
    exists s'. split; [exact Hr|].
    split; [exact Hc|]. split; [exact Ha|].
    split; [|split; [|split; [exact He | exact Hh]]].
    + rewrite Hs. subst s1. cbn [rate_arriving_ set_epoch_current].
      change (Zsum (U64.wrap b :: map U64.wrap bs))
        with (U64.wrap b + Zsum (map U64.wrap bs)).
      unfold U64.add. rewrite wrap_add_l. apply f_equal. ring.
    + rewrite Hd, D1.
      change (bytes_per_microsecond_ s1) with (bytes_per_microsecond_ s).
      cbn [map].
      match goal with
      | |- _ = U64.wrap (_ + Zsum (?x :: ?l)) =>
          change (Zsum (x :: l)) with (x + Zsum l)
      end.
      rewrite wrap_add_l. apply f_equal. ring.
Qed.

Lemma Tick_epoch_last (now bytes : Z) (s s' : RateLimiter) (slept : Z) :
  Tick now bytes s = Some (s', slept) ->
  epoch_last_ s' = U64.wrap now /\ epoch_current_ s' = U64.wrap now /\
  0 <= rate_arriving_ s' < U64.modulus.
Proof.
  intros T.
  destruct (Tick_cases _ _ _ _ _ T) as [[E A] | [E (s2 & R & A)]].
  - unfold account in A. injection A as -> _.
    cbn. rewrite E. split; [reflexivity|]. split; [reflexivity|]. apply add_range.
  - unfold account in A. injection A as -> _.
    unfold rollover in R.
    destruct (scale _ _); [|discriminate]. injection R as <-.
    cbn. split; [reflexivity|]. split; [reflexivity|]. apply add_range.
Qed.

(** X1: after a [Tick] that sampled the clock reading [now],
    [epoch_last_] is [now]; every further [Tick] in that second skips
    the controller.  The coefficient and the adjusted arrival rate stay
    as the first call left them, [rate_arriving_] grows by the bytes of
    each call and [duration_slept_] by the time each call sleeps, both
    modulo 2^64. *)
Theorem controller_runs_once_per_second
  (now bytes : Z) (more : list Z) (s s1 : RateLimiter) (slept : Z) :
  reachable s ->
  Tick now bytes s = Some (s1, slept) ->
  epoch_last_ s1 = U64.wrap now /\
  exists s2,
    run (map (CallTick now) more) s1 = Some s2 /\
    bytes_per_microsecond_ s2 = bytes_per_microsecond_ s1 /\
    rate_arriving_adjusted_ s2 = rate_arriving_adjusted_ s1 /\
    rate_arriving_ s2 =
      U64.wrap (rate_arriving_ s1 + Zsum (map U64.wrap more)) /\
    duration_slept_ s2 =
      U64.wrap (duration_slept_ s1 +
                Zsum (map (fun b => sleep_microseconds
                                      (U64.wrap b) (bytes_per_microsecond_ s1))
                          more)) /\
    epoch_last_ s2 = U64.wrap now.
Proof.
  intros R T. destruct (Tick_epoch_last _ _ _ _ _ T) as (E & _ & Ra).
  assert (R1 : reachable s1).
  { apply (reachable_exec (CallTick now bytes) s); [exact R|].
    cbn. rewrite T. reflexivity. }
  pose proof (wf_slept _ (reachable_wf _ R1)) as D.
  split; [exact E|].
  destruct (run_ticks_same_second now more s1 (eq_sym E) Ra D)
    as (s2 & Hr & Hc & Ha & Hs & Hd & He & _).
  exists s2. rewrite He. tauto.
Qed.

Lemma controller_runs_once_per_second_witness :
  let s := RateLimiter_new 0 0 0 in
  exists s1 slept,
    reachable s /\
    Tick 1 100 s = Some (s1, slept) /\
    exists s2,
      run (map (CallTick 1) [10; 20; 30]) s1 = Some s2 /\
      bytes_per_microsecond_ s2 = bytes_per_microsecond_ s1 /\
      rate_arriving_ s2 =
        U64.wrap (rate_arriving_ s1 + Zsum (map U64.wrap [10; 20; 30])).
Proof.
  intros s.
  assert (R : reachable s) by (exists 0, 0, 0, []; reflexivity).
  destruct (Tick 1 100 s) as [[s1 slept]|] eqn:T; [|vm_compute in T; discriminate].
  exists s1, slept. split; [exact R|]. split; [reflexivity|].
  destruct (controller_runs_once_per_second 1 100 [10; 20; 30] s s1 slept R T)
    as (_ & s2 & H1 & H2 & _ & H3 & _).
  exists s2. tauto.
Defined.

Lemma exec_rate_limit (c : call) (s s' : RateLimiter) :
  exec c s = Some s' -> rate_limit_ s' = rate_limit_ s.
Proof.
  destruct c as [now b|t|t n|r]; cbn [exec].
  - destruct (Tick now b s) as [[s1 sl]|] eqn:T; [|discriminate].
    intros [= <-].
    destruct (Tick_cases _ _ _ _ _ T) as [[E A] | [E (s2 & R & A)]];
      unfold account in A; injection A as -> _; cbn; [reflexivity|].
    unfold rollover in R. destruct (scale _ _); [|discriminate].
    injection R as <-. reflexivity.
  - intros [= <-]. reflexivity.
  - unfold WriteEnd. destruct (write_sample _ _ _); [|discriminate].
    intros [= <-]. reflexivity.
  - intros [= <-]. reflexivity.
Qed.

Lemma exec_keeps_history (c : call) (s s' : RateLimiter) :
  stores_sample c = false -> exec c s = Some s' -> rates_ s' = rates_ s.
Proof.
  destruct c as [now b|t|t n|r]; cbn [exec stores_sample]; try discriminate;
    intros _.
  - destruct (Tick now b s) as [[s1 sl]|] eqn:T; [|discriminate].
    intros [= <-].
    destruct (Tick_cases _ _ _ _ _ T) as [[E A] | [E (s2 & R & A)]];
      unfold account in A; injection A as -> _; cbn; [reflexivity|].
    unfold rollover in R. destruct (scale _ _); [|discriminate].
    injection R as <-. reflexivity.
  - intros [= <-]. reflexivity.
Qed.

Lemma exec_keeps_controller (c : call) (s s' : RateLimiter) :
  is_Tick c = false -> exec c s = Some s' ->
  bytes_per_microsecond_ s' = bytes_per_microsecond_ s /\
  rate_arriving_ s' = rate_arriving_ s /\
  rate_arriving_adjusted_ s' = rate_arriving_adjusted_ s /\
  duration_slept_ s' = duration_slept_ s /\
  epoch_last_ s' = epoch_last_ s.
Proof.
  destruct c as [now b|t|t n|r]; cbn [exec is_Tick]; try discriminate;
    intros _.
  - intros [= <-]. cbn. tauto.
  - unfold WriteEnd. destruct (write_sample _ _ _); [|discriminate].
    intros [= <-]. cbn. tauto.
  - intros [= <-]. cbn. tauto.
Qed.

Lemma GetWritingRate_ext (s s' : RateLimiter) :
  rates_ s' = rates_ s -> rate_limit_ s' = rate_limit_ s ->
  GetWritingRate s' = GetWritingRate s.
Proof. unfold GetWritingRate. intros -> ->. reflexivity. Qed.

(** X2: the estimator and the controller share no state.  Over any run
    of calls the ceiling stays as constructed; calls other than
    [WriteEnd] and [StoreWritingRate] leave the history, hence the value
    of [GetWritingRate], as it was; calls other than [Tick] leave the
    coefficient, the counters and [epoch_last_] as they were. *)
Theorem estimator_and_controller_are_separate
  (cs : list call) (s s' : RateLimiter) :
  run cs s = Some s' ->
  rate_limit_ s' = rate_limit_ s /\
  (forallb (fun c => negb (stores_sample c)) cs = true ->
   rates_ s' = rates_ s /\ GetWritingRate s' = GetWritingRate s) /\
  (forallb (fun c => negb (is_Tick c)) cs = true ->
   bytes_per_microsecond_ s' = bytes_per_microsecond_ s /\
   rate_arriving_ s' = rate_arriving_ s /\
   rate_arriving_adjusted_ s' = rate_arriving_adjusted_ s /\
   duration_slept_ s' = duration_slept_ s /\
   epoch_last_ s' = epoch_last_ s).
Proof.
  revert s. induction cs as [|c cs IH]; intros s; cbn [run forallb].
  - intros [= <-]. tauto.
  - destruct (exec c s) as [s1|] eqn:E; [|discriminate].
    intros R. destruct (IH s1 R) as (L & H & C).
    pose proof (exec_rate_limit _ _ _ E) as L1.
    split; [congruence|]. split.
    + intros F. apply andb_prop in F. destruct F as [F1 F2].
      apply negb_true_iff in F1.
      pose proof (exec_keeps_history _ _ _ F1 E) as H1.
      destruct (H F2) as [Hh _].
      assert (Hr : rates_ s' = rates_ s) by congruence.
      split; [exact Hr|]. apply GetWritingRate_ext; congruence.
    + intros F. apply andb_prop in F. destruct F as [F1 F2].
      apply negb_true_iff in F1.
      destruct (exec_keeps_controller _ _ _ F1 E) as (A1 & A2 & A3 & A4 & A5).
      destruct (C F2) as (B1 & B2 & B3 & B4 & B5).
      repeat split; congruence.
Qed.

Lemma estimator_and_controller_are_separate_witness :
  let s := RateLimiter_new 1000 0 0 in
  exists s',
    run [CallTick 1 100; CallWriteStart 5; CallWriteEnd 1005 700] s = Some s' /\
    rate_limit_ s' = rate_limit_ s.
Proof.
  intros s.
  destruct (run [CallTick 1 100; CallWriteStart 5; CallWriteEnd 1005 700] s)
    as [s'|] eqn:R; [|vm_compute in R; discriminate].
  exists s'. split; [reflexivity|].
  exact (proj1 (estimator_and_controller_are_separate _ s s' R)).
Defined.

(** X3: a [Tick] that finds a new clock reading starts the counters of
    the epoch afresh: [rate_arriving_] holds the bytes of this call only,
    [duration_slept_] the time this call slept, and
    [rate_arriving_adjusted_] the adjusted arrival of the epoch that
    ended. *)
Theorem rollover_restarts_the_counters
  (now bytes : Z) (s s' : RateLimiter) (slept : Z) :
  U64.wrap now <> epoch_last_ s ->
  Tick now bytes s = Some (s', slept) ->
  rate_arriving_ s' = U64.wrap bytes /\
  duration_slept_ s' = slept /\
  rate_arriving_adjusted_ s' = adjusted_arrival s /\
  epoch_last_ s' = U64.wrap now.
Proof.
  intros E T.
  destruct (Tick_cases _ _ _ _ _ T) as [[E' _] | [_ (s2 & R & A)]];
    [contradiction|].
  unfold rollover in R. destruct (scale _ _) as [v|]; [|discriminate].
  injection R as <-. unfold account in A.
  cbn [bytes_per_microsecond_ rate_arriving_ duration_slept_] in A.
  injection A as -> ->. cbn.
  pose proof (wrap_range bytes) as Hb.
  pose proof (sleep_microseconds_range (U64.wrap bytes) (bump v) (proj1 Hb)) as Hs.
  repeat split.
  - unfold U64.add. rewrite Z.add_0_l. unfold U64.wrap. apply Z.mod_mod.
    rewrite modulus_eq. lia.
  - destruct (Z.eqb_spec (sleep_microseconds (U64.wrap bytes) (bump v)) 0) as [Z0|_].
    + symmetry. exact Z0.
    + unfold U64.add. rewrite Z.add_0_l. apply wrap_small.
      rewrite modulus_eq. lia.
Qed.

Lemma rollover_restarts_the_counters_witness :
  let s := RateLimiter_new 0 0 0 in
  exists s' slept,
    U64.wrap 7 <> epoch_last_ s /\
    Tick 7 1000 s = Some (s', slept) /\
    rate_arriving_ s' = U64.wrap 1000 /\ duration_slept_ s' = slept.
Proof.
  intros s.
  assert (E : U64.wrap 7 <> epoch_last_ s) by (vm_compute; discriminate).
  destruct (Tick 7 1000 s) as [[s' slept]|] eqn:T; [|vm_compute in T; discriminate].
  exists s', slept. split; [exact E|]. split; [reflexivity|].
  destruct (rollover_restarts_the_counters 7 1000 s s' slept E T) as (H1 & H2 & _).
  split; assumption.
Defined.

(** X4: the sleep gate.  The time slept, multiplied by the coefficient,
    never exceeds the bytes of the call; a call sleeps exactly when it
    brings at least as many bytes as the coefficient, and sleeps the
    full 50 ms exactly when it brings 50000 times the coefficient or
    more. *)
Theorem sleep_gate_thresholds
  (now bytes : Z) (s s' : RateLimiter) (slept : Z) :
  reachable s ->
  Tick now bytes s = Some (s', slept) ->
  slept * bytes_per_microsecond_ s' <= U64.wrap bytes /\
  (slept = 0 <-> U64.wrap bytes < bytes_per_microsecond_ s') /\
  (slept = 50000 <-> 50000 * bytes_per_microsecond_ s' <= U64.wrap bytes) /\
  (slept < 50000 -> U64.wrap bytes < (slept + 1) * bytes_per_microsecond_ s').
Proof.
  intros R T.
  assert (R' : reachable s').
  { apply (reachable_exec (CallTick now bytes) s); [exact R|].
    cbn. rewrite T. reflexivity. }
  pose proof (wf_coefficient _ (reachable_wf _ R')) as Hc.
  pose proof (wrap_range bytes) as Hb.
  rewrite (Tick_sleep _ _ _ _ _ T).
  rewrite sleep_microseconds_spec by lia.
  set (b := U64.wrap bytes) in *. set (c := bytes_per_microsecond_ s') in *.
  pose proof (Z.mul_div_le b c ltac:(lia)) as D1.
  pose proof (Z.mul_succ_div_gt b c ltac:(lia)) as D2.
  assert (D0 : 0 <= b / c) by (apply Z.div_pos; lia).
  assert (M : b / c <= 50000 \/ 50000 < b / c) by lia.
  destruct M as [M|M].
  - rewrite Z.min_l by lia. repeat split; try nia.
  - rewrite Z.min_r by lia. repeat split; try nia.
Qed.

Lemma sleep_gate_thresholds_witness :
  let s := RateLimiter_new 0 0 0 in
  exists s' slept,
    reachable s /\ Tick 1 1000 s = Some (s', slept) /\
    slept * bytes_per_microsecond_ s' <= U64.wrap 1000.
Proof.
  intros s.
  assert (R : reachable s) by (exists 0, 0, 0, []; reflexivity).
  destruct (Tick 1 1000 s) as [[s' slept]|] eqn:T; [|vm_compute in T; discriminate].
  exists s', slept. split; [exact R|]. split; [reflexivity|].
  exact (proj1 (sleep_gate_thresholds 1 1000 s s' slept R T)).
Defined.

(** ** Further properties of the estimator *)

Lemma Zsum_bounds (l : list Z) (lo hi : Z) :
  Forall (fun x => lo <= x <= hi) l ->
  Z.of_nat (length l) * lo <= Zsum l <= Z.of_nat (length l) * hi.
Proof.
  induction 1 as [|x l Hx _ IH]; [cbn; lia|].
  change (Zsum (x :: l)) with (x + Zsum l).
  cbn [length]. rewrite Nat2Z.inj_succ. lia.
Qed.

Lemma mean_rate_bounds (l : list Z) (lo hi : Z) :
  l <> [] -> (length l <= 10)%nat ->
  0 <= lo -> hi < 2 ^ 60 ->
  Forall (fun x => lo <= x <= hi) l ->
  lo <= mean_rate l <= hi.
Proof.
  intros Hne Hlen Hlo Hhi F.
  pose proof (Zsum_bounds l lo hi F) as [B1 B2].
  assert (Hn : 1 <= Z.of_nat (length l) <= 10).
  { destruct l; [congruence|]. cbn [length] in *. lia. }
  set (n := Z.of_nat (length l)) in *.
  assert (Hhi' : lo <= hi).
  { destruct l as [|x l']; [congruence|]. inversion F; subst. lia. }
  change (2 ^ 60) with 1152921504606846976 in Hhi.
  unfold mean_rate. rewrite sum_rates_wrap, wrap_small.
  - fold n. split.
    + apply Z.div_le_lower_bound; lia.
    + apply Z.div_le_upper_bound; lia.
  - rewrite modulus_eq. nia.
Qed.

(** X5: with samples below 2^60 the sum of a history cannot wrap, and
    the estimate lies between the smallest and the largest stored sample
    (between the smaller of ceiling and smallest sample, and the largest
    sample, when a ceiling is set). *)
Theorem GetWritingRate_between_samples (s : RateLimiter) (lo hi : Z) :
  reachable s -> rates_ s <> [] ->
  0 <= lo -> hi < 2 ^ 60 ->
  Forall (fun x => lo <= x <= hi) (rates_ s) ->
  Z.min lo (if rate_limit_ s =? 0 then lo else rate_limit_ s)
    <= GetWritingRate s <= hi /\
  (rate_limit_ s = 0 -> lo <= GetWritingRate s).
Proof.
  intros R Hne Hlo Hhi F.
  pose proof (wf_history _ (reachable_wf _ R)) as Hlen.
  pose proof (mean_rate_bounds _ lo hi Hne Hlen Hlo Hhi F) as [M1 M2].
  rewrite GetWritingRate_nonempty by exact Hne.
  destruct (Z.eqb_spec (rate_limit_ s) 0) as [E|E].
  - rewrite E. cbn. lia.
  - destruct (Z.ltb_spec 0 (rate_limit_ s)); cbn [andb];
      [destruct (Z.ltb_spec (rate_limit_ s) (mean_rate (rates_ s)))|]; lia.
Qed.

Lemma GetWritingRate_between_samples_witness :
  exists s,
    run [CallStoreWritingRate 300; CallStoreWritingRate 500;
         CallStoreWritingRate 400] (RateLimiter_new 0 0 0) = Some s /\
    300 <= GetWritingRate s <= 500.
Proof.
  eexists. split; [reflexivity|].
  match goal with |- _ <= GetWritingRate ?s <= _ => set (s0 := s) end.
  assert (R : reachable s0)
    by (exists 0, 0, 0, [CallStoreWritingRate 300; CallStoreWritingRate 500;
                         CallStoreWritingRate 400]; reflexivity).
  assert (F : Forall (fun x => 300 <= x <= 500) (rates_ s0))
    by (repeat constructor; vm_compute; discriminate).
  destruct (GetWritingRate_between_samples s0 300 500 R
              ltac:(discriminate) ltac:(lia) ltac:(reflexivity) F) as [[A B] _].
  split; [exact A | exact B].
Defined.

(** ** The controller at a writing rate of 0 *)

(** X6: a writing rate of 0 is no fault in the controller: the ratio is
    then infinite, or not a number when nothing arrived either.  Any
    arrival counts as the heaviest overload (factor 0.75), no arrival as
    the mildest underload (factor 1.005). *)
Theorem multiplier_at_rate_0 (adjusted : Z) :
  0 <= adjusted < U64.modulus ->
  multiplier adjusted 0 =
    if adjusted =? 0 then Double.dec 1005 1000 else Double.dec 75 100.
Proof.
  intros Ha. destruct adjusted as [|p|p]; [reflexivity| |lia].
  destruct (of_Z_pos p) as (m & e & E & _); [rewrite modulus_eq in Ha; lia|].
  unfold multiplier, Double.of_uint64. rewrite E.
  change (Double.of_Z 0) with (S754_zero false).
  cbn [Double.div SFdiv xorb Z.gtb Z.compare Z.eqb].
  change (Double.gtb (S754_infinity false) (Double.dec 150 100)) with true.
  reflexivity.
Qed.

Lemma multiplier_at_rate_0_witness :
  0 <= 4096 < U64.modulus /\ multiplier 4096 0 = Double.dec 75 100.
Proof.
  assert (H : 0 <= 4096 < U64.modulus) by (rewrite modulus_eq; lia).
  split; [exact H|]. exact (multiplier_at_rate_0 4096 H).
Defined.

(** ** The history after ten samples *)

Lemma store_all_app (xs ys h : list Z) :
  store_all (xs ++ ys) h = store_all ys (store_all xs h).
Proof. unfold store_all. apply fold_left_app. Qed.

Lemma store_all_full (xs h : list Z) :
  (length h <= 10)%nat -> length xs = 10%nat -> store_all xs h = xs.
Proof.
  intros Hh Hx.
  assert (E : h = store_all h []).
  { rewrite store_all_last_10.
    replace (length h - 10)%nat with 0%nat by lia. reflexivity. }
  rewrite E, <- store_all_app, store_all_last_10, length_app, Hx.
  replace (length h + 10 - 10)%nat with (length h) by lia.
  rewrite skipn_app, skipn_all, Nat.sub_diag. reflexivity.
Qed.

Lemma run_store (xs : list Z) (s : RateLimiter) :
  exists s',
    run (map CallStoreWritingRate xs) s = Some s' /\
    rates_ s' = store_all (map U64.wrap xs) (rates_ s) /\
    rate_limit_ s' = rate_limit_ s /\
    bytes_per_microsecond_ s' = bytes_per_microsecond_ s.
Proof.
  revert s. induction xs as [|x xs IH]; intros s.
  - exists s. cbn. tauto.
  - cbn [map run exec].
    match goal with |- context [run _ ?x] => set (s1 := x) end.
    destruct (IH s1) as (s' & Hr & Hh & Hl & Hc).
    exists s'. split; [exact Hr|]. split; [|split; assumption].
    rewrite Hh. reflexivity.
Qed.

(** X7: the estimate depends on the ten most recent samples only.
    After ten calls of [StoreWritingRate] the history is exactly the ten
    samples given, whatever it held before, and [GetWritingRate] is
    their wrapped sum divided by 10, capped by a nonzero ceiling. *)
Theorem ten_samples_replace_the_history (s : RateLimiter) (xs : list Z) :
  reachable s ->
  length xs = 10%nat ->
  Forall (fun x => 0 <= x < U64.modulus) xs ->
  exists s',
    run (map CallStoreWritingRate xs) s = Some s' /\
    rates_ s' = xs /\
    GetWritingRate s' =
      (let mean := sum_rates xs / 10 in
       if (0 <? rate_limit_ s) && (rate_limit_ s <? mean)
       then rate_limit_ s else mean).
Proof.
  intros R Hx F.
  destruct (run_store xs s) as (s' & Hr & Hh & Hl & _).
  assert (Hw : map U64.wrap xs = xs).
  { clear - F. induction F as [|x l Hx _ IH]; [reflexivity|].
    cbn [map]. rewrite IH, wrap_small by exact Hx. reflexivity. }
  rewrite Hw, store_all_full in Hh
    by (try exact Hx; apply (wf_history _ (reachable_wf _ R))).
  exists s'. split; [exact Hr|]. split; [exact Hh|].
  rewrite GetWritingRate_nonempty
    by (rewrite Hh; destruct xs; [discriminate Hx | discriminate]).
  unfold mean_rate. rewrite Hh, Hl, Hx. reflexivity.
Qed.

Lemma ten_samples_replace_the_history_witness :
  exists s s',
    run [CallStoreWritingRate 7; CallStoreWritingRate 9] (RateLimiter_new 0 0 0)
      = Some s /\
    run (map CallStoreWritingRate [100; 100; 100; 100; 100; 200; 200; 200; 200; 200])
        s = Some s' /\
    GetWritingRate s' = 150.
Proof.
  eexists.
  assert (R : reachable
                {| epoch_write_start_ := 0; epoch_write_end_ := 0;
                   rate_limit_ := 0; rate_arriving_ := 262144000;
                   rate_arriving_adjusted_ := 0;
                   epoch_last_ := 0; epoch_current_ := 0;
                   duration_slept_ := 0; bytes_per_microsecond_ := 5;
                   rates_ := [7; 9] |}).
  { exists 0, 0, 0, [CallStoreWritingRate 7; CallStoreWritingRate 9].
    vm_compute. reflexivity. }
  destruct (ten_samples_replace_the_history _
              [100; 100; 100; 100; 100; 200; 200; 200; 200; 200] R
              ltac:(reflexivity)
              ltac:(repeat constructor; vm_compute; discriminate || reflexivity))
    as (s' & Hr & _ & Hg).
  exists s'. split; [vm_compute; reflexivity|]. split; [exact Hr|].
  rewrite Hg. vm_compute. reflexivity.
Defined.

(** ** The band table for rates below 2^53 *)

(** X8: for an adjusted arrival and a writing rate below 2^53, the
    latter not 0, both convert to binary64 exactly and the ratio falls
    in a row of the table on the side of 1.00 that the integer
    comparison of the code selects: the factor of the code is the factor
    of that row. *)
Theorem controller_follows_table_below_2_53 (adjusted target : Z) :
  0 <= adjusted < 2 ^ 53 -> 0 < target < 2 ^ 53 ->
  band_factor_spec (adjusted >? target)
    (Double.div (Double.of_uint64 adjusted) (Double.of_uint64 target))
  = Some (multiplier adjusted target).
Proof.
  intros Ha Ht.
  destruct (band_factor_total _ _ (ratio_side adjusted target Ha Ht))
    as (factor & E).
  rewrite E. f_equal. symmetry. apply multiplier_band. exact E.
Qed.

Lemma controller_follows_table_below_2_53_witness :
  0 <= 1600 < 2 ^ 53 /\ 0 < 1000 < 2 ^ 53 /\
  band_factor_spec (1600 >? 1000)
    (Double.div (Double.of_uint64 1600) (Double.of_uint64 1000))
  = Some (multiplier 1600 1000).
Proof.
  assert (H1 : 0 <= 1600 < 2 ^ 53) by (split; [lia | reflexivity]).
  assert (H2 : 0 < 1000 < 2 ^ 53) by (split; reflexivity).
  split; [exact H1|]. split; [exact H2|].
  exact (controller_follows_table_below_2_53 1600 1000 H1 H2).
Defined.

(** Above 2^53 two different rates can convert to the same binary64
    number: the integer comparison sees an overload, the ratio is 1.00,
    which no overload row of the table holds, and the code multiplies by
    0.995. *)
Remark ratio_of_large_rates :
  let adjusted := 2 ^ 53 + 1 in
  let target := 2 ^ 53 in
  (adjusted >? target) = true /\
  Double.div (Double.of_uint64 adjusted) (Double.of_uint64 target)
    = Double.dec 100 100 /\
  band_factor_spec true
    (Double.div (Double.of_uint64 adjusted) (Double.of_uint64 target)) = None /\
  multiplier adjusted target = Double.dec 995 1000.
Proof. vm_compute. repeat split; reflexivity. Qed.

(** ** Underload: scaling up *)

(** [c *= k] for a factor [k = mk * 2^-52] between 1 and 1.5 that
    exceeds 1 by more than the two roundings can take away *)
Lemma scale_above (c : Z) (mk : positive) :
  0 < c < 2 ^ 63 ->
  2 ^ 52 <= Zpos mk <= 3 * 2 ^ 51 ->
  2 ^ 156 <= Zpos mk * (2 ^ 52 - 1) * (2 ^ 52 - 1) ->
  exists v, scale c (S754_finite false mk (-52)) = Some v /\ c <= v <= 2 * c.
Proof.
  intros Hc Hmk Hk. destruct c as [|pc|pc]; try lia.
  destruct (of_Z_pos pc) as (m1 & e1 & E1 & Hm1 & He1 & B1);
    [change (2 ^ 63) with 9223372036854775808 in Hc;
     change (2 ^ 64) with 18446744073709551616; lia|].
  destruct (mul_bounds m1 mk e1 (-52) Hm1) as (m2 & j & E2 & Hj & B2);
    [change (2 ^ 53) with 9007199254740992;
     change (2 ^ 51) with 2251799813685248 in Hmk; lia | lia|].
  unfold scale, Double.of_uint64. rewrite E1, E2. cbn [Double.to_uint64].
  assert (HP : 0 < 2 ^ (e1 + 52)) by (apply Z.pow_pos_nonneg; lia).
  assert (HL : 0 < 2 ^ (52 - e1)) by (apply Z.pow_pos_nonneg; lia).
  assert (HPe : 2 ^ (52 - e1) * 2 ^ (e1 + 52) = 2 ^ 104)
    by (rewrite <- Z.pow_add_r by lia; f_equal; lia).
  set (E := 2 ^ (e1 + 52)) in *. set (Lp := 2 ^ (52 - e1)) in *.
  set (J := Zpos m2 * 2 ^ j) in *.
  change (2 ^ 104) with (4503599627370496 * 4503599627370496) in HPe.
  change (2 ^ 156) with (4503599627370496 * 4503599627370496 * 4503599627370496) in Hk.
  change (2 ^ 52) with 4503599627370496 in *.
  change (2 ^ 51) with 2251799813685248 in *.
  change (2 ^ 63) with 9223372036854775808 in *.
  change (4503599627370496 + 1) with 4503599627370497 in *.
  change (4503599627370496 - 1) with 4503599627370495 in *.
  change (3 * 2251799813685248) with 6755399441055744 in *.
  destruct B1 as [B1l B1u]. destruct B2 as [B2l B2u].
  assert (Lo : Zpos pc * Lp <= J).
  { apply (Z.mul_le_mono_pos_r _ _ (4503599627370496 * E)); [lia|].
    replace (Zpos pc * Lp * (4503599627370496 * E))
      with (Zpos pc * (4503599627370496 * (Lp * E))) by ring.
    rewrite HPe.
    replace (J * (4503599627370496 * E)) with (J * 4503599627370496 * E) by ring.
    transitivity (Zpos m1 * Zpos mk * 4503599627370495 * E).
    2:{ apply Z.mul_le_mono_nonneg_r; lia. }
    replace (Zpos m1 * Zpos mk * 4503599627370495 * E)
      with (Zpos mk * 4503599627370495 * (Zpos m1 * E)) by ring.
    transitivity (Zpos mk * 4503599627370495 * (Zpos pc * 4503599627370495)).
    2:{ apply Z.mul_le_mono_nonneg_l; lia. }
    replace (Zpos mk * 4503599627370495 * (Zpos pc * 4503599627370495))
      with (Zpos pc * (Zpos mk * 4503599627370495 * 4503599627370495)) by ring.
    apply Z.mul_le_mono_nonneg_l; [lia|].
    replace (4503599627370496 * (4503599627370496 * 4503599627370496))
      with (4503599627370496 * 4503599627370496 * 4503599627370496) by ring.
    exact Hk. }
  assert (Up : J < (2 * Zpos pc + 1) * Lp).
  { apply (Z.mul_lt_mono_pos_r (4503599627370496 * E)); [lia|].
    replace ((2 * Zpos pc + 1) * Lp * (4503599627370496 * E))
      with ((2 * Zpos pc + 1) * (4503599627370496 * (Lp * E))) by ring.
    rewrite HPe.
    replace (J * (4503599627370496 * E)) with (J * 4503599627370496 * E) by ring.
    apply Z.le_lt_trans with (Zpos m1 * Zpos mk * 4503599627370497 * E).
    { apply Z.mul_le_mono_nonneg_r; lia. }
    replace (Zpos m1 * Zpos mk * 4503599627370497 * E)
      with (Zpos mk * 4503599627370497 * (Zpos m1 * E)) by ring.
    apply Z.le_lt_trans
      with (Zpos mk * 4503599627370497 * (Zpos pc * 4503599627370497)).
    { apply Z.mul_le_mono_nonneg_l; lia. }
    apply Z.le_lt_trans
      with (6755399441055744 * 4503599627370497 * (Zpos pc * 4503599627370497)).
    { apply Z.mul_le_mono_nonneg_r; lia. }
    lia. }
  assert (T1 : Zpos pc <= Double.trunc m2 (e1 + -52 + j)).
  { apply (trunc_ge _ _ (52 - e1)); try lia.
    replace (e1 + -52 + j + (52 - e1)) with j by lia. exact Lo. }
  assert (T2 : Double.trunc m2 (e1 + -52 + j) < 2 * Zpos pc + 1).
  { apply (trunc_lt _ _ (52 - e1)); try lia.
    replace (e1 + -52 + j + (52 - e1)) with j by lia. exact Up. }
  destruct (Z.ltb_spec (Double.trunc m2 (e1 + -52 + j)) U64.modulus) as [_|G].
  - eexists. split; [reflexivity|]. lia.
  - rewrite modulus_eq in G. lia.
Qed.

Lemma scale_underload_above (c adjusted target : Z) :
  0 < c < 2 ^ 63 -> adjusted <= target ->
  exists v, scale c (multiplier adjusted target) = Some v /\ c <= v <= 2 * c.
Proof.
  intros Hc H.
  destruct (multiplier_underload adjusted target H) as [E|[E|[E|E]]]; rewrite E.
  - change (Double.dec 125 100) with (S754_finite false 0x14000000000000 (-52)).
    apply scale_above; [exact Hc | vm_compute; split; discriminate
                        | vm_compute; discriminate].
  - change (Double.dec 105 100) with (S754_finite false 0x10cccccccccccd (-52)).
    apply scale_above; [exact Hc | vm_compute; split; discriminate
                        | vm_compute; discriminate].
  - change (Double.dec 101 100) with (S754_finite false 0x1028f5c28f5c29 (-52)).
    apply scale_above; [exact Hc | vm_compute; split; discriminate
                        | vm_compute; discriminate].
  - change (Double.dec 1005 1000) with (S754_finite false 0x10147ae147ae14 (-52)).
    apply scale_above; [exact Hc | vm_compute; split; discriminate
                        | vm_compute; discriminate].
Qed.

(** ** The controller in underload, and where [Tick] is defined *)

Lemma bump_cases (v : Z) :
  0 <= v < U64.modulus ->
  bump v = if v <=? 5 then v + 1 else v.
Proof.
  intros Hv. unfold bump. destruct (Z.leb_spec v 5); [|reflexivity].
  unfold U64.add. apply wrap_small. rewrite modulus_eq. lia.
Qed.

(** X9: underload never lowers the coefficient.  At a rollover where the
    adjusted arrival does not exceed the writing rate, a coefficient
    below 2^63 is multiplied to a product between itself and its double,
    the product plus 1 when it is at most 5; a coefficient of at most 5
    grows strictly. *)
Theorem underload_raises_coefficient (now bytes : Z) (s : RateLimiter) :
  reachable s ->
  U64.wrap now <> epoch_last_ s ->
  bytes_per_microsecond_ s < 2 ^ 63 ->
  adjusted_arrival s <= GetWritingRate s ->
  exists s' slept product,
    Tick now bytes s = Some (s', slept) /\
    scale (bytes_per_microsecond_ s)
          (multiplier (adjusted_arrival s) (GetWritingRate s)) = Some product /\
    bytes_per_microsecond_ s <= product <= 2 * bytes_per_microsecond_ s /\
    bytes_per_microsecond_ s' = (if product <=? 5 then product + 1 else product) /\
    bytes_per_microsecond_ s <= bytes_per_microsecond_ s' /\
    (bytes_per_microsecond_ s <= 5 ->
     bytes_per_microsecond_ s < bytes_per_microsecond_ s').
Proof.
  intros R Hne Hc63 Hunder. apply reachable_wf in R. destruct R as [Hc _ _ _].
  destruct (scale_underload_above (bytes_per_microsecond_ s) _ _
              ltac:(lia) Hunder) as (v & Hv & Hv1 & Hv2).
  pose proof (Tick_rollover_coefficient now bytes s Hne) as HT.
  rewrite Hv in HT. cbn [option_map] in HT.
  destruct (Tick now bytes s) as [[s' slept]|]; [|discriminate HT].
  cbn [option_map fst] in HT. injection HT as HT.
  exists s', slept, v. split; [reflexivity|]. split; [exact Hv|].
  split; [lia|].
  change (2 ^ 63) with 9223372036854775808 in Hc63.
  rewrite HT, bump_cases by (rewrite modulus_eq; lia).
  split; [reflexivity|].
  destruct (Z.leb_spec v 5); lia.
Qed.

Lemma underload_raises_coefficient_witness :
  let s := {| epoch_write_start_ := 0; epoch_write_end_ := 0;
              rate_limit_ := 0; rate_arriving_ := 0;
              rate_arriving_adjusted_ := 262144000;
              epoch_last_ := 1; epoch_current_ := 1;
              duration_slept_ := 0; bytes_per_microsecond_ := 4;
              rates_ := [] |} in
  reachable s /\ U64.wrap 2 <> epoch_last_ s /\
  bytes_per_microsecond_ s < 2 ^ 63 /\
  adjusted_arrival s <= GetWritingRate s /\
  exists s' slept,
    Tick 2 0 s = Some (s', slept) /\
    bytes_per_microsecond_ s < bytes_per_microsecond_ s'.
Proof.
  intros s.
  assert (R : reachable s)
    by (exists 0, 0, 0, [CallTick 1 0]; vm_compute; reflexivity).
  assert (H1 : U64.wrap 2 <> epoch_last_ s) by (vm_compute; discriminate).
  assert (H2 : bytes_per_microsecond_ s < 2 ^ 63) by reflexivity.
  assert (H3 : adjusted_arrival s <= GetWritingRate s)
    by (vm_compute; discriminate).
  split; [exact R|]. split; [exact H1|]. split; [exact H2|]. split; [exact H3|].
  destruct (underload_raises_coefficient 2 0 s R H1 H2 H3)
    as (s' & slept & product & T & _ & _ & _ & _ & L).
  exists s', slept. split; [exact T|]. apply L. vm_compute. discriminate.
Defined.

(** X10: [Tick] is defined (no conversion of an out-of-range product)
    in every reachable state whose coefficient is below 2^63, for every
    clock reading and byte count. *)
Theorem Tick_defined_below_2_63 (now bytes : Z) (s : RateLimiter) :
  reachable s ->
  bytes_per_microsecond_ s < 2 ^ 63 ->
  exists s' slept, Tick now bytes s = Some (s', slept).
Proof.
  intros R Hc63.
  destruct (Z.eq_dec (U64.wrap now) (epoch_last_ s)) as [E|Hne].
  - rewrite (Tick_same_second now bytes s E).
    destruct (account _ _) as [s' slept]. now exists s', slept.
  - apply reachable_wf in R. destruct R as [Hc _ _ _].
    change (2 ^ 63) with 9223372036854775808 in Hc63.
    pose proof (Tick_rollover_coefficient now bytes s Hne) as HT.
    destruct (Z.lt_ge_cases (GetWritingRate s) (adjusted_arrival s)) as [Ho|Hu].
    + destruct (scale_overload_below (bytes_per_microsecond_ s) _ _
                  ltac:(change (2 ^ 64) with 18446744073709551616; lia) Ho)
        as (v & Hv & _).
      rewrite Hv in HT.
      destruct (Tick now bytes s) as [[s' slept]|]; [|discriminate HT].
      now exists s', slept.
    + destruct (scale_underload_above (bytes_per_microsecond_ s) _ _
                  ltac:(change (2 ^ 63) with 9223372036854775808; lia) Hu)
        as (v & Hv & _).
      rewrite Hv in HT.
      destruct (Tick now bytes s) as [[s' slept]|]; [|discriminate HT].
      now exists s', slept.
Qed.

Lemma Tick_defined_below_2_63_witness :
  let s := RateLimiter_new 0 0 0 in
  reachable s /\ bytes_per_microsecond_ s < 2 ^ 63 /\
  exists s' slept, Tick 1700000000 4096 s = Some (s', slept).
Proof.
  intros s.
  assert (R : reachable s) by (exists 0, 0, 0, []; reflexivity).
  assert (H : bytes_per_microsecond_ s < 2 ^ 63) by reflexivity.
  split; [exact R|]. split; [exact H|].
  exact (Tick_defined_below_2_63 1700000000 4096 s R H).
Defined.

(** X11: the coefficient has no upper clamp.  A fresh limiter that is
    ticked once a second with 0 bytes is in underload from the second
    rollover on and grows by a quarter each second; after 194 seconds
    the coefficient exceeds 2^63 and the product of the 195th rollover
    does not fit [uint64_t]: that [Tick] has undefined behaviour. *)
Theorem idle_limiter_reaches_undefined_Tick :
  exists s,
    run (map (fun k => CallTick (Z.of_nat k) 0) (seq 1 194))
        (RateLimiter_new 0 0 0) = Some s /\
    reachable s /\
    2 ^ 63 <= bytes_per_microsecond_ s < U64.modulus /\
    Tick 195 0 s = None.
Proof.
  eexists. split; [vm_compute; reflexivity|]. split.
  - exists 0, 0, 0, (map (fun k => CallTick (Z.of_nat k) 0) (seq 1 194)).
    vm_compute. reflexivity.
  - split; [vm_compute; split; [discriminate | reflexivity] |].
    vm_compute. reflexivity.
Qed.

(** X12: one rollover moves a coefficient below 2^40 by a quarter at
    most: the new coefficient is at least three quarters of the old one
    (rounded down) minus 1, and at most five quarters of it, or 6 where
    the bump applies. *)
Theorem rollover_step_is_bounded
  (now bytes : Z) (s s' : RateLimiter) (slept : Z) :
  reachable s ->
  U64.wrap now <> epoch_last_ s ->
  bytes_per_microsecond_ s < 2 ^ 40 ->
  Tick now bytes s = Some (s', slept) ->
  3 * bytes_per_microsecond_ s / 4 - 1 <= bytes_per_microsecond_ s'
    <= Z.max (5 * bytes_per_microsecond_ s / 4) 6.
Proof.
  intros R Hne Hc40 T. apply reachable_wf in R. destruct R as [Hc _ _ _].
  pose proof (Tick_rollover_coefficient now bytes s Hne) as HT.
  rewrite T in HT. cbn [option_map fst] in HT.
  destruct (multiplier_in_table (adjusted_arrival s) (GetWritingRate s))
    as (n & d & Hin & Hm).
  rewrite Hm in HT.
  destruct (scale_by_table_factor (bytes_per_microsecond_ s) n d Hin
              ltac:(lia)) as (v & Hv & Hv1 & Hv2).
  rewrite Hv in HT. cbn [option_map] in HT. injection HT as HT.
  change (2 ^ 40) with 1099511627776 in Hc40.
  set (c := bytes_per_microsecond_ s) in *.
  assert (Hv0 : 0 <= v < U64.modulus).
  { apply scale_range in Hv. exact Hv. }
  rewrite HT, bump_cases by exact Hv0.
  cbn [In] in Hin.
  assert (B : 3 * c / 4 <= c * n / d <= 5 * c / 4).
  { repeat (destruct Hin as [Hin|Hin];
            [injection Hin as <- <-; clear - Hc; split;
             (apply Z.div_le_lower_bound; [lia|]);
             [pose proof (Z.mul_div_le (3 * c) 4 ltac:(lia)); lia
             |match goal with
              | |- 4 * (?x / ?dd) <= _ =>
                  pose proof (Z.mul_div_le x dd ltac:(lia)); lia
              end]|]).
    contradiction. }
  destruct (Z.leb_spec v 5); lia.
Qed.

Lemma rollover_step_is_bounded_witness :
  let s := RateLimiter_new 0 0 0 in
  exists s' slept,
    reachable s /\ U64.wrap 1 <> epoch_last_ s /\
    bytes_per_microsecond_ s < 2 ^ 40 /\
    Tick 1 0 s = Some (s', slept) /\
    3 * bytes_per_microsecond_ s / 4 - 1 <= bytes_per_microsecond_ s'
      <= Z.max (5 * bytes_per_microsecond_ s / 4) 6.
Proof.
  intros s.
  assert (R : reachable s) by (exists 0, 0, 0, []; reflexivity).
  assert (H1 : U64.wrap 1 <> epoch_last_ s) by (vm_compute; discriminate).
  assert (H2 : bytes_per_microsecond_ s < 2 ^ 40) by reflexivity.
  destruct (Tick 1 0 s) as [[s' slept]|] eqn:T; [|vm_compute in T; discriminate].
  exists s', slept. split; [exact R|]. split; [exact H1|]. split; [exact H2|].
  split; [reflexivity|].
  exact (rollover_step_is_bounded 1 0 s s' slept R H1 H2 T).
Defined.

(** ** The dead band of the underload factors *)

(** X13: in underload a coefficient above 5 that is too small for the
    factor of its band stays where it is: the truncated product is the
    coefficient itself when [c * (n - d) < d] for the factor [n/d], that
    is below 20 for 1.05, below 100 for 1.01 and below 200 for 1.005. *)
Theorem underload_dead_band (now bytes : Z) (s : RateLimiter) (n d : Z) :
  reachable s ->
  U64.wrap now <> epoch_last_ s ->
  adjusted_arrival s <= GetWritingRate s ->
  In (n, d) [(105, 100); (101, 100); (1005, 1000)] ->
  multiplier (adjusted_arrival s) (GetWritingRate s) = Double.dec n d ->
  5 < bytes_per_microsecond_ s ->
  bytes_per_microsecond_ s * (n - d) < d ->
  exists s' slept,
    Tick now bytes s = Some (s', slept) /\
    bytes_per_microsecond_ s' = bytes_per_microsecond_ s.
Proof.
  intros R Hne Hunder Hin Hm Hc5 Hsmall.
  set (c := bytes_per_microsecond_ s) in *.
  assert (Hnd : 1 <= n - d /\ 0 < d <= 1000).
  { cbn [In] in Hin.
    destruct Hin as [E|[E|[E|[]]]]; injection E as <- <-; clear; lia. }
  assert (Hc : c < 1000) by nia.
  destruct (scale_underload_above c _ _
              ltac:(change (2 ^ 63) with 9223372036854775808; lia) Hunder)
    as (v & Hv & Hv1 & _).
  fold c in Hv.
  assert (Hin' : In (n, d) [(75, 100); (95, 100); (99, 100); (995, 1000);
                            (125, 100); (105, 100); (101, 100); (1005, 1000)]).
  { cbn [In] in *. tauto. }
  destruct (scale_by_table_factor c n d Hin'
              ltac:(change (2 ^ 40) with 1099511627776; lia))
    as (v' & Hv' & _ & Hup).
  rewrite Hm in Hv. rewrite Hv in Hv'. injection Hv' as <-.
  assert (Hq : c * n / d = c).
  { symmetry. apply (Z.div_unique _ _ _ (c * (n - d))); [|ring].
    left. split; [apply Z.mul_nonneg_nonneg; lia | exact Hsmall]. }
  assert (v = c) by lia. subst v.
  pose proof (Tick_rollover_coefficient now bytes s Hne) as HT.
  fold c in HT. rewrite Hm, Hv in HT. cbn [option_map] in HT.
  destruct (Tick now bytes s) as [[s' slept]|]; [|discriminate HT].
  cbn [option_map fst] in HT. injection HT as HT.
  exists s', slept. split; [reflexivity|].
  rewrite HT. unfold bump. destruct (Z.leb_spec c 5); [lia | reflexivity].
Qed.

Lemma underload_dead_band_witness :
  let s := {| epoch_write_start_ := 0; epoch_write_end_ := 0;
              rate_limit_ := 0; rate_arriving_ := 500004;
              rate_arriving_adjusted_ := 0;
              epoch_last_ := 6; epoch_current_ := 6;
              duration_slept_ := 41667; bytes_per_microsecond_ := 12;
              rates_ := [] |} in
  exists s' slept,
    Tick 7 0 s = Some (s', slept) /\
    bytes_per_microsecond_ s' = bytes_per_microsecond_ s.
Proof.
  intros s.
  assert (R : reachable s).
  { exists 0, 0, 0,
      [CallTick 1 0; CallTick 2 0; CallTick 3 0; CallTick 4 0; CallTick 5 0;
       CallTick 6 0; CallTick 6 500004].
    vm_compute. reflexivity. }
  apply (underload_dead_band 7 0 s 1005 1000 R).
  - vm_compute. discriminate.
  - vm_compute. discriminate.
  - cbn [In]. tauto.
  - vm_compute. reflexivity.
  - reflexivity.
  - reflexivity.
Defined.

(** ** The floor of the coefficient *)

(** a lower bound of the integer part of [c * k], for a factor
    [k = mk * 2^ek] between 1/2 and 2 *)
Lemma scale_product_lower (c X : Z) (mk : positive) (ek : Z) :
  0 < c < 2 ^ 64 ->
  2 ^ 52 <= Zpos mk < 2 ^ 53 -> -53 <= ek <= -52 ->
  0 <= X ->
  X * 2 ^ (104 - ek) <= c * (Zpos mk * (2 ^ 52 - 1) * (2 ^ 52 - 1)) ->
  exists m2 e2,
    Double.mul (Double.of_uint64 c) (S754_finite false mk ek)
      = S754_finite false m2 e2 /\
    X <= Double.trunc m2 e2.
Proof.
  intros Hc Hmk Hek HX Hk. destruct c as [|pc|pc]; try lia.
  destruct (of_Z_pos pc) as (m1 & e1 & E1 & Hm1 & He1 & B1); [lia|].
  destruct (mul_bounds m1 mk e1 ek Hm1 Hmk) as (m2 & j & E2 & Hj & B2); [lia|].
  unfold Double.of_uint64. rewrite E1, E2.
  exists m2, (e1 + ek + j). split; [reflexivity|].
  apply (trunc_ge _ _ (- (e1 + ek))); try lia.
  replace (e1 + ek + j + - (e1 + ek)) with j by lia.
  assert (HP : 0 < 2 ^ (e1 + 52)) by (apply Z.pow_pos_nonneg; lia).
  assert (HPe : 2 ^ (- (e1 + ek)) * 2 ^ (e1 + 52) = 2 ^ (52 - ek))
    by (rewrite <- Z.pow_add_r by lia; f_equal; lia).
  assert (HPk : 2 ^ (104 - ek) = 2 ^ 52 * 2 ^ (52 - ek))
    by (rewrite <- Z.pow_add_r by lia; f_equal; lia).
  rewrite HPk in Hk.
  set (E := 2 ^ (e1 + 52)) in *. set (Lp := 2 ^ (- (e1 + ek))) in *.
  set (K := 2 ^ (52 - ek)) in *. set (J := Zpos m2 * 2 ^ j) in *.
  change (2 ^ 52) with 4503599627370496 in *.
  change (4503599627370496 + 1) with 4503599627370497 in *.
  change (4503599627370496 - 1) with 4503599627370495 in *.
  destruct B1 as [B1l _]. destruct B2 as [B2l _].
  apply (Z.mul_le_mono_pos_r _ _ (4503599627370496 * E)); [lia|].
  replace (X * Lp * (4503599627370496 * E))
    with (X * (4503599627370496 * (Lp * E))) by ring.
  rewrite HPe.
  replace (J * (4503599627370496 * E)) with (J * 4503599627370496 * E) by ring.
  transitivity (Zpos m1 * Zpos mk * 4503599627370495 * E).
  2:{ apply Z.mul_le_mono_nonneg_r; lia. }
  replace (Zpos m1 * Zpos mk * 4503599627370495 * E)
    with (Zpos mk * 4503599627370495 * (Zpos m1 * E)) by ring.
  transitivity (Zpos mk * 4503599627370495 * (Zpos pc * 4503599627370495)).
  2:{ apply Z.mul_le_mono_nonneg_l; lia. }
  replace (Zpos mk * 4503599627370495 * (Zpos pc * 4503599627370495))
    with (Zpos pc * (Zpos mk * 4503599627370495 * 4503599627370495)) by ring.
  exact Hk.
Qed.

Lemma scale_some_lower (c X v : Z) (mk : positive) (ek : Z) :
  0 < c < 2 ^ 64 ->
  2 ^ 52 <= Zpos mk < 2 ^ 53 -> -53 <= ek <= -52 ->
  0 <= X ->
  X * 2 ^ (104 - ek) <= c * (Zpos mk * (2 ^ 52 - 1) * (2 ^ 52 - 1)) ->
  scale c (S754_finite false mk ek) = Some v -> X <= v.
Proof.
  intros Hc Hmk Hek HX Hk.
  destruct (scale_product_lower c X mk ek Hc Hmk Hek HX Hk)
    as (m2 & e2 & E & T).
  unfold scale. rewrite E. cbn [Double.to_uint64].
  destruct (Double.trunc m2 e2 <? U64.modulus); [|discriminate].
  intros [= <-]. exact T.
Qed.

Lemma bump_ge (v : Z) : 0 <= v < U64.modulus -> v <= bump v.
Proof.
  intros Hv. unfold bump. destruct (Z.leb_spec v 5); [|lia].
  unfold U64.add. rewrite wrap_small by (rewrite modulus_eq; lia). lia.
Qed.

Lemma scale_underload_some (c adjusted target v : Z) :
  0 < c < 2 ^ 64 -> adjusted <= target ->
  scale c (multiplier adjusted target) = Some v -> c <= v.
Proof.
  intros Hc H.
  assert (M : multiplier adjusted target = Double.dec 125 100 \/
              multiplier adjusted target = Double.dec 105 100 \/
              multiplier adjusted target = Double.dec 101 100 \/
              multiplier adjusted target = Double.dec 1005 1000).
  { unfold multiplier.
    destruct (Z.gtb_spec adjusted target) as [|_]; [lia|].
    destruct (Double.ltb _ _); [now left|].
    destruct (Double.ltb _ _); [now right; left|].
    destruct (Double.ltb _ _); [now right; right; left|].
    now right; right; right. }
  assert (G : forall mk : positive,
             2 ^ 52 <= Zpos mk < 2 ^ 53 ->
             2 ^ 156 <= Zpos mk * (2 ^ 52 - 1) * (2 ^ 52 - 1) ->
             scale c (S754_finite false mk (-52)) = Some v -> c <= v).
  { intros mk Hmk Hk. apply scale_some_lower; try lia; try exact Hmk.
    change (104 - -52) with 156.
    rewrite (Z.mul_comm c (2 ^ 156)), (Z.mul_comm c).
    apply Z.mul_le_mono_nonneg_r; [lia | exact Hk]. }
  destruct M as [E|[E|[E|E]]]; rewrite E.
  - change (Double.dec 125 100) with (S754_finite false 0x14000000000000 (-52)).
    apply G; vm_compute; try split; discriminate || reflexivity.
  - change (Double.dec 105 100) with (S754_finite false 0x10cccccccccccd (-52)).
    apply G; vm_compute; try split; discriminate || reflexivity.
  - change (Double.dec 101 100) with (S754_finite false 0x1028f5c28f5c29 (-52)).
    apply G; vm_compute; try split; discriminate || reflexivity.
  - change (Double.dec 1005 1000) with (S754_finite false 0x10147ae147ae14 (-52)).
    apply G; vm_compute; try split; discriminate || reflexivity.
Qed.

Lemma scale_overload_some (c adjusted target v : Z) :
  0 < c < 2 ^ 64 -> target < adjusted ->
  scale c (multiplier adjusted target) = Some v -> c / 2 <= v.
Proof.
  intros Hc H.
  assert (Hh : 0 <= c / 2) by (apply Z.div_pos; lia).
  pose proof (Z.mul_div_le c 2 ltac:(lia)) as Hh2.
  assert (G : forall mk : positive,
             2 ^ 52 <= Zpos mk < 2 ^ 53 ->
             2 ^ 156 <= Zpos mk * (2 ^ 52 - 1) * (2 ^ 52 - 1) ->
             scale c (S754_finite false mk (-53)) = Some v -> c / 2 <= v).
  { intros mk Hmk Hk. apply scale_some_lower; try lia; try exact Hmk.
    change (104 - -53) with (1 + 156). rewrite Z.pow_add_r by lia.
    change (2 ^ 1) with 2.
    transitivity (c * 2 ^ 156).
    - replace (c / 2 * (2 * 2 ^ 156)) with (2 * (c / 2) * 2 ^ 156) by ring.
      apply Z.mul_le_mono_nonneg_r; [apply Z.pow_nonneg; lia | exact Hh2].
    - apply Z.mul_le_mono_nonneg_l; [lia | exact Hk]. }
  destruct (multiplier_overload adjusted target H) as [E|[E|[E|E]]]; rewrite E.
  - change (Double.dec 75 100) with (S754_finite false 0x18000000000000 (-53)).
    apply G; vm_compute; try split; discriminate || reflexivity.
  - change (Double.dec 95 100) with (S754_finite false 0x1e666666666666 (-53)).
    apply G; vm_compute; try split; discriminate || reflexivity.
  - change (Double.dec 99 100) with (S754_finite false 0x1fae147ae147ae (-53)).
    apply G; vm_compute; try split; discriminate || reflexivity.
  - change (Double.dec 995 1000) with (S754_finite false 0x1fd70a3d70a3d7 (-53)).
    apply G; vm_compute; try split; discriminate || reflexivity.
Qed.

Lemma scale_overload_small (c adjusted target v : Z) :
  4 <= c <= 7 -> target < adjusted ->
  scale c (multiplier adjusted target) = Some v -> 3 <= v.
Proof.
  intros Hc H.
  assert (C : c = 4 \/ c = 5 \/ c = 6 \/ c = 7) by lia.
  destruct (multiplier_overload adjusted target H) as [E|[E|[E|E]]]; rewrite E;
    destruct C as [->|[->|[->| ->]]]; vm_compute; intros [= <-]; discriminate.
Qed.

Lemma rollover_keeps_floor (s s' : RateLimiter) :
  4 <= bytes_per_microsecond_ s < U64.modulus ->
  rollover s = Some s' -> 4 <= bytes_per_microsecond_ s'.
Proof.
  intros Hc R.
  destruct (rollover_coefficient s s' R) as (v & Hv & -> & _).
  pose proof (scale_range _ _ _ Hv) as Hr.
  rewrite modulus_eq in Hc.
  assert (Hc' : 0 < bytes_per_microsecond_ s < 2 ^ 64)
    by (change (2 ^ 64) with 18446744073709551616; lia).
  destruct (Z.lt_ge_cases (GetWritingRate s) (adjusted_arrival s)) as [Ho|Hu].
  - destruct (Z.le_gt_cases (bytes_per_microsecond_ s) 7) as [S7|L7].
    + pose proof (scale_overload_small (bytes_per_microsecond_ s) _ _ v
                    ltac:(lia) Ho Hv) as H3.
      unfold bump. destruct (Z.leb_spec v 5); [|lia].
      unfold U64.add. rewrite wrap_small by (rewrite modulus_eq; lia). lia.
    + pose proof (scale_overload_some _ _ _ _ Hc' Ho Hv) as Hh.
      assert (4 <= bytes_per_microsecond_ s / 2)
        by (apply Z.div_le_lower_bound; lia).
      pose proof (bump_ge v Hr). lia.
  - pose proof (scale_underload_some _ _ _ _ Hc' Hu Hv).
    pose proof (bump_ge v Hr). lia.
Qed.

Lemma exec_keeps_floor (c : call) (s s' : RateLimiter) :
  wf s /\ 4 <= bytes_per_microsecond_ s ->
  exec c s = Some s' ->
  wf s' /\ 4 <= bytes_per_microsecond_ s'.
Proof.
  intros [W F] E. split; [exact (wf_exec c s s' W E)|].
  pose proof (wf_coefficient _ W) as Hc.
  destruct c as [now b|t|t n|r]; cbn [exec] in E.
  - destruct (Tick now b s) as [[s1 sl]|] eqn:T; [|discriminate].
    injection E as <-.
    destruct (Tick_cases _ _ _ _ _ T) as [[_ A] | [_ (s2 & R & A)]];
      apply account_result in A; destruct A as [_ ->].
    + exact F.
    + apply (rollover_keeps_floor (set_epoch_current now s)); [|exact R].
      cbn [bytes_per_microsecond_ set_epoch_current]. lia.
  - injection E as <-. exact F.
  - unfold WriteEnd in E. destruct (write_sample _ _ _); [|discriminate].
    injection E as <-. exact F.
  - injection E as <-. exact F.
Qed.

(** X14: as long as no call has had undefined behaviour, the coefficient
    is at least 4.  The constructor sets 5; a product of 3 or more is
    kept or bumped to at least 4, and every factor takes a coefficient
    of 4 or more to a product of 3 or more.  Hence a [Tick] that is
    defined in such a state sleeps at most a quarter of a microsecond
    per byte.  The statement is about the runs in which every call is
    defined, and says nothing of a limiter after a call that is not;
    an idle limiter comes to such a call after 194 seconds, when the
    coefficient has passed 2^63. *)
Theorem coefficient_at_least_4
  (rate_limit ws we : Z) (cs : list call) (s : RateLimiter) :
  run cs (RateLimiter_new rate_limit ws we) = Some s ->
  4 <= bytes_per_microsecond_ s /\
  forall (now bytes : Z) (s' : RateLimiter) (slept : Z),
    Tick now bytes s = Some (s', slept) ->
    4 <= bytes_per_microsecond_ s' /\ 4 * slept <= U64.wrap bytes.
Proof.
  intros Hrun.
  assert (R : reachable s) by (exists rate_limit, ws, we, cs; exact Hrun).
  assert (I : forall x, reachable x -> wf x /\ 4 <= bytes_per_microsecond_ x).
  { apply reachable_invariant.
    - intros. split; [apply wf_new | cbn; lia].
    - exact exec_keeps_floor. }
  split; [exact (proj2 (I s R))|].
  intros now bytes s' slept T.
  assert (R' : reachable s').
  { apply (reachable_exec (CallTick now bytes) s); [exact R|].
    cbn. rewrite T. reflexivity. }
  destruct (I s' R') as [_ F']. split; [exact F'|].
  rewrite (Tick_sleep _ _ _ _ _ T).
  pose proof (wrap_range bytes) as Hb.
  rewrite sleep_microseconds_spec by lia.
  set (b := U64.wrap bytes) in *. set (c := bytes_per_microsecond_ s') in *.
  pose proof (Z.mul_div_le b c ltac:(lia)) as D1.
  assert (D0 : 0 <= b / c) by (apply Z.div_pos; lia).
  assert (4 * (b / c) <= b) by nia.
  lia.
Qed.

Lemma coefficient_at_least_4_witness :
  exists s s' slept,
    run [CallTick 1 0; CallTick 2 0] (RateLimiter_new 0 0 0) = Some s /\
    bytes_per_microsecond_ s = 6 /\
    Tick 3 1000 s = Some (s', slept) /\
    4 <= bytes_per_microsecond_ s' /\ 4 * slept <= U64.wrap 1000.
Proof.
  destruct (run [CallTick 1 0; CallTick 2 0] (RateLimiter_new 0 0 0))
    as [s|] eqn:R; [|vm_compute in R; discriminate R].
  destruct (Tick 3 1000 s) as [[s' slept]|] eqn:T;
    [|vm_compute in R; injection R as <-; vm_compute in T; discriminate T].
  exists s, s', slept. split; [reflexivity|].
  split; [vm_compute in R; injection R as <-; reflexivity|].
  split; [exact T|].
  exact (proj2 (coefficient_at_least_4 0 0 0 [CallTick 1 0; CallTick 2 0] s R)
           3 1000 s' slept T).
Defined.

(** ** The sample of [WriteEnd] *)

Lemma WriteEnd_sample (now_ms n : Z) (s : RateLimiter) (r : option Z) :
  0 <= now_ms < U64.modulus -> 0 <= n < U64.modulus ->
  write_sample (epoch_write_start_ s) now_ms n = r ->
  option_map rates_ (WriteEnd now_ms n s) =
  option_map (fun x => StoreWritingRate x (rates_ s)) r.
Proof.
  intros Hnow Hn <-. rewrite WriteEnd_rates, !wrap_small by assumption.
  reflexivity.
Qed.

(** X15: the sample of [WriteEnd] after a positive elapsed time.  With
    stamps below 2^53 ms and [1000 * bytes + elapsed] below 2^51, the
    two binary64 divisions and the truncation store the integer part of
    the exact rate [1000 * bytes / elapsed] in bytes per second, or one
    less; the call is defined. *)
Theorem WriteEnd_sample_accuracy (now_ms n : Z) (s : RateLimiter) :
  0 <= epoch_write_start_ s -> epoch_write_start_ s < now_ms ->
  now_ms < 2 ^ 53 ->
  0 <= n -> 1000 * n + (now_ms - epoch_write_start_ s) < 2 ^ 51 ->
  exists v,
    option_map rates_ (WriteEnd now_ms n s) =
      Some (StoreWritingRate v (rates_ s)) /\
    1000 * n / (now_ms - epoch_write_start_ s) - 1 <= v
      <= 1000 * n / (now_ms - epoch_write_start_ s) /\
    0 <= v.
Proof.
  intros H0 Hlt Hnow Hn Hsmall.
  destruct (write_sample_forward _ _ n H0 Hlt Hnow Hn Hsmall)
    as (v & Hv & Hb & Hv0).
  exists v. split; [|split; assumption].
  change (2 ^ 53) with 9007199254740992 in Hnow.
  change (2 ^ 51) with 2251799813685248 in Hsmall.
  rewrite (WriteEnd_sample now_ms n s (Some v)); try reflexivity;
    try exact Hv; rewrite modulus_eq; lia.
Qed.

Lemma WriteEnd_sample_accuracy_witness :
  let s := WriteStart 1000 (RateLimiter_new 0 0 0) in
  exists v,
    option_map rates_ (WriteEnd 1017 17 s) = Some (StoreWritingRate v (rates_ s)) /\
    1000 * 17 / (1017 - epoch_write_start_ s) - 1 <= v
      <= 1000 * 17 / (1017 - epoch_write_start_ s).
Proof.
  intros s.
  destruct (WriteEnd_sample_accuracy 1017 17 s)
    as (v & Hv & Hb & _);
    try (vm_compute; first [reflexivity | discriminate]).
  exists v. split; assumption.
Defined.

(** X16: a clock that stepped back between [WriteStart] and [WriteEnd].
    The elapsed time is negative and so is the quotient: the conversion
    to [uint64_t] is undefined, unless the quotient is above -1, which
    stores the sample 0.  It is undefined whenever the step back is at
    most 500 ms per byte written. *)
Theorem WriteEnd_clock_stepped_back (now_ms n : Z) (s : RateLimiter) :
  0 <= now_ms -> now_ms < epoch_write_start_ s ->
  epoch_write_start_ s < 2 ^ 53 ->
  1 <= n < 2 ^ 53 ->
  (WriteEnd now_ms n s = None \/
   option_map rates_ (WriteEnd now_ms n s) =
     Some (StoreWritingRate 0 (rates_ s))) /\
  (epoch_write_start_ s - now_ms <= 500 * n -> WriteEnd now_ms n s = None).
Proof.
  intros H0 Hlt Hs Hn. destruct n as [|pn|pn]; try lia.
  destruct (write_sample_backward (epoch_write_start_ s) now_ms pn
              H0 Hlt Hs ltac:(lia)) as [A B].
  change (2 ^ 53) with 9007199254740992 in *.
  assert (W1 : U64.wrap now_ms = now_ms)
    by (apply wrap_small; rewrite modulus_eq; lia).
  assert (W2 : U64.wrap (Zpos pn) = Zpos pn)
    by (apply wrap_small; rewrite modulus_eq; lia).
  assert (N : write_sample (epoch_write_start_ s) now_ms (Zpos pn) = None ->
              WriteEnd now_ms (Zpos pn) s = None).
  { intros E. unfold WriteEnd. rewrite W1, W2, E. reflexivity. }
  split.
  - destruct A as [E|E]; [left; exact (N E)|right].
    rewrite WriteEnd_rates, W1, W2, E. reflexivity.
  - intros G. exact (N (B G)).
Qed.

Lemma WriteEnd_clock_stepped_back_witness :
  let s := WriteStart 2000 (RateLimiter_new 0 0 0) in
  0 <= 1990 /\ 1990 < epoch_write_start_ s /\
  epoch_write_start_ s < 2 ^ 53 /\ 1 <= 4096 < 2 ^ 53 /\
  epoch_write_start_ s - 1990 <= 500 * 4096 /\
  WriteEnd 1990 4096 s = None.
Proof.
  intros s.
  assert (H0 : 0 <= 1990) by lia.
  assert (H1 : 1990 < epoch_write_start_ s) by reflexivity.
  assert (H2 : epoch_write_start_ s < 2 ^ 53) by reflexivity.
  assert (H3 : 1 <= 4096 < 2 ^ 53) by (split; [lia | reflexivity]).
  assert (H4 : epoch_write_start_ s - 1990 <= 500 * 4096)
    by (vm_compute; discriminate).
  repeat (split; [assumption|]).
  exact (proj2 (WriteEnd_clock_stepped_back 1990 4096 s H0 H1 H2 H3) H4).
Defined.

(** X17: [WriteEnd(0)] stores the sample 0 whichever way the clock
    moved, for stamps below 2^53 ms: the elapsed time in seconds is a
    finite number other than 0, so that the quotient is a zero and not
    the NaN of 0/0. *)
Theorem WriteEnd_no_bytes (now_ms : Z) (s : RateLimiter) :
  0 <= epoch_write_start_ s < 2 ^ 53 -> 0 <= now_ms < 2 ^ 53 ->
  option_map rates_ (WriteEnd now_ms 0 s) =
    Some (StoreWritingRate 0 (rates_ s)).
Proof.
  intros Hs Hnow.
  change (2 ^ 53) with 9007199254740992 in *.
  rewrite (WriteEnd_sample now_ms 0 s (Some 0)); try reflexivity;
    try (rewrite modulus_eq; lia).
  apply write_sample_no_bytes; change (2 ^ 53) with 9007199254740992; lia.
Qed.

Lemma WriteEnd_no_bytes_witness :
  let s := WriteStart 2000 (RateLimiter_new 0 0 0) in
  option_map rates_ (WriteEnd 1990 0 s) = Some (StoreWritingRate 0 (rates_ s)).
Proof.
  intros s. apply WriteEnd_no_bytes; vm_compute; split; discriminate || reflexivity.
Defined.

(** ** Options: the path of the options file and the parameter tables *)

Section OptionsFacts.

Import String.

Lemma string_length_append (s t : string) :
  String.length (s ++ t)%string = (String.length s + String.length t)%nat.
Proof. induction s as [|a s IH]; cbn; [reflexivity | now rewrite IH]. Qed.

Lemma string_append_inj_l (t s1 s2 : string) :
  (s1 ++ t)%string = (s2 ++ t)%string -> s1 = s2.
Proof.
  revert s2. induction s1 as [|a s1 IH]; intros [|b s2] H; cbn in H.
  - reflexivity.
  - apply (f_equal String.length) in H. cbn in H.
    rewrite string_length_append in H. lia.
  - apply (f_equal String.length) in H. cbn in H.
    rewrite string_length_append in H. lia.
  - injection H as -> H. f_equal. now apply IH.
Qed.

(** X18: the options file of a database directory.  [GetPath] is the
    directory, a slash and [GetFilename]; two directories have the same
    options path only if they are the same string, and the path is 11
    characters longer than the directory. *)
Theorem GetPath_of_directory (dirpath other : string) :
  Options.GetPath dirpath = (dirpath ++ "/" ++ Options.GetFilename)%string /\
  (Options.GetPath dirpath = Options.GetPath other -> dirpath = other) /\
  String.length (Options.GetPath dirpath) = (String.length dirpath + 11)%nat.
Proof.
  split; [reflexivity|]. split.
  - apply string_append_inj_l.
  - unfold Options.GetPath. rewrite string_length_append. reflexivity.
Qed.

Lemma DatabaseOptions_calls (Parser : Type)
  (AddParameter : Options.ConfigParameter -> Parser -> Parser)
  (parser : Parser) :
  Options.DatabaseOptions_AddParametersToConfigParser Parser AddParameter parser
  = fold_left (fun acc p => AddParameter p acc) Options.database_parameters parser.
Proof. reflexivity. Qed.

Lemma ServerOptions_calls (Parser : Type)
  (AddParameter : Options.ConfigParameter -> Parser -> Parser)
  (parser : Parser) :
  Options.ServerOptions_AddParametersToConfigParser Parser AddParameter parser
  = fold_left (fun acc p => AddParameter p acc) Options.server_parameters parser.
Proof. reflexivity. Qed.

(** X19: the names handed to [AddParameter].  Whatever the parser, the
    two functions make 18 and 5 calls; the 23 names are pairwise
    distinct, those of [DatabaseOptions] start with "db." and those of
    [ServerOptions] with "server.", and no parameter is mandatory. *)
Theorem parameter_names_are_distinct (Parser : Type)
  (AddParameter : Options.ConfigParameter -> Parser -> Parser)
  (parser : Parser) :
  Options.ServerOptions_AddParametersToConfigParser Parser AddParameter
    (Options.DatabaseOptions_AddParametersToConfigParser Parser AddParameter
       parser)
  = fold_left (fun acc p => AddParameter p acc)
      (Options.database_parameters ++ Options.server_parameters)%list parser /\
  List.length Options.database_parameters = 18%nat /\
  List.length Options.server_parameters = 5%nat /\
  NoDup (map Options.name
           (Options.database_parameters ++ Options.server_parameters)%list) /\
  forallb (fun p => String.prefix "db." (Options.name p))
          Options.database_parameters = true /\
  forallb (fun p => String.prefix "server." (Options.name p))
          Options.server_parameters = true /\
  forallb (fun p => negb (Options.mandatory p))
          (Options.database_parameters ++ Options.server_parameters)%list
    = true.
Proof.
  split; [rewrite fold_left_app; reflexivity|].
  split; [reflexivity|]. split; [reflexivity|].
  split; [|repeat split; reflexivity].
  vm_compute.
  repeat (constructor; [cbn [In]; intuition discriminate|]).
  constructor.
Qed.

Lemma Pointer_eqb_eq (a b : Options.Pointer) :
  Options.Pointer_eqb a b = true <-> a = b.
Proof.
  split.
  - destruct a as [f|f], b as [g|g]; try discriminate;
      destruct f, g; try discriminate; reflexivity.
  - intros <-. destruct a as [f|f]; destruct f; reflexivity.
Qed.

(** X20: the data members the parameters are written to.  The address
    of [compaction__check_interval] is given twice, with the names
    "db.compaction.check_interval" and
    "db.compaction.num_index_iterations_per_lock"; the member
    [compaction__num_index_iterations_per_lock] is given to no
    parameter, like [hash], [compression], [max_open_files] and
    [internal__hstable_header_size]; every other member is written by
    one parameter at most. *)
Theorem parameter_targets (ptr : Options.Pointer) :
  let all := (Options.database_parameters ++ Options.server_parameters)%list in
  map Options.name
      (Options.written_to
         (Options.db_options Options.compaction__check_interval) all)
  = ["db.compaction.check_interval";
     "db.compaction.num_index_iterations_per_lock"]%string /\
  (In ptr [Options.db_options Options.compaction__num_index_iterations_per_lock;
           Options.db_options Options.hash;
           Options.db_options Options.compression;
           Options.db_options Options.max_open_files;
           Options.db_options Options.internal__hstable_header_size] ->
   Options.written_to ptr all = []) /\
  (ptr <> Options.db_options Options.compaction__check_interval ->
   (List.length (Options.written_to ptr all) <= 1)%nat).
Proof.
  intros all. split; [reflexivity|]. split.
  - cbn [In]. intros [<-|[<-|[<-|[<-|[<-|[]]]]]]; reflexivity.
  - intros Hne. destruct ptr as [f|f]; destruct f;
      try (vm_compute; lia); contradiction Hne; reflexivity.
Qed.

Lemma parameter_targets_witness :
  Options.written_to (Options.db_options Options.max_open_files)
    (Options.database_parameters ++ Options.server_parameters)%list = [].
Proof.
  apply (parameter_targets (Options.db_options Options.max_open_files)).
  cbn [In]. tauto.
Defined.

End OptionsFacts.
